(** * CSV Table View: delimiter detection, record parsing, validation,
      row-count estimation and the load / load-more pipeline.

    Shallow embedding of [src/utils/delimiter.ts], [src/utils/csvParser.ts]
    and of [loadCsvFile] / [loadMoreRows] of the editor provider.

    JavaScript strings are sequences of UTF-16 code units; the numbers the
    program only counts, adds and compares (row counts, caps, scores) are
    integers, here [Z]; the two places where it computes with fractions
    ([length * 0.1] and [length / sampleSize * n]) use IEEE-754 binary64
    through the Standard Library's [SpecFloat]. *)

From Stdlib Require Import String Ascii.
From Stdlib Require Import ZArith NArith List Bool Lia.
From Stdlib Require Import DecimalString.
From Stdlib Require Import Floats.SpecFloat.
Import ListNotations.

Open Scope Z_scope.

(** ** JavaScript values used by the program *)

Module JS.

(** A UTF-16 code unit; a JavaScript string is a list of them. *)
Definition char := N.
Definition jsstring := list char.

(** ASCII literal of the source text as a JavaScript string. *)
Definition lit (s : string) : jsstring :=
  map N_of_ascii (list_ascii_of_string s).

Definition TAB : char := 9%N.
Definition LF : char := 10%N.
Definition CR : char := 13%N.
Definition QUOTE : char := 34%N.
Definition COMMA : char := 44%N.
Definition SEMICOLON : char := 59%N.
Definition PIPE : char := 124%N.
Definition BYTE_ORDER_MARK : char := 65279%N.

Fixpoint eqb (s t : jsstring) : bool :=
  match s, t with
  | [], [] => true
  | c :: s', d :: t' => N.eqb c d && eqb s' t'
  | _, _ => false
  end.

Definition len (s : jsstring) : Z := Z.of_nat (length s).

(** [WhiteSpace] and [LineTerminator] code units, the ones
    [String.prototype.trim] removes. *)
Definition isWhiteSpace (c : char) : bool :=
  ((9 <=? c) && (c <=? 13) || (c =? 32) || (c =? 160) || (c =? 5760)
   || (8192 <=? c) && (c <=? 8202) || (c =? 8232) || (c =? 8233)
   || (c =? 8239) || (c =? 8287) || (c =? 12288) || (c =? 65279))%N.

Fixpoint trimStart (s : jsstring) : jsstring :=
  match s with
  | [] => []
  | c :: s' => if isWhiteSpace c then trimStart s' else s
  end.

Definition trim (s : jsstring) : jsstring :=
  rev (trimStart (rev (trimStart s))).

(** Truthiness of a string: non-empty. *)
Definition truthy (s : jsstring) : bool :=
  match s with [] => false | _ => true end.

Fixpoint startsWith (pat s : jsstring) : bool :=
  match pat, s with
  | [], _ => true
  | p :: pat', c :: s' => N.eqb p c && startsWith pat' s'
  | _ :: _, [] => false
  end.

(** [s.split(sep)] for a separator string.  [skip] counts the code units
    of a separator occurrence still to be passed over; [cur] is the piece
    being collected.  An empty separator splits between code units. *)
Fixpoint split_go (sep s : jsstring) (skip : nat) (cur : jsstring)
  : list jsstring :=
  match s with
  | [] => [cur]
  | c :: s' =>
      match skip with
      | S k => split_go sep s' k cur
      | O =>
          if startsWith sep s
          then cur :: split_go sep s' (pred (length sep)) []
          else split_go sep s' O (cur ++ [c])
      end
  end.

Definition split (sep s : jsstring) : list jsstring :=
  match sep with
  | [] => map (fun c => [c]) s
  | _ => split_go sep s O []
  end.

(** [parts.join(sep)]. *)
Fixpoint join (sep : jsstring) (parts : list jsstring) : jsstring :=
  match parts with
  | [] => []
  | [p] => p
  | p :: rest => p ++ sep ++ join sep rest
  end.

(** Relative index of [slice], [substring]: clamped into [0, n]. *)
Definition clampFromEnd (n i : Z) : Z :=
  if i <? 0 then Z.max (n + i) 0 else Z.min i n.

(** [arr.slice(start, end)]; [None] is an omitted [end]. *)
Definition slice {A : Type} (l : list A) (start : Z) (stop : option Z)
  : list A :=
  let n := Z.of_nat (length l) in
  let k := clampFromEnd n start in
  let e := match stop with None => n | Some e => clampFromEnd n e end in
  firstn (Z.to_nat (e - k)) (skipn (Z.to_nat k) l).

(** [s.substring(a, b)]: negative indices count as 0, indices past the
    end as the length, and the two are swapped when [a > b]. *)
Definition substring (s : jsstring) (a b : Z) : jsstring :=
  let n := len s in
  let a' := Z.max 0 (Z.min a n) in
  let b' := Z.max 0 (Z.min b n) in
  let lo := Z.min a' b' in
  let hi := Z.max a' b' in
  firstn (Z.to_nat (hi - lo)) (skipn (Z.to_nat lo) s).

Definition substringFrom (s : jsstring) (a : Z) : jsstring :=
  substring s a (len s).

(** [s.substr(start, length)] for [start >= 0]. *)
Definition substr (s : jsstring) (start count : Z) : jsstring :=
  firstn (Z.to_nat count) (skipn (Z.to_nat start) s).

(** [s[i]]: [None] is [undefined]. *)
Definition charAt (s : jsstring) (i : Z) : option char :=
  if i <? 0 then None else nth_error s (Z.to_nat i).

Definition charIs (s : jsstring) (i : Z) (c : char) : bool :=
  match charAt s i with
  | Some d => N.eqb d c
  | None => false
  end.

(** [s.indexOf(pat, from)], [-1] when there is no occurrence. *)
Fixpoint indexOf_go (pat s : jsstring) (pos : Z) : Z :=
  match s with
  | [] => match pat with [] => pos | _ => -1 end
  | _ :: s' => if startsWith pat s then pos else indexOf_go pat s' (pos + 1)
  end.

Definition indexOf (pat s : jsstring) (from : Z) : Z :=
  let k := Z.max 0 (Z.min from (len s)) in
  indexOf_go pat (skipn (Z.to_nat k) s) k.

(** Decimal rendering of an integer, as [String(n)] and template
    literals give it. *)
Definition ofInteger (n : Z) : jsstring :=
  lit (NilZero.string_of_int (Z.to_int n)).

(** *** Numbers: IEEE-754 binary64 *)

Definition Number := spec_float.
Definition prec : Z := 53.
Definition emax : Z := 1024.

(** The double nearest to an integer (exact below 2^53). *)
Definition ofZ (n : Z) : Number := binary_normalize prec emax n 0 false.
Definition mul (x y : Number) : Number := SFmul prec emax x y.
Definition div (x y : Number) : Number := SFdiv prec emax x y.
(** [x > y]; false when either side is NaN. *)
Definition gt (x y : Number) : bool := SFltb y x.

(** The literal [0.1]. *)
Definition oneTenth : Number := S754_finite false 7205759403792794 (-56).

(** [Math.floor] of a finite number, as an integer; infinities and NaN
    have no integer value. *)
Definition floor (x : Number) : option Z :=
  match x with
  | S754_zero _ => Some 0
  | S754_finite s m e =>
      let v := if s then Z.neg m else Z.pos m in
      Some (if 0 <=? e then v * 2 ^ e else v / 2 ^ (- e))
  | _ => None
  end.

End JS.

Import JS.

(** ** [src/utils/delimiter.ts] *)

Module Delimiter.

(** A [Map<string, number>]: entries in insertion order, which is the order
    [entries()] iterates in. *)
Definition ScoreMap := list (jsstring * Z).

Fixpoint Map_set (m : ScoreMap) (k : jsstring) (v : Z) : ScoreMap :=
  match m with
  | [] => [(k, v)]
  | (k', v') :: m' =>
      if JS.eqb k' k then (k', v) :: m' else (k', v') :: Map_set m' k v
  end.

(** The scan of [countDelimiterOccurrences]: [count] and [inQuotes] are
    the loop variables; a quote followed by a quote passes over both. *)
Fixpoint countFrom (line delimiter : jsstring) (inQuotes : bool) (count : Z)
  : Z :=
  match line with
  | [] => count
  | char :: rest =>
      if N.eqb char QUOTE then
        match rest with
        | next :: rest' =>
            if N.eqb next QUOTE
            then countFrom rest' delimiter inQuotes count
            else countFrom rest delimiter (negb inQuotes) count
        | [] => countFrom rest delimiter (negb inQuotes) count
        end
      else if JS.eqb [char] delimiter && negb inQuotes
           then countFrom rest delimiter inQuotes (count + 1)
           else countFrom rest delimiter inQuotes count
  end.

Definition countDelimiterOccurrences (line delimiter : jsstring) : Z :=
  countFrom line delimiter false 0.

Definition delimiters : list jsstring :=
  [[COMMA]; [SEMICOLON]; [TAB]; [PIPE]].

(** The lines analysed: the non-blank ones among the first five. *)
Definition sampleLines (sample : jsstring) : list jsstring :=
  filter (fun line => truthy (trim line))
         (slice (split [LF] sample) 0 (Some 5)).

(** One iteration of the scoring loop, for one candidate. *)
Definition scoreStep (lines : list jsstring) (scores : ScoreMap)
           (delimiter : jsstring) : ScoreMap :=
  let counts := map (fun line => countDelimiterOccurrences line delimiter)
                    lines in
  if (1 <? length counts)%nat then
    let first := nth 0 counts 0 in
    let allSame := forallb (fun c => c =? first) counts in
    let hasDelimiters := 0 <? first in
    if allSame && hasDelimiters then Map_set scores delimiter (first * 100)
    else if hasDelimiters then Map_set scores delimiter (first * 10)
    else Map_set scores delimiter 0
  else if (length counts =? 1)%nat then
    Map_set scores delimiter (nth 0 counts 0)
  else scores.

(** One iteration of the selection loop over [scores.entries()]. *)
Definition pickStep (best : jsstring * Z) (entry : jsstring * Z)
  : jsstring * Z :=
  let '(bestDelimiter, bestScore) := best in
  let '(delimiter, score) := entry in
  if bestScore <? score then (delimiter, score)
  else (bestDelimiter, bestScore).

Definition detectDelimiter (sample configuredDelimiter : jsstring)
  : jsstring :=
  if negb (JS.eqb configuredDelimiter (lit "auto")) then
    if JS.eqb configuredDelimiter (lit "\t") then [TAB]
    else configuredDelimiter
  else
    let lines := sampleLines sample in
    if (length lines =? 0)%nat then [COMMA]
    else
      let scores := fold_left (scoreStep lines) delimiters [] in
      fst (fold_left pickStep scores ([COMMA], 0)).

Definition getDelimiterName (delimiter : jsstring) : jsstring :=
  if JS.eqb delimiter [COMMA] then lit "Comma"
  else if JS.eqb delimiter [SEMICOLON] then lit "Semicolon"
  else if JS.eqb delimiter [TAB] then lit "Tab"
  else if JS.eqb delimiter [PIPE] then lit "Pipe"
  else lit "Custom".

End Delimiter.

(** ** The [papaparse] library, as [parseCSV] uses it

    [csvParser.ts] imports [Papa.parse] from the third-party package
    [papaparse], which is not part of the sources.  This module models the
    library for string input under the options [parseCSV] fixes
    ([quoteChar] and [escapeChar] the double quote, no comments, no header
    row, no typing, no step or chunk callback), following the library's
    [Parser.parse] loop, [guessLineEndings] and [ParserHandle] result
    processing.  The option [preview] is as the library documents it: if
    it is greater than 0, only that many rows are parsed.  The library's
    own delimiter guesser, consulted only when no delimiter is configured,
    is a parameter. *)

Module Papa.

Definition Row := list jsstring.

Record ParseError := {
  type : jsstring;
  code : jsstring;
  message : jsstring;
  row : option Z
}.

Record Config := {
  delimiter : option jsstring;
  skipEmptyLines : bool;   (* ['greedy'] when set, [false] otherwise *)
  preview : Z
}.

Record ParseResult := {
  data : list Row;
  errors : list ParseError
}.

(** The library's [guessDelimiter]: from the input, the line break and
    [skipEmptyLines] to the best candidate, if any. *)
Definition Guesser := jsstring -> jsstring -> bool -> option char.

Definition DefaultDelimiter : jsstring := [COMMA].
Definition BAD_DELIMITERS : list jsstring :=
  [[CR]; [LF]; [QUOTE]; [BYTE_ORDER_MARK]].

Definition stripBom (s : jsstring) : jsstring :=
  match s with
  | c :: s' => if N.eqb c BYTE_ORDER_MARK then s' else s
  | [] => s
  end.

(** The replacement in [guessLineEndings] that deletes quoted text: every
    stretch from a quote up to the next quote goes; [pending] holds the
    text since an opening quote that has not met its partner yet. *)
Fixpoint dropQuoted (s : jsstring) (pending : option jsstring) : jsstring :=
  match s, pending with
  | [], None => []
  | [], Some p => p
  | c :: s', None =>
      if N.eqb c QUOTE then dropQuoted s' (Some [c])
      else c :: dropQuoted s' None
  | c :: s', Some p =>
      if N.eqb c QUOTE then dropQuoted s' None
      else dropQuoted s' (Some (p ++ [c]))
  end.

Definition guessLineEndings (input : jsstring) : jsstring :=
  let input := substring input 0 (1024 * 1024) in
  let input := dropQuoted input None in
  let r := split [CR] input in
  let n := split [LF] input in
  let nAppearsFirst :=
    (1 <? length n)%nat && (len (hd [] n) <? len (hd [] r)) in
  if (length r =? 1)%nat || nAppearsFirst then [LF]
  else
    let numWithN :=
      length (filter (fun ri => match ri with
                                | c :: _ => N.eqb c LF
                                | [] => false
                                end) r) in
    if (length r <=? 2 * numWithN)%nat then [CR; LF] else [CR].

(** The replacement of every escaped (doubled) quote of a quoted field
    by one quote. *)
Fixpoint unescape (s : jsstring) : jsstring :=
  match s with
  | [] => []
  | c :: rest =>
      if N.eqb c QUOTE then
        match rest with
        | d :: rest' =>
            if N.eqb d QUOTE then QUOTE :: unescape rest'
            else c :: unescape rest
        | [] => [c]
        end
      else c :: unescape rest
  end.

Section Parser.

Variables (delim newline : jsstring) (preview : Z) (input : jsstring).

Let inputLen := len input.
Let delimLen := len delim.
Let newlineLen := len newline.

(** The variables of the parser loop. *)
Record State := {
  cursor : Z;
  nextDelim : Z;
  nextNewline : Z;
  quoteSearch : Z;
  fields : Row;             (* the loop's [row] *)
  rows : list Row;          (* the loop's [data] *)
  errs : list ParseError
}.

Definition returnable (st : State) : ParseResult :=
  {| data := rows st; errors := errs st |}.

(** [finish(value)]; [None] is the call without argument, which takes
    the rest of the input as the last field. *)
Definition finish (value : option jsstring) (st : State) : ParseResult :=
  let value := match value with
               | Some v => v
               | None => substringFrom input (cursor st)
               end in
  {| data := rows st ++ [fields st ++ [value]]; errors := errs st |}.

Definition quoteError (c m : string) (st : State) : ParseError :=
  {| type := lit "Quotes"; code := lit c; message := lit m;
     row := Some (Z.of_nat (length (rows st))) |}.

Definition previewReached (st : State) : bool :=
  negb (preview =? 0) && (preview <=? Z.of_nat (length (rows st))).

Definition extraSpaces (quoteSearch index : Z) : Z :=
  if index =? -1 then 0
  else
    let between := substring input (quoteSearch + 1) index in
    if truthy between && negb (truthy (trim between)) then len between
    else 0.

(** One iteration of the parser loop.  [quoted] tells whether control is
    in the inner loop, which looks for the closing quote of a quoted
    field, or in the outer one; [continue] stands for the following
    iterations. *)
Definition iteration (continue : bool -> State -> ParseResult)
           (quoted : bool) (st : State) : ParseResult :=
  if quoted then
    let qs := indexOf [QUOTE] input (quoteSearch st + 1) in
    let field := unescape (substring input (cursor st) qs) in
    if qs =? -1 then
      finish None
        {| cursor := cursor st; nextDelim := nextDelim st;
           nextNewline := nextNewline st; quoteSearch := qs;
           fields := fields st; rows := rows st;
           errs := errs st ++
             [quoteError "MissingQuotes" "Quoted field unterminated"
                         st] |}
    else if qs =? inputLen - 1 then finish (Some field) st
    else if charIs input (qs + 1) QUOTE then
      continue true
        {| cursor := cursor st; nextDelim := nextDelim st;
           nextNewline := nextNewline st; quoteSearch := qs + 1;
           fields := fields st; rows := rows st; errs := errs st |}
    else
      let nd := if negb (nextDelim st =? -1)
                   && (nextDelim st <? qs + 1)
                then indexOf delim input (qs + 1)
                else nextDelim st in
      let nn := if negb (nextNewline st =? -1)
                   && (nextNewline st <? qs + 1)
                then indexOf newline input (qs + 1)
                else nextNewline st in
      let checkUpTo := if nn =? -1 then nd else Z.min nd nn in
      let spD := extraSpaces qs checkUpTo in
      let spN := extraSpaces qs nn in
      if JS.eqb (substr input (qs + 1 + spD) delimLen) delim then
        let c := qs + 1 + spD + delimLen in
        continue false
          {| cursor := c;
             nextDelim := indexOf delim input c;
             nextNewline := indexOf newline input c;
             quoteSearch := if charIs input c QUOTE then qs
                            else indexOf [QUOTE] input c;
             fields := fields st ++ [field];
             rows := rows st; errs := errs st |}
      else if JS.eqb (substring input (qs + 1 + spN)
                                (qs + 1 + spN + newlineLen)) newline
      then
        let c := qs + 1 + spN + newlineLen in
        let st' :=
          {| cursor := c;
             nextDelim := indexOf delim input c;
             nextNewline := indexOf newline input c;
             quoteSearch := indexOf [QUOTE] input c;
             fields := [];
             rows := rows st ++ [fields st ++ [field]];
             errs := errs st |} in
        if previewReached st' then returnable st'
        else continue false st'
      else
        continue true
          {| cursor := cursor st; nextDelim := nd; nextNewline := nn;
             quoteSearch := qs + 1;
             fields := fields st; rows := rows st;
             errs := errs st ++
               [quoteError "InvalidQuotes"
                  "Trailing quote on quoted field is malformed" st] |}
  else if charIs input (cursor st) QUOTE then
    continue true
      {| cursor := cursor st + 1; nextDelim := nextDelim st;
         nextNewline := nextNewline st; quoteSearch := cursor st;
         fields := fields st; rows := rows st; errs := errs st |}
  else if negb (nextDelim st =? -1)
          && ((nextDelim st <? nextNewline st)
              || (nextNewline st =? -1)) then
    let c := nextDelim st + delimLen in
    continue false
      {| cursor := c;
         nextDelim := indexOf delim input c;
         nextNewline := nextNewline st;
         quoteSearch := quoteSearch st;
         fields := fields st
                     ++ [substring input (cursor st) (nextDelim st)];
         rows := rows st; errs := errs st |}
  else if negb (nextNewline st =? -1) then
    let c := nextNewline st + newlineLen in
    let st' :=
      {| cursor := c;
         nextDelim := nextDelim st;
         nextNewline := indexOf newline input c;
         quoteSearch := quoteSearch st;
         fields := [];
         rows := rows st
           ++ [fields st
                 ++ [substring input (cursor st) (nextNewline st)]];
         errs := errs st |} in
    if previewReached st' then returnable st'
    else continue false st'
  else finish None st.

(** The parser loop, for at most [fuel] iterations of its two loops. *)
Fixpoint run (fuel : nat) (quoted : bool) (st : State) : ParseResult :=
  match fuel with
  | O => finish None st
  | S fuel' => iteration (run fuel') quoted st
  end.

(** The fast path, for input without a quote: split at line breaks,
    then each line at the delimiter. *)
Fixpoint fastRows (lines : list jsstring) (i : Z) (acc : list Row)
  : list Row :=
  match lines with
  | [] => acc
  | line :: rest =>
      let acc := acc ++ [split delim line] in
      if negb (preview =? 0) && (preview <=? i)
      then slice acc 0 (Some preview)
      else fastRows rest (i + 1) acc
  end.

(** [Parser.parse(input)].  The loop gets [2 * |input| + 2] iterations,
    which is all it uses when the delimiter is one code unit (lemma
    [parser_fuel_enough]). *)
Definition parserParse : ParseResult :=
  if negb (truthy input) then {| data := []; errors := [] |}
  else if indexOf [QUOTE] input 0 =? -1 then
    {| data := fastRows (split newline input) 0 []; errors := [] |}
  else
    run (2 * length input + 2) false
      {| cursor := 0;
         nextDelim := indexOf delim input 0;
         nextNewline := indexOf newline input 0;
         quoteSearch := indexOf [QUOTE] input 0;
         fields := []; rows := []; errs := [] |}.

End Parser.

(** [testEmptyLine] under ['greedy']. *)
Definition testEmptyLine (r : Row) : bool :=
  negb (truthy (trim (join [] r))).

Definition undetectable : ParseError :=
  {| type := lit "Delimiter"; code := lit "UndetectableDelimiter";
     message := lit "Unable to auto-detect delimiting character; defaulted to ','";
     row := None |}.

(** [Papa.parse(input, config)] for a string. *)
Definition parse (guess : Guesser) (input : jsstring) (config : Config)
  : ParseResult :=
  let input := stripBom input in
  let newline := guessLineEndings input in
  let configured := match delimiter config with
                    | Some d => if truthy d then Some d else None
                    | None => None
                    end in
  let '(delim, delimiterError) :=
    match configured with
    | Some d => (d, false)
    | None =>
        match guess input newline (skipEmptyLines config) with
        | Some c => ([c], false)
        | None => (DefaultDelimiter, true)
        end
    end in
  let delim := if existsb (JS.eqb delim) BAD_DELIMITERS then [COMMA]
               else delim in
  let results := parserParse delim newline (preview config) input in
  let errors := if delimiterError then errors results ++ [undetectable]
                else errors results in
  let data := if skipEmptyLines config
              then filter (fun d => negb (testEmptyLine d)) (data results)
              else data results in
  {| data := data; errors := errors |}.

End Papa.

(** ** [src/utils/csvParser.ts] *)

Module CsvParser.

Record ParseError := {
  type : jsstring;
  code : jsstring;
  message : jsstring;
  row : option Z
}.

Record ParseResult := {
  data : list (list jsstring);
  headers : list jsstring;
  totalRows : Z;
  errors : list ParseError
}.

(** Every option may be left out. *)
Record ParseOptions := {
  delimiter : option jsstring;
  maxRows : option Z;
  skipEmptyLines : option bool
}.

Definition orDefault {A : Type} (o : option A) (d : A) : A :=
  match o with Some a => a | None => d end.

Definition parseCSV (guess : Papa.Guesser) (content : jsstring)
           (options : ParseOptions) : ParseResult :=
  let delimiter := delimiter options in
  let maxRows := orDefault (maxRows options) 10000 in
  let skipEmptyLines := orDefault (skipEmptyLines options) true in
  let parseResult :=
    Papa.parse guess content
      {| Papa.delimiter := delimiter;
         Papa.skipEmptyLines := skipEmptyLines;
         Papa.preview := if 0 <? maxRows then maxRows + 1 else 0 |} in
  let allRows := Papa.data parseResult in
  let headers := match allRows with
                 | first :: _ => first
                 | [] => []
                 end in
  let data := slice allRows 1 None in
  let errors :=
    map (fun err => {| type := Papa.type err; code := Papa.code err;
                       message := Papa.message err; row := Papa.row err |})
        (Papa.errors parseResult) in
  {| data := data; headers := headers;
     totalRows := Z.of_nat (length data); errors := errors |}.

(** [Math.floor] and [Math.max] on numbers. *)
Definition Math_floor (x : Number) : Number :=
  match JS.floor x with
  | Some z => match x with S754_zero _ => x | _ => ofZ z end
  | None => x
  end.

Definition Math_max (x y : Number) : Number :=
  match SFcompare x y with
  | None => S754_nan
  | Some Lt => y
  | Some Gt => x
  | Some Eq => match x with S754_zero true => y | _ => x end
  end.

Definition estimateRowCount (content : jsstring) : Number :=
  let sampleSize := Z.min (len content) 10000 in
  let sample := substring content 0 sampleSize in
  let newlinesInSample :=
    Z.of_nat (length (filter (N.eqb LF) sample)) in
  if newlinesInSample =? 0 then ofZ 1
  else
    let estimatedTotal :=
      Math_floor (mul (div (ofZ (len content)) (ofZ sampleSize))
                      (ofZ newlinesInSample)) in
    Math_max (ofZ 1) estimatedTotal.

Definition getSample (content : jsstring) (lines : Z) : jsstring :=
  let lineArray := slice (split [LF] content) 0 (Some lines) in
  join [LF] lineArray.

Record Validation := {
  valid : bool;
  reason : option jsstring     (* the [message] field *)
}.

Definition noHeaders : jsstring :=
  lit "CSV file appears to be empty or has no headers".
Definition noDataRows : jsstring :=
  lit "CSV file has headers but no data rows".
Definition inconsistentColumns (expectedColumns : Z) : jsstring :=
  lit "Many rows have inconsistent column counts. Expected "
    ++ ofInteger expectedColumns ++ lit " columns.".

Definition validateCSV (parseResult : ParseResult) : Validation :=
  if Z.of_nat (length (headers parseResult)) =? 0 then
    {| valid := false; reason := Some noHeaders |}
  else if Z.of_nat (length (data parseResult)) =? 0 then
    {| valid := false; reason := Some noDataRows |}
  else
    let expectedColumns := Z.of_nat (length (headers parseResult)) in
    let inconsistentRows :=
      filter (fun row => negb (Z.of_nat (length row) =? expectedColumns))
             (data parseResult) in
    if gt (ofZ (Z.of_nat (length inconsistentRows)))
          (mul (ofZ (Z.of_nat (length (data parseResult)))) oneTenth)
    then {| valid := false;
            reason := Some (inconsistentColumns expectedColumns) |}
    else {| valid := true; reason := None |}.

End CsvParser.

(** ** The editor provider: [loadCsvFile] and [loadMoreRows]

    The file system and the configuration are inputs: [size] is
    [stat.size], [textContent] the decoded file, [configDelimiter] and
    [maxRows] the settings [csv.delimiter] and [csv.previewRowCount],
    [fileName] the base name of the path.  The webview is the list of
    messages posted to it, oldest first. *)

Module Provider.

Import Delimiter CsvParser.

Record CsvData := {
  headers : list jsstring;
  rows : list (list jsstring);
  totalRows : Z;
  estimatedTotal : Number;
  delimiter : jsstring;
  fileName : jsstring;
  fileSize : Z;
  hasMore : bool
}.

Inductive Message :=
| csvData (d : CsvData)
| moreRows (rows : list (list jsstring)) (hasMore : bool)
| error (message : jsstring).

Definition Webview := list Message.

Definition postMessage (webview : Webview) (m : Message) : Webview :=
  webview ++ [m].

Definition showError (webview : Webview) (message : jsstring) : Webview :=
  postMessage webview (error message).

Definition maxFileSize : Z := 100 * 1024 * 1024.
Definition batchSize : Z := 5000.

(** [(size / 1024 / 1024).toFixed(2)] for a size below 2^53: both
    divisions are by a power of two, hence exact, and [toFixed] rounds the
    exact value to hundredths, a tie going up. *)
Definition mebibytesToFixed2 (size : Z) : jsstring :=
  let n := (200 * size + 2 ^ 20) / 2 ^ 21 in
  let cents := n mod 100 in
  ofInteger (n / 100) ++ lit "."
    ++ (if cents <? 10 then lit "0" else []) ++ ofInteger cents.

Definition loadCsvFile (guess : Papa.Guesser) (webview : Webview)
           (fileName : jsstring) (size : Z) (textContent : jsstring)
           (configDelimiter : jsstring) (maxRows : Z) : Webview :=
  if maxFileSize <? size then
    showError webview
      (lit "File is too large (" ++ mebibytesToFixed2 size
         ++ lit "MB). Maximum size is 100MB.")
  else if negb (truthy textContent) || (len (trim textContent) =? 0) then
    showError webview (lit "File is empty")
  else
    let sample := getSample textContent 10 in
    let delimiter := detectDelimiter sample configDelimiter in
    let parseResult :=
      parseCSV guess textContent
        {| CsvParser.delimiter := Some delimiter;
           CsvParser.maxRows := Some maxRows;
           CsvParser.skipEmptyLines := None |} in
    let validation := validateCSV parseResult in
    if negb (valid validation) then
      showError webview
        (match reason validation with
         | Some m => if truthy m then m else lit "Invalid CSV format"
         | None => lit "Invalid CSV format"
         end)
    else
      let estimatedTotal := estimateRowCount textContent in
      postMessage webview
        (csvData
           {| headers := CsvParser.headers parseResult;
              rows := CsvParser.data parseResult;
              totalRows := CsvParser.totalRows parseResult;
              estimatedTotal := estimatedTotal;
              delimiter := getDelimiterName delimiter;
              fileName := fileName;
              fileSize := size;
              hasMore := maxRows <=? CsvParser.totalRows parseResult |}).

Definition loadMoreRows (guess : Papa.Guesser) (webview : Webview)
           (textContent : jsstring) (configDelimiter : jsstring)
           (currentRows : Z) : Webview :=
  let sample := getSample textContent 10 in
  let delimiter := detectDelimiter sample configDelimiter in
  let parseResult :=
    parseCSV guess textContent
      {| CsvParser.delimiter := Some delimiter;
         CsvParser.maxRows := Some (currentRows + batchSize);
         CsvParser.skipEmptyLines := None |} in
  let newRows := slice (CsvParser.data parseResult) currentRows None in
  postMessage webview
    (moreRows newRows
       (currentRows + batchSize <=? CsvParser.totalRows parseResult)).

End Provider.

(** ** The webview script: [media/script.js]

    The state of the script is its three variables [csvData], [searchTerm]
    and [filteredRows]; the handlers below are their effect on it.  The
    calls that draw the table, the statistics line and the buttons do not
    touch these variables and are left out; the elements they address are
    taken to exist.  [toLowerCase] is [String.prototype.toLowerCase], a
    parameter. *)

Module View.

Import Provider.

Record State := {
  csvData : CsvData;
  searchTerm : jsstring;
  filteredRows : list (list jsstring)
}.

(** The state the script starts in. *)
Definition initial : State :=
  {| csvData := {| headers := []; rows := []; totalRows := 0;
                   estimatedTotal := S754_zero false; delimiter := [];
                   fileName := []; fileSize := 0; hasMore := false |};
     searchTerm := [];
     filteredRows := [] |}.

(** [s.includes(search)]. *)
Definition includes (s search : jsstring) : bool :=
  negb (indexOf search s 0 =? -1).

Section Handlers.

Variable toLowerCase : jsstring -> jsstring.

(** The test of the filter in [applySearch]: some non-empty cell holds the
    term, case put aside. *)
Definition rowMatches (lowerTerm : jsstring) (row : list jsstring) : bool :=
  existsb (fun cell => truthy cell && includes (toLowerCase cell) lowerTerm)
          row.

Definition applySearch (term : jsstring) (st : State) : State :=
  {| csvData := csvData st;
     searchTerm := searchTerm st;
     filteredRows :=
       if negb (truthy term) then rows (csvData st)
       else
         let lowerTerm := toLowerCase term in
         filter (rowMatches lowerTerm) (rows (csvData st)) |}.

(** [handleSearch], on the text of the search box. *)
Definition handleSearch (value : jsstring) (st : State) : State :=
  let searchTerm := trim value in
  applySearch searchTerm
    {| csvData := csvData st; searchTerm := searchTerm;
       filteredRows := filteredRows st |}.

Definition handleCsvData (data : CsvData) (st : State) : State :=
  {| csvData := data; searchTerm := []; filteredRows := rows data |}.

Definition handleMoreRows (newRows : list (list jsstring)) (more : bool)
           (st : State) : State :=
  let allRows := rows (csvData st) ++ newRows in
  let csvData :=
    {| headers := headers (csvData st);
       rows := allRows;
       totalRows := Z.of_nat (length allRows);
       estimatedTotal := estimatedTotal (csvData st);
       delimiter := delimiter (csvData st);
       fileName := fileName (csvData st);
       fileSize := fileSize (csvData st);
       hasMore := more |} in
  let st := {| csvData := csvData; searchTerm := searchTerm st;
               filteredRows := filteredRows st |} in
  if truthy (searchTerm st) then applySearch (searchTerm st) st
  else {| csvData := csvData; searchTerm := searchTerm st;
          filteredRows := allRows |}.

(** The listener for the provider's messages; an error message changes
    what is shown, not the state. *)
Definition receive (message : Message) (st : State) : State :=
  match message with
  | Provider.csvData data => handleCsvData data st
  | Provider.moreRows newRows more => handleMoreRows newRows more st
  | Provider.error _ => st
  end.

(** The events the script handles: a message from the provider, and
    input in the search box, with the text of the box. *)
Inductive Event :=
| message (m : Message)
| input (value : jsstring).

Definition handle (st : State) (ev : Event) : State :=
  match ev with
  | message m => receive m st
  | input value => handleSearch value st
  end.

(** A run of the script over a sequence of events. *)
Definition run (events : list Event) (st : State) : State :=
  fold_left handle events st.

End Handlers.

(** The row count the Load More button sends: [csvData.rows.length]. *)
Definition loadMoreRequest (st : State) : Z :=
  Z.of_nat (length (rows (csvData st))).

End View.

(** ** The table body the script renders

    [renderVirtualRows] and [createRowElement] of [media/script.js].  The
    body of the table is the list of its row elements.  A cell keeps its
    text, its column and whether the search term is marked in it; the
    markup of the marking ([highlightSearchTerm]) is left out.  The element
    [tableBody] is taken to exist; it is empty in the page the provider
    serves. *)

Module Screen.

Import Provider.

Record Cell := {
  fullText : jsstring;
  columnIndex : Z;
  marked : bool
}.

Record RowElement := {
  rowIndex : Z;
  rowNumber : Z;
  cells : list Cell
}.

Record State := {
  view : View.State;
  tableBody : list RowElement
}.

Definition initial : State := {| view := View.initial; tableBody := [] |}.

(** [array.map((x, i) => f(i, x))], counting from [i]. *)
Fixpoint mapFrom {A B : Type} (f : Z -> A -> B) (i : Z) (l : list A)
  : list B :=
  match l with
  | [] => []
  | x :: l' => f i x :: mapFrom f (i + 1) l'
  end.

Section Rendering.

Variable toLowerCase : jsstring -> jsstring.

Definition createRowElement (searchTerm : jsstring) (row : list jsstring)
           (rowIndex : Z) : RowElement :=
  {| rowIndex := rowIndex;
     rowNumber := rowIndex + 1;
     cells :=
       mapFrom
         (fun colIndex cell =>
            let cellText := if truthy cell then cell else [] in
            {| fullText := cellText;
               columnIndex := colIndex;
               marked :=
                 truthy searchTerm
                 && View.includes (toLowerCase cellText)
                                  (toLowerCase searchTerm) |})
         0 row |}.

(** The row elements of the loop of [renderVirtualRows]. *)
Definition rowElements (searchTerm : jsstring)
           (rows : list (list jsstring)) : list RowElement :=
  mapFrom (fun i row => createRowElement searchTerm row i) 0 rows.

(** [renderVirtualRows]: nothing is done when there is no row to render,
    else the body is replaced by the elements of the filtered rows. *)
Definition renderVirtualRows (st : State) : State :=
  if (length (View.filteredRows (view st)) =? 0)%nat then st
  else
    {| view := view st;
       tableBody := rowElements (View.searchTerm (view st))
                                (View.filteredRows (view st)) |}.

Definition applySearch (term : jsstring) (st : State) : State :=
  renderVirtualRows
    {| view := View.applySearch toLowerCase term (view st);
       tableBody := tableBody st |}.

Definition handleSearch (value : jsstring) (st : State) : State :=
  renderVirtualRows
    {| view := View.handleSearch toLowerCase value (view st);
       tableBody := tableBody st |}.

Definition handleCsvData (data : CsvData) (st : State) : State :=
  renderVirtualRows
    {| view := View.handleCsvData data (view st);
       tableBody := tableBody st |}.

(** [handleMoreRows] renders inside [applySearch] when a search is active,
    and once more after it. *)
Definition handleMoreRows (newRows : list (list jsstring)) (more : bool)
           (st : State) : State :=
  let st1 :=
    {| view := View.handleMoreRows toLowerCase newRows more (view st);
       tableBody := tableBody st |} in
  let st2 := if truthy (View.searchTerm (view st))
             then renderVirtualRows st1 else st1 in
  renderVirtualRows st2.

Definition receive (message : Message) (st : State) : State :=
  match message with
  | Provider.csvData data => handleCsvData data st
  | Provider.moreRows newRows more => handleMoreRows newRows more st
  | Provider.error _ => st
  end.

Definition handle (st : State) (ev : View.Event) : State :=
  match ev with
  | View.message m => receive m st
  | View.input value => handleSearch value st
  end.

Definition run (events : list View.Event) (st : State) : State :=
  fold_left handle events st.

End Rendering.

End Screen.

(** ** Notions used in the statements *)

Module Spec.

Import Delimiter CsvParser.

(** Blank text: empty or white space only. *)
Definition blank (s : jsstring) : Prop := trim s = [].

(** The score the detector gives a candidate over the analysed lines. *)
Definition scoreOf (lines : list jsstring) (delimiter : jsstring) : Z :=
  let counts := map (fun line => countDelimiterOccurrences line delimiter)
                    lines in
  match counts with
  | [] => 0
  | [only] => only
  | first :: _ =>
      if forallb (fun c => c =? first) counts && (0 <? first)
      then first * 100
      else if 0 <? first then first * 10 else 0
  end.

(** The estimate of the row count with the quotient and the product taken
    exactly: [max(1, floor((|text| / |sample|) * lineBreaks))]. *)
Definition estimateExact (content : jsstring) : Z :=
  let sampleSize := Z.min (len content) 10000 in
  let lineBreaks :=
    Z.of_nat (length (filter (N.eqb LF) (substring content 0 sampleSize))) in
  if lineBreaks =? 0 then 1
  else Z.max 1 ((len content * lineBreaks) / sampleSize).

(** A field text the round trip is stated for: free of the delimiter, of
    the quote and of line breaks, and not blank. *)
Definition plain (d : char) (s : jsstring) : Prop :=
  ~ In d s /\ ~ In QUOTE s /\ ~ In CR s /\ ~ In LF s /\ ~ blank s.

(** The number of data rows whose field count differs from the number of
    headers. *)
Definition inconsistent (table : ParseResult) : nat :=
  length (filter (fun row => negb (length row =? length (headers table))%nat)
                 (data table)).

(** The rows [Papa.parse] keeps of the parser's rows. *)
Definition kept (skipEmptyLines : bool) (rows : list Papa.Row)
  : list Papa.Row :=
  if skipEmptyLines
  then filter (fun d => negb (Papa.testEmptyLine d)) rows
  else rows.

(** Where the parser loop stands: a well-placed state has its cursor
    before the next delimiter and the next line break it has looked up;
    the potential bounds the iterations still to come. *)
Section Progress.

Variables (d : char) (newline input : jsstring).

Definition isBreak (i : Z) : bool := charIs input i CR || charIs input i LF.

Definition delimAhead (c nd : Z) : Prop :=
  nd = -1 \/ (c <= nd /\ charIs input nd d = true).

Definition newlineAhead (c nn : Z) : Prop :=
  nn = -1
  \/ (c <= nn /\ forall i, nn <= i < nn + len newline -> isBreak i = true).

Definition wellPlaced (quoted : bool) (st : Papa.State) : Prop :=
  if quoted then 0 <= Papa.quoteSearch st < len input
  else 0 <= Papa.cursor st
       /\ delimAhead (Papa.cursor st) (Papa.nextDelim st)
       /\ newlineAhead (Papa.cursor st) (Papa.nextNewline st).

Definition potential (quoted : bool) (st : Papa.State) : Z :=
  if quoted then 2 * (len input - Papa.quoteSearch st) + 1
  else 2 * (len input - Papa.cursor st) + 2.

End Progress.

(** The options the provider passes to [parseCSV]. *)
Definition capped (delimiter : jsstring) (maxRows : Z) : ParseOptions :=
  {| delimiter := Some delimiter; maxRows := Some maxRows;
     skipEmptyLines := None |}.

(** The table the provider parses for a text, a configured delimiter and
    a row cap. *)
Definition tableOf (guess : Papa.Guesser) (text configDelimiter : jsstring)
           (cap : Z) : ParseResult :=
  parseCSV guess text
    (capped (detectDelimiter (getSample text 10) configDelimiter) cap).


End Spec.

(** ** Tables of plain fields *)

Module Tables.

Import Spec.

(** The text of a table: the fields of a row joined by the delimiter,
    the rows by line feeds. *)
Definition render (d : char) (grid : list (list jsstring)) : jsstring :=
  join [LF] (map (join [d]) grid).

(** A field that needs no quoting: free of the delimiter, of the quote
    and of line breaks.  It may be empty. *)
Definition plainField (d : char) (s : jsstring) : Prop :=
  ~ In d s /\ ~ In QUOTE s /\ ~ In CR s /\ ~ In LF s.

(** A row of plain fields, at least one of them, that is not blank as a
    whole. *)
Definition plainRow (d : char) (row : list jsstring) : Prop :=
  row <> [] /\ Forall (plainField d) row /\ ~ blank (join [] row).

(** Every row has as many fields as the first one. *)
Definition rectangular (grid : list (list jsstring)) : Prop :=
  Forall (fun row => length row = length (hd [] grid)) grid.

End Tables.

(** ** The rows the view is to show *)

Module ViewSpec.

Import Provider.

Section Shown.

Variable toLowerCase : jsstring -> jsstring.

(** The rows a search term selects: all of them for the empty term, else
    those with a cell that holds the term, case put aside. *)
Definition shown (term : jsstring) (rows : list (list jsstring))
  : list (list jsstring) :=
  if truthy term
  then filter (View.rowMatches toLowerCase (toLowerCase term)) rows
  else rows.

(** The state agrees with itself: [totalRows] is the number of rows, and
    the filtered rows are the rows the search term selects. *)
Definition consistent (st : View.State) : Prop :=
  totalRows (View.csvData st)
  = Z.of_nat (length (rows (View.csvData st)))
  /\ View.filteredRows st
     = shown (View.searchTerm st) (rows (View.csvData st)).

End Shown.

End ViewSpec.

(** ** Sample inputs *)

Module Sample.

Definition noGuess : Papa.Guesser := fun _ _ _ => None.

Definition lines (l : list jsstring) : jsstring := join [LF] l.


(** The line with the fields [a,b], [c] and [d], quote, [e], the first
    and the last one quoted. *)
Definition quotedLine : jsstring :=
  [QUOTE] ++ lit "a,b" ++ [QUOTE] ++ lit ",c," ++ [QUOTE] ++ lit "d"
    ++ [QUOTE; QUOTE] ++ lit "e" ++ [QUOTE].

(** A header and five data rows. *)
Definition fiveRows : jsstring :=
  lines [lit "id"; lit "r0"; lit "r1"; lit "r2"; lit "r3"; lit "r4"].

(** Two lines on which the comma occurs once and the semicolon twice. *)
Definition commaAndSemicolons : jsstring :=
  lines [lit "a,b;c;d"; lit "1,2;3;4"].

(** Five empty lines, then two lines with one semicolon each. *)
Definition lateSemicolons : jsstring :=
  lines [[]; []; []; []; []; lit "a;b"; lit "1;2"].

(** 100 lines of 99 letters and a line break, then 1500 letters:
    11500 code units, 100 line breaks in the first 10000. *)
Definition longText : jsstring :=
  concat (repeat (repeat 97%N 99 ++ [LF]) 100)
    ++ repeat 97%N (Z.to_nat 1500).

(** 100000 code units with 9 line breaks among the first 10000. *)
Definition hundredThousand : jsstring :=
  concat (repeat (repeat 97%N 999 ++ [LF]) 9)
    ++ repeat 97%N (Z.to_nat 91000).




End Sample.

Import Delimiter CsvParser Provider Spec.

(** * Properties *)

(** Destructs the tests of one iteration of the parser loop. *)
Ltac branches :=
  repeat match goal with
         | |- context [if ?c then _ else _] => destruct c eqn:?
         end.

(** ** Arrays and strings *)

Lemma slice_from (A : Type) (l : list A) (k : Z) :
  0 <= k -> slice l k None = skipn (Z.to_nat k) l.
Proof.
  intros Hk. unfold slice, clampFromEnd.
  destruct (Z.ltb_spec k 0) as [?|_]; [lia|].
  destruct (Z.le_gt_cases k (Z.of_nat (length l))) as [Hle|Hgt].
  - rewrite Z.min_l by lia. apply firstn_all2.
    rewrite length_skipn. lia.
  - rewrite Z.min_r by lia. rewrite Z.sub_diag. simpl.
    symmetry. apply skipn_all2. lia.
Qed.

Lemma slice_tail (A : Type) (l : list A) : slice l 1 None = tl l.
Proof. rewrite slice_from by lia. destruct l; reflexivity. Qed.

Lemma trimStart_nil_iff (s : jsstring) :
  trimStart s = [] <-> Forall (fun c => isWhiteSpace c = true) s.
Proof.
  induction s as [|c s IH]; simpl.
  - split; auto.
  - destruct (isWhiteSpace c) eqn:E.
    + rewrite IH. split; intros H.
      * constructor; assumption.
      * inversion H; assumption.
    + split; intros H; [discriminate|].
      inversion H; congruence.
Qed.

Lemma trimStart_head (s t : jsstring) (c : char) :
  trimStart s = c :: t -> isWhiteSpace c = false.
Proof.
  induction s as [|d s IH]; simpl; [discriminate|].
  destruct (isWhiteSpace d) eqn:E; [exact IH|].
  intros H. injection H as -> _. exact E.
Qed.

(** Blank text is text of white space only. *)
Lemma blank_iff (s : jsstring) :
  blank s <-> Forall (fun c => isWhiteSpace c = true) s.
Proof.
  unfold blank, trim. split; intros H.
  - apply trimStart_nil_iff.
    destruct (trimStart s) as [|c t] eqn:Es; [reflexivity|exfalso].
    assert (Hr : trimStart (rev (c :: t)) = []).
    { destruct (trimStart (rev (c :: t))); [reflexivity|].
      simpl in H. apply app_eq_nil in H. destruct H; discriminate. }
    apply trimStart_nil_iff in Hr. rewrite Forall_forall in Hr.
    specialize (Hr c). rewrite <- in_rev in Hr.
    specialize (Hr (or_introl eq_refl)).
    apply trimStart_head in Es. congruence.
  - apply trimStart_nil_iff in H. rewrite H. reflexivity.
Qed.

Lemma slice_prefix (A : Type) (l : list A) (p : Z) :
  0 <= p -> slice l 0 (Some p) = firstn (Z.to_nat p) l.
Proof.
  intros Hp. unfold slice, clampFromEnd.
  destruct (Z.ltb_spec 0 0) as [?|_]; [lia|].
  destruct (Z.ltb_spec p 0) as [?|_]; [lia|].
  rewrite (Z.min_l 0) by lia. simpl skipn. rewrite Z.sub_0_r.
  destruct (Z.le_gt_cases p (Z.of_nat (length l))).
  - rewrite Z.min_l by lia. reflexivity.
  - rewrite Z.min_r by lia. rewrite Nat2Z.id.
    rewrite firstn_all. symmetry. apply firstn_all2. lia.
Qed.

(** ** The row cap of the parser *)

Section Preview.

Variables (delim newline input : jsstring).

Local Abbreviation run := (Papa.run delim newline).
Local Abbreviation fastRows := (Papa.fastRows delim).

(** Whatever the cap, a run keeps the rows it has and adds at least one. *)
Lemma run_extends (p : Z) (fuel : nat) :
  forall quoted st,
  exists more, Papa.data (run p input fuel quoted st) = Papa.rows st ++ more
               /\ more <> [].
Proof.
  induction fuel as [|fuel IH]; intros quoted st.
  - simpl. eexists; split; [reflexivity|discriminate].
  - cbn [Papa.run]. unfold Papa.iteration. cbv zeta. branches;
      try (cbn [Papa.finish Papa.returnable Papa.data Papa.rows];
           eexists; split; [reflexivity|];
           first [discriminate | apply not_eq_sym, app_cons_not_nil]);
      match goal with
      | |- context [run p input fuel ?q ?s] =>
          destruct (IH q s) as (more & E & Hne); rewrite E;
          cbn [Papa.rows]; try rewrite <- app_assoc;
          eexists; split; [reflexivity|]
      end;
      first [exact Hne | discriminate | apply not_eq_sym, app_cons_not_nil].
Qed.

Lemma previewReached_0 (st : Papa.State) :
  Papa.previewReached 0 st = false.
Proof. reflexivity. Qed.

Lemma firstn_exact (A : Type) (l more : list A) (n : nat) :
  length l = n -> firstn n (l ++ more) = l.
Proof.
  intros <-. rewrite firstn_app, Nat.sub_diag, firstn_all. simpl.
  apply app_nil_r.
Qed.

Lemma firstn_short (A : Type) (l more : list A) (n : nat) :
  (n <= length l)%nat -> firstn n (l ++ more) = firstn n l.
Proof.
  intros H. rewrite firstn_app.
  replace (n - length l)%nat with 0%nat by lia.
  rewrite firstn_O. apply app_nil_r.
Qed.

(** A capped run returns the first [p] rows of the uncapped run. *)
Lemma run_prefix (p : Z) (fuel : nat) :
  0 < p ->
  forall quoted st,
  Z.of_nat (length (Papa.rows st)) < p ->
  Papa.data (run p input fuel quoted st)
  = firstn (Z.to_nat p) (Papa.data (run 0 input fuel quoted st)).
Proof.
  intros Hp. induction fuel as [|fuel IH]; intros quoted st Hlen.
  - simpl. symmetry. apply firstn_all2.
    rewrite length_app. simpl. lia.
  - cbn [Papa.run]. unfold Papa.iteration. cbv zeta.
  rewrite !previewReached_0.
    branches;
      try (cbn [Papa.finish Papa.data Papa.rows];
           symmetry; apply firstn_all2; rewrite length_app; simpl; lia);
      try (apply IH; cbn [Papa.rows]; exact Hlen);
      match goal with
      | H : Papa.previewReached p ?s = _ |- _ =>
          unfold Papa.previewReached in H; cbn [Papa.rows] in H;
          rewrite length_app in H; simpl length in H;
          destruct (Z.eqb_spec p 0); [lia|]; cbn [negb andb] in H;
          rewrite ?Z.leb_le, ?Z.leb_gt in H
      end;
      first
        [ apply IH; cbn [Papa.rows]; rewrite length_app; simpl; lia
        | match goal with
          | |- context [run 0 input fuel ?q ?s] =>
              destruct (run_extends 0 fuel q s) as (more & E & _);
              rewrite E; cbn [Papa.returnable Papa.data Papa.rows];
              symmetry; apply firstn_exact; rewrite length_app; simpl; lia
          end ].
Qed.

(** With a cap the run does not reach, capped and uncapped run agree. *)
Lemma run_uncapped (p : Z) (fuel : nat) :
  forall quoted st,
  Z.of_nat (length (Papa.data (run 0 input fuel quoted st))) <= p ->
  run p input fuel quoted st = run 0 input fuel quoted st.
Proof.
  induction fuel as [|fuel IH]; intros quoted st; [reflexivity|].
  cbn [Papa.run]. unfold Papa.iteration. cbv zeta.
  rewrite !previewReached_0.
  branches; intros Hlen; try reflexivity; try (apply IH; exact Hlen);
    exfalso;
    match goal with
    | H : Papa.previewReached p ?s = true,
      L : context [run 0 input fuel ?q ?s] |- _ =>
        destruct (run_extends 0 fuel q s) as (more & E & Hne);
        rewrite E in L; unfold Papa.previewReached in H;
        destruct more; [congruence|];
        rewrite length_app in L; cbn [length Papa.rows] in L, H;
        apply andb_prop in H; destruct H as [_ H];
        rewrite Z.leb_le in H; lia
    end.
Qed.

(** The fast path: without cap every line gives a row; with a cap the
    first [p] of them are kept. *)
Lemma fastRows_uncapped (lines : list jsstring) :
  forall i acc,
  fastRows 0 lines i acc = acc ++ map (split delim) lines.
Proof.
  induction lines as [|line rest IH]; intros i acc; simpl.
  - symmetry. apply app_nil_r.
  - rewrite IH, <- app_assoc. reflexivity.
Qed.

Lemma fastRows_prefix (p : Z) (lines : list jsstring) :
  0 < p ->
  forall i acc,
  Z.of_nat (length acc) = i -> i <= p ->
  fastRows p lines i acc
  = firstn (Z.to_nat p) (acc ++ map (split delim) lines).
Proof.
  intros Hp. induction lines as [|line rest IH]; intros i acc Hi Hle.
  - simpl. rewrite app_nil_r. symmetry. apply firstn_all2. lia.
  - cbn [Papa.fastRows map].
    replace (acc ++ split delim line :: map (split delim) rest)
      with ((acc ++ [split delim line]) ++ map (split delim) rest)
      by (rewrite <- app_assoc; reflexivity).
    destruct (Z.eqb_spec p 0) as [?|_]; [lia|]. cbn [negb andb].
    destruct (Z.leb_spec p i).
    + rewrite slice_prefix by lia.
      symmetry. apply firstn_short. rewrite length_app. simpl. lia.
    + apply IH; [rewrite length_app; simpl; lia | lia].
Qed.

(** [Parser.parse]: the rows under a cap [p > 0] are the first [p] rows
    of the uncapped parse. *)
Lemma parserParse_prefix (p : Z) :
  0 < p ->
  Papa.data (Papa.parserParse delim newline p input)
  = firstn (Z.to_nat p)
           (Papa.data (Papa.parserParse delim newline 0 input)).
Proof.
  intros Hp. unfold Papa.parserParse.
  destruct (truthy input); cbn [negb];
    [|symmetry; apply firstn_nil].
  destruct (indexOf [QUOTE] input 0 =? -1); cbn [Papa.data].
  - rewrite fastRows_uncapped, (fastRows_prefix p) by (simpl; lia).
    reflexivity.
  - apply run_prefix; simpl; lia.
Qed.

(** A cap at least as large as the number of rows changes nothing. *)
Lemma parserParse_uncapped (p : Z) :
  Z.of_nat (length (Papa.data (Papa.parserParse delim newline 0 input))) <= p ->
  Papa.parserParse delim newline p input
  = Papa.parserParse delim newline 0 input.
Proof.
  unfold Papa.parserParse.
  destruct (truthy input); cbn [negb]; [|reflexivity].
  destruct (indexOf [QUOTE] input 0 =? -1); cbn [Papa.data].
  - intros Hlen. f_equal.
    destruct (Z.eq_dec p 0) as [->|Hne]; [reflexivity|].
    assert (Hp : 0 < p).
    { rewrite fastRows_uncapped in Hlen. simpl in Hlen. lia. }
    rewrite fastRows_uncapped in *.
    rewrite (fastRows_prefix p) by (simpl; lia).
    apply firstn_all2. lia.
  - apply run_uncapped.
Qed.

End Preview.

(** ** The fuel of the parser loop *)

Lemma startsWith_nth (pat : jsstring) :
  forall s, startsWith pat s = true ->
  forall i, (i < length pat)%nat -> nth_error s i = nth_error pat i.
Proof.
  induction pat as [|p pat IH]; intros s H i Hi; [simpl in Hi; lia|].
  destruct s as [|c s]; [discriminate|]. simpl in H.
  apply andb_prop in H. destruct H as [Hc Hs].
  apply N.eqb_eq in Hc. subst c.
  destruct i as [|i]; [reflexivity|]. simpl. apply IH; [exact Hs|].
  simpl in Hi. lia.
Qed.

Lemma startsWith_length (pat : jsstring) :
  forall s, startsWith pat s = true -> (length pat <= length s)%nat.
Proof.
  induction pat as [|p pat IH]; intros s H; [simpl; lia|].
  destruct s as [|c s]; [discriminate|]. simpl in H.
  apply andb_prop in H. destruct H as [_ Hs]. simpl.
  apply IH in Hs. lia.
Qed.

Lemma indexOf_go_range (pat : jsstring) :
  forall s pos r, indexOf_go pat s pos = r -> 0 <= pos ->
    r = -1 \/ (pos <= r /\ startsWith pat (skipn (Z.to_nat (r - pos)) s) = true
               /\ r - pos + len pat <= len s).
Proof.
  induction s as [|c s IH]; intros pos r H Hpos.
  - simpl in H. destruct pat as [|p pat]; [|left; congruence].
    right. subst r. rewrite Z.sub_diag. simpl. unfold len. simpl. lia.
  - cbn [indexOf_go] in H. destruct (startsWith pat (c :: s)) eqn:E.
    + right. subst r. rewrite Z.sub_diag. cbn [Z.to_nat skipn].
      split; [lia|]. split; [exact E|].
      apply startsWith_length in E. unfold len. lia.
    + apply IH in H; [|lia]. destruct H as [H|(H1 & H2 & H3)]; [left; exact H|].
      right. split; [lia|].
      replace (Z.to_nat (r - pos)) with (S (Z.to_nat (r - (pos + 1)))) by lia.
      cbn [skipn]. split; [exact H2|]. unfold len in *. simpl length. lia.
Qed.

(** [indexOf] either fails or returns a position at or after [from] where
    the pattern starts. *)
Lemma indexOf_range (pat s : jsstring) (from r : Z) :
  indexOf pat s from = r -> 0 <= from -> 0 < len pat ->
  r = -1 \/ (from <= r /\ startsWith pat (skipn (Z.to_nat r) s) = true
             /\ r + len pat <= len s).
Proof.
  unfold indexOf. intros H Hfrom Hpat.
  set (k := Z.max 0 (Z.min from (len s))) in *.
  assert (Hk : 0 <= k <= len s) by (unfold k, len; lia).
  apply indexOf_go_range in H; [|lia].
  destruct H as [H|(H1 & H2 & H3)]; [left; exact H|right].
  rewrite skipn_skipn in H2.
  replace (Z.to_nat (r - k) + Z.to_nat k)%nat with (Z.to_nat r) in H2 by lia.
  assert (Hl : len (skipn (Z.to_nat k) s) = len s - k).
  { unfold len in *. rewrite length_skipn. lia. }
  rewrite Hl in H3.
  split; [|split; [exact H2|lia]].
  destruct (Z.le_gt_cases from (len s)); [unfold k in H1; lia|].
  assert (len pat <= 0) by (unfold k in *; lia).
  unfold k in *. lia.
Qed.

Section Fuel.

Variables (d : char) (newline input : jsstring) (p : Z).
Hypothesis d_plain : ~ In d [CR; LF; QUOTE].
Hypothesis newline_std : In newline [[LF]; [CR]; [CR; LF]].

Lemma charIs_bounds (i : Z) (c : char) :
  charIs input i c = true -> 0 <= i < len input.
Proof.
  unfold charIs, charAt, len. destruct (Z.ltb_spec i 0); [discriminate|].
  destruct (nth_error input (Z.to_nat i)) eqn:E; [|discriminate].
  intros _. assert (Z.to_nat i < length input)%nat
    by (apply nth_error_Some; congruence). lia.
Qed.

Lemma charIs_of_nth (r : Z) (k : nat) (pat : jsstring) (c : char) :
  0 <= r -> startsWith pat (skipn (Z.to_nat r) input) = true ->
  nth_error pat k = Some c -> charIs input (r + Z.of_nat k) c = true.
Proof.
  intros Hr Hs Hk. unfold charIs, charAt.
  destruct (Z.ltb_spec (r + Z.of_nat k) 0); [lia|].
  assert (Hlt : (k < length pat)%nat) by (apply nth_error_Some; congruence).
  pose proof (startsWith_nth pat _ Hs k Hlt) as E.
  rewrite nth_error_skipn, Hk in E.
  replace (Z.to_nat (r + Z.of_nat k)) with (Z.to_nat r + k)%nat by lia.
  rewrite E. apply N.eqb_refl.
Qed.

Lemma delimAhead_indexOf (c : Z) :
  0 <= c -> delimAhead d input c (indexOf [d] input c).
Proof.
  intros Hc.
  destruct (indexOf_range [d] input c _ eq_refl Hc eq_refl)
    as [H|(H1 & H2 & _)]; [left; exact H|right].
  split; [exact H1|].
  assert (Hr : 0 <= indexOf [d] input c) by lia.
  pose proof (charIs_of_nth _ 0 [d] d Hr H2 eq_refl) as H.
  rewrite Z.add_0_r in H. exact H.
Qed.

Lemma newlineAhead_indexOf (c : Z) :
  0 <= c -> newlineAhead newline input c (indexOf newline input c).
Proof.
  intros Hc.
  assert (Hlen : 0 < len newline).
  { destruct newline_std as [<-|[<-|[<-|[]]]]; reflexivity. }
  destruct (indexOf_range newline input c _ eq_refl Hc Hlen)
    as [H|(H1 & H2 & _)]; [left; exact H|right].
  split; [exact H1|]. intros i Hi. unfold isBreak.
  set (r := indexOf newline input c) in *.
  replace i with (r + Z.of_nat (Z.to_nat (i - r))) by lia.
  destruct newline_std as [E|[E|[E|[]]]]; rewrite <- E in *;
    unfold len in Hi; simpl in Hi.
  - replace (Z.to_nat (i - r)) with 0%nat by lia.
    rewrite (charIs_of_nth r 0 [LF] LF) by (try reflexivity; lia || exact H2).
    apply orb_true_r.
  - replace (Z.to_nat (i - r)) with 0%nat by lia.
    rewrite (charIs_of_nth r 0 [CR] CR) by (try reflexivity; lia || exact H2).
    reflexivity.
  - destruct (Z.eq_dec i r) as [->|Hne].
    + replace (Z.to_nat (r - r)) with 0%nat by lia.
      rewrite (charIs_of_nth r 0 [CR; LF] CR)
        by (try reflexivity; lia || exact H2).
      reflexivity.
    + replace (Z.to_nat (i - r)) with 1%nat by lia.
      rewrite (charIs_of_nth r 1 [CR; LF] LF)
        by (try reflexivity; lia || exact H2).
      apply orb_true_r.
Qed.

Lemma extraSpaces_nonneg (qs index : Z) :
  0 <= Papa.extraSpaces input qs index.
Proof.
  unfold Papa.extraSpaces. destruct (index =? -1); [lia|].
  destruct (_ && _); [unfold len|]; lia.
Qed.

(** The delimiter is no line break: a delimiter at or after the start of
    a line break lies after the line break. *)
Lemma delim_after_break (nd nn : Z) :
  charIs input nd d = true -> nn <= nd ->
  (forall i, nn <= i < nn + len newline -> isBreak input i = true) ->
  nn + len newline <= nd.
Proof.
  intros Hd Hle Hb. destruct (Z.le_gt_cases (nn + len newline) nd) as [|Hgt];
    [assumption|exfalso].
  specialize (Hb nd ltac:(lia)). unfold isBreak in Hb.
  unfold charIs in *. destruct (charAt input nd) as [x|]; [|discriminate].
  apply N.eqb_eq in Hd. subst x.
  apply d_plain. apply orb_prop in Hb.
  destruct Hb as [H|H]; apply N.eqb_eq in H; rewrite H; simpl; tauto.
Qed.

Local Abbreviation wellPlaced' := (wellPlaced d newline input).
Local Abbreviation potential' := (potential input).

(** One iteration either ends the parse or hands over to a well-placed
    state of smaller potential. *)
Lemma iteration_progress (k1 k2 : bool -> Papa.State -> Papa.ParseResult)
      (quoted : bool) (st : Papa.State) :
  wellPlaced' quoted st ->
  (forall quoted' st',
      wellPlaced' quoted' st' ->
      potential' quoted' st' < potential' quoted st ->
      k1 quoted' st' = k2 quoted' st') ->
  Papa.iteration [d] newline p input k1 quoted st
  = Papa.iteration [d] newline p input k2 quoted st.
Proof.
  intros W H.
  assert (Hnl : 0 < len newline)
    by (destruct newline_std as [<-|[<-|[<-|[]]]]; reflexivity).
  unfold Papa.iteration. destruct quoted.
  - (* looking for the closing quote *)
    cbn [wellPlaced] in W.
    pose proof (indexOf_range [QUOTE] input (Papa.quoteSearch st + 1) _
                  eq_refl ltac:(lia) eq_refl) as Hqs.
    set (qs := indexOf [QUOTE] input (Papa.quoteSearch st + 1)) in *.
    cbv zeta.
    destruct (Z.eqb_spec qs (-1)) as [|Hq1]; [reflexivity|].
    destruct (Z.eqb_spec qs (len input - 1)) as [|Hq2]; [reflexivity|].
    destruct Hqs as [?|(Hq3 & _ & Hq4)]; [contradiction|].
    change (len [QUOTE]) with 1 in Hq4.
    destruct (charIs input (qs + 1) QUOTE).
    { apply H; cbn [wellPlaced potential Papa.quoteSearch]; lia. }
    match goal with
    | |- context [Papa.extraSpaces input qs ?i] =>
        pose proof (extraSpaces_nonneg qs i)
    end.
    pose proof (extraSpaces_nonneg qs
      (if negb (Papa.nextNewline st =? -1) && (Papa.nextNewline st <? qs + 1)
       then indexOf newline input (qs + 1) else Papa.nextNewline st)).
    destruct (JS.eqb _ [d]).
    { apply H; cbn [wellPlaced potential Papa.cursor Papa.nextDelim
                      Papa.nextNewline]; change (len [d]) with 1.
      - split; [lia|]. split;
          [apply delimAhead_indexOf|apply newlineAhead_indexOf]; lia.
      - lia. }
    destruct (JS.eqb _ newline).
    { destruct (Papa.previewReached _ _); [reflexivity|].
      apply H; cbn [wellPlaced potential Papa.cursor Papa.nextDelim
                      Papa.nextNewline].
      - split; [lia|]. split;
          [apply delimAhead_indexOf|apply newlineAhead_indexOf]; lia.
      - lia. }
    apply H; cbn [wellPlaced potential Papa.quoteSearch]; lia.
  - (* at the start of a field *)
    cbn [wellPlaced] in W. destruct W as (Hc & Wd & Wn).
    destruct (charIs input (Papa.cursor st) QUOTE) eqn:Eq.
    { apply charIs_bounds in Eq.
      apply H; cbn [wellPlaced potential Papa.quoteSearch]; lia. }
    destruct (Z.eqb_spec (Papa.nextDelim st) (-1)) as [Ed|Ed]; cbn [negb andb].
    + destruct (Z.eqb_spec (Papa.nextNewline st) (-1)) as [En|En];
        cbn [negb]; [reflexivity|].
      destruct Wn as [?|(Hn1 & Hn2)]; [contradiction|].
      destruct (Papa.previewReached _ _); [reflexivity|].
      apply H; cbn [wellPlaced potential Papa.cursor Papa.nextDelim
                      Papa.nextNewline].
      * split; [lia|]. split; [left; exact Ed|].
        apply newlineAhead_indexOf; lia.
      * lia.
    + destruct Wd as [?|(Hd1 & Hd2)]; [contradiction|].
      destruct ((Papa.nextDelim st <? Papa.nextNewline st)
                || (Papa.nextNewline st =? -1)) eqn:Eb.
      * apply H; cbn [wellPlaced potential Papa.cursor Papa.nextDelim
                        Papa.nextNewline]; change (len [d]) with 1.
        -- split; [lia|]. split; [apply delimAhead_indexOf; lia|].
           destruct Wn as [->|(Hn1 & Hn2)]; [left; reflexivity|right].
           split; [|exact Hn2].
           apply orb_prop in Eb. destruct Eb as [Eb|Eb].
           ++ apply Z.ltb_lt in Eb. lia.
           ++ apply Z.eqb_eq in Eb. exfalso.
              specialize (Hn2 (Papa.nextNewline st) ltac:(lia)).
              unfold isBreak in Hn2. rewrite Eb in Hn2. discriminate Hn2.
        -- lia.
      * apply orb_false_elim in Eb. destruct Eb as [Eb1 Eb2].
        apply Z.ltb_ge in Eb1. apply Z.eqb_neq in Eb2.
        destruct (Z.eqb_spec (Papa.nextNewline st) (-1)) as [?|_];
          [contradiction|]. cbn [negb].
        destruct Wn as [?|(Hn1 & Hn2)]; [contradiction|].
        destruct (Papa.previewReached _ _); [reflexivity|].
        apply H; cbn [wellPlaced potential Papa.cursor Papa.nextDelim
                        Papa.nextNewline].
        -- split; [lia|]. split; [|apply newlineAhead_indexOf; lia].
           right. split; [|exact Hd2].
           apply delim_after_break; assumption.
        -- lia.
Qed.

(** Fuel beyond the potential of a well-placed state is not used. *)
Lemma run_more_fuel (fuel : nat) :
  forall quoted st,
    wellPlaced' quoted st -> potential' quoted st <= Z.of_nat fuel ->
    Papa.run [d] newline p input fuel quoted st
    = Papa.run [d] newline p input (S fuel) quoted st.
Proof.
  induction fuel as [|fuel IH]; intros quoted st W Hp.
  - destruct quoted; cbn [wellPlaced potential] in W, Hp; [lia|].
    destruct W as (Hc & Wd & Wn).
    cbn [Papa.run]. unfold Papa.iteration.
    assert (Hq : charIs input (Papa.cursor st) QUOTE = false).
    { destruct (charIs input (Papa.cursor st) QUOTE) eqn:E; [|reflexivity].
      apply charIs_bounds in E. lia. }
    rewrite Hq.
    assert (Hd : Papa.nextDelim st = -1).
    { destruct Wd as [?|(H1 & H2)]; [assumption|].
      apply charIs_bounds in H2. lia. }
    assert (Hn : Papa.nextNewline st = -1).
    { destruct Wn as [?|(H1 & H2)]; [assumption|].
      assert (Hnl : 0 < len newline)
        by (destruct newline_std as [<-|[<-|[<-|[]]]]; reflexivity).
      specialize (H2 (Papa.nextNewline st) ltac:(lia)).
      unfold isBreak in H2. apply orb_prop in H2.
      destruct H2 as [H2|H2]; apply charIs_bounds in H2; lia. }
    rewrite Hd, Hn. reflexivity.
  - change (Papa.run [d] newline p input (S fuel) quoted st)
      with (Papa.iteration [d] newline p input
              (Papa.run [d] newline p input fuel) quoted st).
    change (Papa.run [d] newline p input (S (S fuel)) quoted st)
      with (Papa.iteration [d] newline p input
              (Papa.run [d] newline p input (S fuel)) quoted st).
    apply iteration_progress; [exact W|].
    intros quoted' st' W' Hlt. apply IH; [exact W'|lia].
Qed.

(** The fuel [Parser.parse] supplies is enough: more fuel gives the same
    result. *)
Lemma parser_fuel_enough (extra : nat) :
  let start :=
    {| Papa.cursor := 0;
       Papa.nextDelim := indexOf [d] input 0;
       Papa.nextNewline := indexOf newline input 0;
       Papa.quoteSearch := indexOf [QUOTE] input 0;
       Papa.fields := []; Papa.rows := []; Papa.errs := [] |} in
  Papa.run [d] newline p input (2 * length input + 2 + extra) false start
  = Papa.run [d] newline p input (2 * length input + 2) false start.
Proof.
  cbv zeta. induction extra as [|extra IH]; [f_equal; lia|].
  rewrite <- IH.
  replace (2 * length input + 2 + S extra)%nat
    with (S (2 * length input + 2 + extra)) by lia.
  symmetry. apply run_more_fuel.
  - cbn [wellPlaced Papa.cursor Papa.nextDelim Papa.nextNewline].
    split; [lia|]. split;
      [apply delimAhead_indexOf|apply newlineAhead_indexOf]; lia.
  - cbn [potential Papa.cursor]. unfold len. lia.
Qed.

End Fuel.

(** [Papa.parse] resolves delimiter and line break without looking at the
    cap, runs the parser under the cap and then drops the empty lines. *)
Lemma parse_factor (guess : Papa.Guesser) (input : jsstring)
      (del : option jsstring) (sk : bool) :
  exists d nl inp (derr : bool),
  forall p,
    Papa.parse guess input
      {| Papa.delimiter := del; Papa.skipEmptyLines := sk;
         Papa.preview := p |}
    = {| Papa.data := kept sk (Papa.data (Papa.parserParse d nl p inp));
         Papa.errors :=
           if derr
           then Papa.errors (Papa.parserParse d nl p inp)
                  ++ [Papa.undetectable]
           else Papa.errors (Papa.parserParse d nl p inp) |}.
Proof.
  unfold Papa.parse, kept. cbn [Papa.delimiter Papa.skipEmptyLines Papa.preview].
  match goal with
  | |- context [let '(a, b) := ?x in _] => destruct x as [d derr]
  end.
  do 4 eexists. intros p. reflexivity.
Qed.

Lemma kept_length (sk : bool) (rows : list Papa.Row) :
  (length (kept sk rows) <= length rows)%nat.
Proof.
  unfold kept. destruct sk; [apply filter_length_le|apply Nat.le_refl].
Qed.

Lemma filter_firstn_prefix (A : Type) (f : A -> bool) (l : list A) :
  forall n, exists k, filter f (firstn n l) = firstn k (filter f l).
Proof.
  induction l as [|a l IH]; intros [|n]; simpl;
    try (exists 0%nat; reflexivity).
  destruct (IH n) as (k & E). rewrite E.
  destruct (f a); [exists (S k)|exists k]; reflexivity.
Qed.

Lemma kept_firstn_prefix (sk : bool) (rows : list Papa.Row) (n : nat) :
  exists k, kept sk (firstn n rows) = firstn k (kept sk rows).
Proof.
  unfold kept. destruct sk; [apply filter_firstn_prefix|].
  exists n; reflexivity.
Qed.

(** Under a cap [p > 0] the parser delivers at most [p] records, and they
    are a prefix of the records delivered without cap. *)
Lemma parse_capped (guess : Papa.Guesser) (input : jsstring)
      (del : option jsstring) (sk : bool) (p : Z) :
  0 < p ->
  let capped := Papa.data (Papa.parse guess input
                  {| Papa.delimiter := del; Papa.skipEmptyLines := sk;
                     Papa.preview := p |}) in
  let all := Papa.data (Papa.parse guess input
               {| Papa.delimiter := del; Papa.skipEmptyLines := sk;
                  Papa.preview := 0 |}) in
  Z.of_nat (length capped) <= p /\ exists k, capped = firstn k all.
Proof.
  intros Hp. destruct (parse_factor guess input del sk)
    as (d & nl & inp & derr & E).
  cbv zeta. rewrite !E. cbn [Papa.data].
  rewrite parserParse_prefix by exact Hp. split.
  - pose proof (kept_length sk
      (firstn (Z.to_nat p) (Papa.data (Papa.parserParse d nl 0 inp)))) as H.
    pose proof (firstn_le_length (Z.to_nat p)
      (Papa.data (Papa.parserParse d nl 0 inp))). lia.
  - apply kept_firstn_prefix.
Qed.

(** A cap that is large enough is no cap. *)
Lemma parse_uncapped (guess : Papa.Guesser) (input : jsstring)
      (del : option jsstring) (sk : bool) :
  exists M, forall p, M <= p ->
    Papa.parse guess input
      {| Papa.delimiter := del; Papa.skipEmptyLines := sk;
         Papa.preview := p |}
    = Papa.parse guess input
        {| Papa.delimiter := del; Papa.skipEmptyLines := sk;
           Papa.preview := 0 |}.
Proof.
  destruct (parse_factor guess input del sk) as (d & nl & inp & derr & E).
  exists (Z.of_nat (length (Papa.data (Papa.parserParse d nl 0 inp)))).
  intros p Hp. rewrite !E, (parserParse_uncapped d nl inp p Hp).
  reflexivity.
Qed.

(** ** [parseCSV] *)

Lemma parseCSV_shape (guess : Papa.Guesser) (text : jsstring)
      (options : ParseOptions) :
  let cap := orDefault (maxRows options) 10000 in
  let records :=
    Papa.data (Papa.parse guess text
      {| Papa.delimiter := CsvParser.delimiter options;
         Papa.skipEmptyLines := orDefault (skipEmptyLines options) true;
         Papa.preview := if 0 <? cap then cap + 1 else 0 |}) in
  let table := parseCSV guess text options in
  CsvParser.headers table = hd [] records
  /\ CsvParser.data table = tl records
  /\ CsvParser.totalRows table = Z.of_nat (length (CsvParser.data table)).
Proof.
  cbv zeta. unfold parseCSV. cbn [CsvParser.headers CsvParser.data CsvParser.totalRows].
  rewrite slice_tail. repeat split.
Qed.

Lemma tl_firstn (A : Type) (l : list A) (k : nat) :
  tl (firstn k l) = firstn (pred k) (tl l).
Proof.
  destruct k as [|k]; destruct l as [|a l]; simpl; try reflexivity.
  destruct k; reflexivity.
Qed.

Lemma length_tl_le (A : Type) (l : list A) (n : Z) :
  Z.of_nat (length l) <= n + 1 -> 0 <= n -> Z.of_nat (length (tl l)) <= n.
Proof. destruct l; simpl; lia. Qed.

(** With a cap [maxRows > 0] the table has at most [maxRows] data rows. *)
Lemma parseCSV_cap (guess : Papa.Guesser) (text delim : jsstring) (cap : Z) :
  0 < cap ->
  Z.of_nat (length (CsvParser.data (parseCSV guess text (capped delim cap))))
  <= cap.
Proof.
  intros Hcap.
  destruct (parseCSV_shape guess text (capped delim cap)) as (_ & -> & _).
  cbn [capped maxRows skipEmptyLines CsvParser.delimiter orDefault].
  destruct (Z.ltb_spec 0 cap) as [_|?]; [|lia].
  apply length_tl_le; [|lia].
  apply (parse_capped guess text (Some delim) true (cap + 1)). lia.
Qed.

(** C2, as the code has it.  A cap of 0 makes [parseCSV] hand the parser
    the cap 0, which for the parser means no cap: the table is the one
    every large enough cap gives, the data rows under any positive cap
    are a prefix of its data rows, and a header with five rows below it
    yields all five rows. *)
Theorem parseCSV_zero_is_uncapped :
  forall (guess : Papa.Guesser) (text delim : jsstring),
    let whole := parseCSV guess text (capped delim 0) in
    (exists M, forall cap, M <= cap ->
        parseCSV guess text (capped delim cap) = whole)
    /\ (forall cap, 0 < cap ->
          exists k, CsvParser.data (parseCSV guess text (capped delim cap))
                    = firstn k (CsvParser.data whole))
    /\ CsvParser.data (parseCSV guess Sample.fiveRows (capped [COMMA] 0))
       = [[lit "r0"]; [lit "r1"]; [lit "r2"]; [lit "r3"]; [lit "r4"]].
Proof.
  intros guess text delim. cbv zeta. split; [|split].
  - destruct (parse_uncapped guess text (Some delim) true) as (M & HM).
    exists (Z.max M 1). intros cap Hcap.
    unfold parseCSV.
    cbn [capped maxRows skipEmptyLines CsvParser.delimiter orDefault].
    destruct (Z.ltb_spec 0 cap) as [_|?]; [|lia].
    rewrite (HM (cap + 1)) by lia. reflexivity.
  - intros cap Hcap.
    destruct (parseCSV_shape guess text (capped delim cap)) as (_ & -> & _).
    destruct (parseCSV_shape guess text (capped delim 0)) as (_ & -> & _).
    cbn [capped maxRows skipEmptyLines CsvParser.delimiter orDefault].
    destruct (Z.ltb_spec 0 cap) as [_|?]; [|lia]. cbn [Z.ltb Z.compare].
    destruct (parse_capped guess text (Some delim) true (cap + 1))
      as (_ & k & ->); [lia|].
    exists (pred k). apply tl_firstn.
  - vm_compute. reflexivity.
Qed.

(** C2 fails as stated: with the cap 0 the five rows below the header are
    all returned, not zero rows. *)
Lemma parseCSV_zero_cap_returns_rows :
  CsvParser.data (parseCSV Sample.noGuess Sample.fiveRows (capped [COMMA] 0))
  = [[lit "r0"]; [lit "r1"]; [lit "r2"]; [lit "r3"]; [lit "r4"]]
  /\ CsvParser.totalRows
       (parseCSV Sample.noGuess Sample.fiveRows (capped [COMMA] 0)) = 5.
Proof. vm_compute. split; reflexivity. Qed.

(** C5.  The quoted line splits at the comma into exactly the three fields
    [a,b], [c] and [d], quote, [e]; the detector counts two commas on it. *)
Theorem quoted_line_fields_and_count :
  forall guess : Papa.Guesser,
    Papa.data (Papa.parse guess Sample.quotedLine
                 {| Papa.delimiter := Some [COMMA];
                    Papa.skipEmptyLines := true; Papa.preview := 0 |})
    = [[lit "a,b"; lit "c"; lit "d" ++ [QUOTE] ++ lit "e"]]
    /\ CsvParser.headers
         (parseCSV guess Sample.quotedLine (capped [COMMA] 10000))
       = [lit "a,b"; lit "c"; lit "d" ++ [QUOTE] ++ lit "e"]
    /\ countDelimiterOccurrences Sample.quotedLine [COMMA] = 2.
Proof. intros guess. vm_compute. repeat split. Qed.

(** ** The provider *)

Lemma loadMoreRows_eq (guess : Papa.Guesser) (webview : Webview)
      (text configDelimiter : jsstring) (currentRows : Z) :
  0 <= currentRows ->
  let table := tableOf guess text configDelimiter (currentRows + 5000) in
  loadMoreRows guess webview text configDelimiter currentRows
  = webview
      ++ [moreRows (skipn (Z.to_nat currentRows) (CsvParser.data table))
                   (currentRows + 5000
                    <=? Z.of_nat (length (CsvParser.data table)))].
Proof.
  intros Hc. cbv zeta. unfold loadMoreRows, postMessage, tableOf, batchSize.
  fold (capped (detectDelimiter (getSample text 10) configDelimiter)
               (currentRows + 5000)).
  rewrite slice_from by exact Hc.
  destruct (parseCSV_shape guess text
              (capped (detectDelimiter (getSample text 10) configDelimiter)
                      (currentRows + 5000))) as (_ & _ & ->).
  reflexivity.
Qed.

(** C3, as the code has it.  The batch size is the constant 5000:
    [loadMoreRows] parses again with the cap [currentRows + 5000] and posts
    the parsed data rows from index [currentRows] on, at most 5000 of
    them, with [hasMore] true exactly when the number of parsed data rows
    is at least [currentRows + 5000]; with [currentRows = 2] on a file of
    five data rows it posts the rows at indices 2, 3 and 4 and
    [hasMore = false]. *)
Theorem loadMoreRows_fixed_batch :
  forall (guess : Papa.Guesser) (webview : Webview)
         (text configDelimiter : jsstring) (currentRows : Z),
    0 <= currentRows ->
    let table := tableOf guess text configDelimiter (currentRows + 5000) in
    let newRows := skipn (Z.to_nat currentRows) (CsvParser.data table) in
    loadMoreRows guess webview text configDelimiter currentRows
    = webview
        ++ [moreRows newRows
                     (currentRows + 5000
                      <=? Z.of_nat (length (CsvParser.data table)))]
    /\ Z.of_nat (length newRows) <= 5000
    /\ loadMoreRows guess [] Sample.fiveRows (lit "auto") 2
       = [moreRows [[lit "r2"]; [lit "r3"]; [lit "r4"]] false].
Proof.
  intros guess webview text configDelimiter currentRows Hc. cbv zeta.
  split; [apply loadMoreRows_eq, Hc|split].
  - rewrite length_skipn.
    pose proof (parseCSV_cap guess text
      (detectDelimiter (getSample text 10) configDelimiter)
      (currentRows + 5000)) as H.
    unfold tableOf. lia.
  - vm_compute. reflexivity.
Qed.

Lemma loadMoreRows_fixed_batch_witness :
  0 <= 2
  /\ loadMoreRows Sample.noGuess [] Sample.fiveRows (lit "auto") 2
     = [] ++ [moreRows
                (skipn (Z.to_nat 2)
                   (CsvParser.data
                      (tableOf Sample.noGuess Sample.fiveRows (lit "auto")
                               (2 + 5000))))
                (2 + 5000
                 <=? Z.of_nat
                       (length
                          (CsvParser.data
                             (tableOf Sample.noGuess Sample.fiveRows
                                      (lit "auto") (2 + 5000)))))].
Proof.
  split; [lia|].
  apply (loadMoreRows_fixed_batch Sample.noGuess [] Sample.fiveRows
           (lit "auto") 2).
  lia.
Defined.

(** C3 fails as stated: no batch size of 2 can be asked for; with
    [currentRows = 2] on a file of five data rows the reply holds three
    rows, not two, and [hasMore] is false, not true. *)
Lemma loadMoreRows_batch_of_two_refuted :
  loadMoreRows Sample.noGuess [] Sample.fiveRows (lit "auto") 2
  = [moreRows [[lit "r2"]; [lit "r3"]; [lit "r4"]] false]
  /\ loadMoreRows Sample.noGuess [] Sample.fiveRows (lit "auto") 2
     <> [moreRows [[lit "r2"]; [lit "r3"]] true].
Proof. split; [vm_compute; reflexivity|vm_compute; discriminate]. Qed.

(** C10.  When the data rows parsed under the cap [currentRows + 5000] are
    no more than [currentRows], [loadMoreRows] posts one reply, with no
    rows and [hasMore = false]: slicing past the end gives the empty
    list. *)
Theorem loadMoreRows_past_end :
  forall (guess : Papa.Guesser) (webview : Webview)
         (text configDelimiter : jsstring) (currentRows : Z),
    0 <= currentRows ->
    Z.of_nat (length (CsvParser.data
                (tableOf guess text configDelimiter (currentRows + 5000))))
    <= currentRows ->
    loadMoreRows guess webview text configDelimiter currentRows
    = webview ++ [moreRows [] false].
Proof.
  intros guess webview text configDelimiter currentRows Hc Hlen.
  rewrite loadMoreRows_eq by exact Hc. cbv zeta.
  rewrite skipn_all2 by lia.
  destruct (Z.leb_spec (currentRows + 5000)
              (Z.of_nat (length (CsvParser.data
                 (tableOf guess text configDelimiter (currentRows + 5000))))));
    [lia|reflexivity].
Qed.

Lemma loadMoreRows_past_end_witness :
  loadMoreRows Sample.noGuess [] Sample.fiveRows (lit "auto") 7
  = [] ++ [moreRows [] false].
Proof.
  apply (loadMoreRows_past_end Sample.noGuess [] Sample.fiveRows
           (lit "auto") 7).
  - lia.
  - vm_compute. discriminate.
Defined.

Lemma blank_dec (text : jsstring) :
  negb (truthy text) || (len (trim text) =? 0) = true <-> blank text.
Proof.
  unfold blank, len. split.
  - intros H. apply orb_prop in H. destruct H as [H|H].
    + destruct text; [reflexivity|discriminate].
    + apply Z.eqb_eq in H. destruct (trim text); [reflexivity|].
      simpl in H. lia.
  - intros ->. simpl. apply orb_true_r.
Qed.

(** C7.  For a file within the size limit, [loadCsvFile] posts exactly one
    message; it is an error message, with no table, exactly when the text
    is blank or the validator rejects the parsed table; otherwise it is
    the table. *)
Theorem loadCsvFile_error_iff :
  forall (guess : Papa.Guesser) (webview : Webview) (fileName : jsstring)
         (size : Z) (text configDelimiter : jsstring) (cap : Z),
    size <= maxFileSize ->
    let table := tableOf guess text configDelimiter cap in
    let posted :=
      loadCsvFile guess webview fileName size text configDelimiter cap in
    ((blank text \/ valid (validateCSV table) = false)
     <-> exists message, posted = webview ++ [error message])
    /\ (blank text -> posted = webview ++ [error (lit "File is empty")])
    /\ (~ (blank text \/ valid (validateCSV table) = false) ->
        exists d, posted = webview ++ [csvData d]
                  /\ Provider.headers d = CsvParser.headers table
                  /\ Provider.rows d = CsvParser.data table).
Proof.
  intros guess webview fileName size text configDelimiter cap Hsize.
  cbv zeta. unfold loadCsvFile, showError, postMessage.
  destruct (Z.ltb_spec maxFileSize size) as [?|_]; [lia|].
  fold (capped (detectDelimiter (getSample text 10) configDelimiter) cap).
  fold (tableOf guess text configDelimiter cap).
  pose proof (blank_dec text) as Hb.
  destruct (negb (truthy text) || (len (trim text) =? 0)).
  - assert (B : blank text) by (apply Hb; reflexivity).
    split; [|split].
    + split; [eauto|auto].
    + reflexivity.
    + intros H. exfalso. apply H. left. exact B.
  - assert (B : ~ blank text) by (intros B; apply Hb in B; discriminate).
    destruct (valid (validateCSV (tableOf guess text configDelimiter cap)))
      eqn:V; cbn [negb].
    + split; [|split].
      * split.
        -- intros [H|H]; [contradiction|discriminate].
        -- intros (message & H). apply app_inv_head in H. discriminate.
      * intros H. contradiction.
      * intros _. eexists. split; [reflexivity|]. split; reflexivity.
    + split; [|split].
      * split; [eauto|auto].
      * intros H. contradiction.
      * intros H. exfalso. apply H. right. reflexivity.
Qed.

Lemma loadCsvFile_error_iff_witness :
  10 <= maxFileSize
  /\ exists d,
       loadCsvFile Sample.noGuess [] (lit "t.csv") 10 Sample.fiveRows
                   (lit "auto") 3
       = [] ++ [csvData d]
       /\ Provider.headers d
          = CsvParser.headers
              (tableOf Sample.noGuess Sample.fiveRows (lit "auto") 3)
       /\ Provider.rows d
          = CsvParser.data
              (tableOf Sample.noGuess Sample.fiveRows (lit "auto") 3).
Proof.
  assert (H : 10 <= maxFileSize) by (vm_compute; discriminate).
  split; [exact H|].
  apply (loadCsvFile_error_iff Sample.noGuess [] (lit "t.csv") 10
           Sample.fiveRows (lit "auto") 3 H).
  vm_compute. intros [E|E]; discriminate.
Defined.

(** ** The delimiter detector *)

Lemma countFrom_ge (line delimiter : jsstring) :
  forall inQuotes count,
    count <= countFrom line delimiter inQuotes count.
Proof.
  assert (H : forall n line, (length line <= n)%nat ->
            forall inQuotes count,
              count <= countFrom line delimiter inQuotes count).
  { induction n as [|n IH]; intros [|c rest] Hlen inQuotes count;
      cbn [countFrom length] in *; try lia.
    destruct (N.eqb c QUOTE).
    - destruct rest as [|d rest'].
      + cbn [countFrom]. lia.
      + destruct (N.eqb d QUOTE); apply IH; cbn [length] in *; lia.
    - destruct (JS.eqb [c] delimiter && negb inQuotes).
      + etransitivity; [|apply IH; lia]. lia.
      + apply IH; lia. }
  intros. apply (H (length line)). apply Nat.le_refl.
Qed.

Lemma count_nonneg (line delimiter : jsstring) :
  0 <= countDelimiterOccurrences line delimiter.
Proof. apply countFrom_ge. Qed.

Lemma scoreOf_nonneg (lines : list jsstring) (delimiter : jsstring) :
  0 <= scoreOf lines delimiter.
Proof.
  unfold scoreOf. destruct lines as [|l1 [|l2 rest]]; cbn [map]; [lia| |].
  - apply count_nonneg.
  - pose proof (count_nonneg l1 delimiter).
    destruct (forallb _ _ && _); [lia|].
    destruct (0 <? _); lia.
Qed.

(** One pass of the scoring loop records the candidate's score. *)
Lemma scoreStep_eq (lines : list jsstring) (scores : ScoreMap)
      (delimiter : jsstring) :
  lines <> [] ->
  scoreStep lines scores delimiter
  = Map_set scores delimiter (scoreOf lines delimiter).
Proof.
  intros Hne. unfold scoreStep, scoreOf.
  destruct lines as [|l1 [|l2 rest]]; [congruence|reflexivity|].
  cbn [map length Nat.ltb Nat.leb nth].
  destruct (forallb _ _ && _); [reflexivity|].
  destruct (0 <? _); reflexivity.
Qed.

(** The detector on [auto]: the scores of the four candidates in their
    order, then the first strict maximum, starting from comma at 0. *)
Lemma detectDelimiter_auto (sample : jsstring) :
  let s := scoreOf (sampleLines sample) in
  detectDelimiter sample (lit "auto")
  = fst (fold_left pickStep
           [([COMMA], s [COMMA]); ([SEMICOLON], s [SEMICOLON]);
            ([TAB], s [TAB]); ([PIPE], s [PIPE])]
           ([COMMA], 0)).
Proof.
  cbv zeta. unfold detectDelimiter.
  change (negb (JS.eqb (lit "auto") (lit "auto"))) with false. cbv iota.
  destruct (sampleLines sample) as [|l ls] eqn:E.
  - reflexivity.
  - cbn [length Nat.eqb]. unfold delimiters. cbn [fold_left].
    rewrite !scoreStep_eq by discriminate. reflexivity.
Qed.

(** C4, as the code has it.  The lines analysed are the non-blank ones
    among the first five lines of the sample.  Over at least two lines a
    candidate whose count is the same [C > 0] on every line scores
    [C * 100], one whose first-line count [f] is positive but not matched
    by every line scores [f * 10], any other scores 0; a single line
    scores its count.  The detector
    returns the candidate with the highest score, the earliest one in the
    order comma, semicolon, tab, pipe among equals; so comma is returned
    when all scores are 0, and a candidate with a consistent nonzero count
    is returned exactly when its score beats every earlier candidate's and
    is not beaten by a later one's. *)
Theorem detectDelimiter_highest_score :
  forall sample : jsstring,
    let lines := sampleLines sample in
    let s := scoreOf lines in
    let best := detectDelimiter sample (lit "auto") in
    lines = filter (fun line => truthy (trim line))
                   (firstn 5 (split [LF] sample))
    /\ (forall d C,
          (2 <= length lines)%nat -> 0 < C ->
          (forall line, In line lines ->
                        countDelimiterOccurrences line d = C) ->
          s d = C * 100)
    /\ (forall d only,
          lines = [only] -> s d = countDelimiterOccurrences only d)
    /\ (forall d first rest,
          (2 <= length lines)%nat -> lines = first :: rest ->
          0 < countDelimiterOccurrences first d ->
          (exists line, In line rest
                        /\ countDelimiterOccurrences line d
                           <> countDelimiterOccurrences first d) ->
          s d = countDelimiterOccurrences first d * 10)
    /\ (best = [COMMA]
        <-> s [SEMICOLON] <= s [COMMA] /\ s [TAB] <= s [COMMA]
            /\ s [PIPE] <= s [COMMA])
    /\ (best = [SEMICOLON]
        <-> s [COMMA] < s [SEMICOLON] /\ s [TAB] <= s [SEMICOLON]
            /\ s [PIPE] <= s [SEMICOLON])
    /\ (best = [TAB]
        <-> s [COMMA] < s [TAB] /\ s [SEMICOLON] < s [TAB]
            /\ s [PIPE] <= s [TAB])
    /\ (best = [PIPE]
        <-> s [COMMA] < s [PIPE] /\ s [SEMICOLON] < s [PIPE]
            /\ s [TAB] < s [PIPE]).
Proof.
  intros sample. cbv zeta. split; [|split; [|split; [|split]]].
  - unfold sampleLines. rewrite slice_prefix by lia. reflexivity.
  - intros d C Hlen HC Hall. unfold scoreOf.
    destruct (sampleLines sample) as [|l1 [|l2 rest]];
      [simpl in Hlen; lia|simpl in Hlen; lia|].
    cbn [map].
    assert (Hsame : forallb
              (fun c => c =? countDelimiterOccurrences l1 d)
              (map (fun line => countDelimiterOccurrences line d)
                   (l1 :: l2 :: rest)) = true).
    { apply forallb_forall. intros c Hc. apply in_map_iff in Hc.
      destruct Hc as (line & <- & Hin).
      rewrite (Hall line Hin), (Hall l1) by (left; reflexivity).
      apply Z.eqb_refl. }
    cbn [map] in Hsame. rewrite Hsame.
    rewrite (Hall l1) by (left; reflexivity).
    destruct (Z.ltb_spec 0 C); [reflexivity|lia].
  - intros d only Hl. rewrite Hl. reflexivity.
  - intros d first rest Hlen Hl Hpos (line & Hin & Hne). unfold scoreOf.
    rewrite Hl in *. destruct rest as [|l2 rest]; [destruct Hin|].
    cbn [map].
    assert (Hdiff : forallb
              (fun c => c =? countDelimiterOccurrences first d)
              (map (fun line => countDelimiterOccurrences line d)
                   (first :: l2 :: rest)) = false).
    { apply not_true_is_false. intros Hall.
      rewrite forallb_forall in Hall.
      specialize (Hall (countDelimiterOccurrences line d)).
      rewrite Z.eqb_eq in Hall. apply Hne, Hall.
      apply (in_map (fun l => countDelimiterOccurrences l d)
                    (first :: l2 :: rest) line).
      right. exact Hin. }
    cbn [map] in Hdiff. rewrite Hdiff. cbn [andb].
    destruct (Z.ltb_spec 0 (countDelimiterOccurrences first d));
      [reflexivity|lia].
  - rewrite detectDelimiter_auto. cbv zeta.
    pose proof (scoreOf_nonneg (sampleLines sample) [COMMA]).
    pose proof (scoreOf_nonneg (sampleLines sample) [SEMICOLON]).
    pose proof (scoreOf_nonneg (sampleLines sample) [TAB]).
    pose proof (scoreOf_nonneg (sampleLines sample) [PIPE]).
    generalize dependent (scoreOf (sampleLines sample) [COMMA]).
    generalize dependent (scoreOf (sampleLines sample) [SEMICOLON]).
    generalize dependent (scoreOf (sampleLines sample) [TAB]).
    generalize dependent (scoreOf (sampleLines sample) [PIPE]).
    intros s3 H3 s2 H2 s1 H1 s0 H0.
    cbn [fold_left]. unfold pickStep.
    repeat (match goal with
            | |- context [?a <? ?b] => destruct (Z.ltb_spec a b)
            end; cbv beta iota);
      cbn [fst]; repeat split; intros;
      repeat match goal with H : _ /\ _ |- _ => destruct H end;
      first [discriminate | reflexivity | lia | exfalso; lia].
Qed.

(** C4 fails as stated: on these two lines the comma occurs once on each,
    a consistent nonzero count, and the detector returns the semicolon,
    which occurs twice on each; and when five empty lines come first, the
    two non-blank lines after them, with one semicolon each, are not
    looked at and the comma is returned. *)
Lemma detectDelimiter_consistent_comma_loses :
  sampleLines Sample.commaAndSemicolons
  = [lit "a,b;c;d"; lit "1,2;3;4"]
  /\ countDelimiterOccurrences (lit "a,b;c;d") [COMMA] = 1
  /\ countDelimiterOccurrences (lit "1,2;3;4") [COMMA] = 1
  /\ detectDelimiter Sample.commaAndSemicolons (lit "auto") = [SEMICOLON]
  /\ detectDelimiter Sample.commaAndSemicolons (lit "auto") <> [COMMA]
  /\ filter (fun line => truthy (trim line))
            (split [LF] Sample.lateSemicolons)
     = [lit "a;b"; lit "1;2"]
  /\ countDelimiterOccurrences (lit "a;b") [SEMICOLON] = 1
  /\ countDelimiterOccurrences (lit "1;2") [SEMICOLON] = 1
  /\ detectDelimiter Sample.lateSemicolons (lit "auto") = [COMMA].
Proof. vm_compute. repeat split. discriminate. Qed.

Lemma detectDelimiter_highest_score_witness :
  scoreOf (sampleLines Sample.commaAndSemicolons) [SEMICOLON] = 2 * 100.
Proof.
  apply (proj1 (proj2 (detectDelimiter_highest_score
                         Sample.commaAndSemicolons))).
  - vm_compute. lia.
  - lia.
  - intros line [<-|[<-|[]]]; vm_compute; reflexivity.
Defined.

Lemma parseCSV_zero_is_uncapped_witness :
  exists k,
    CsvParser.data (parseCSV Sample.noGuess Sample.fiveRows
                             (capped [COMMA] 2))
    = firstn k (CsvParser.data (parseCSV Sample.noGuess Sample.fiveRows
                                         (capped [COMMA] 0))).
Proof.
  apply (proj1 (proj2 (parseCSV_zero_is_uncapped
                         Sample.noGuess Sample.fiveRows [COMMA])) 2).
  lia.
Defined.

(** ** Quote-free text: the round trip of a single field *)

Lemma startsWith_single (c x : char) (s : jsstring) :
  startsWith [c] (x :: s) = N.eqb c x.
Proof. simpl. apply andb_true_r. Qed.

Lemma indexOf_go_absent (c : char) (s : jsstring) :
  ~ In c s -> forall pos, indexOf_go [c] s pos = -1.
Proof.
  induction s as [|x s IH]; intros Hn pos; [reflexivity|].
  cbn [indexOf_go]. rewrite startsWith_single.
  destruct (N.eqb_spec c x) as [->|_].
  - exfalso. apply Hn. left. reflexivity.
  - apply IH. intros H. apply Hn. right. exact H.
Qed.

Lemma indexOf_absent (c : char) (s : jsstring) :
  ~ In c s -> indexOf [c] s 0 = -1.
Proof.
  intros Hn. unfold indexOf, len.
  rewrite Z.min_l by lia. rewrite Z.max_id. simpl skipn.
  apply indexOf_go_absent, Hn.
Qed.

Lemma dropQuoted_plain (s : jsstring) :
  ~ In QUOTE s -> Papa.dropQuoted s None = s.
Proof.
  induction s as [|x s IH]; intros Hn; [reflexivity|].
  cbn [Papa.dropQuoted]. destruct (N.eqb_spec x QUOTE) as [->|_].
  - exfalso. apply Hn. left. reflexivity.
  - f_equal. apply IH. intros H. apply Hn. right. exact H.
Qed.

(** Splitting at a code unit that does not occur leaves one piece. *)
Lemma split_go_absent (c : char) (s : jsstring) :
  ~ In c s -> forall cur, split_go [c] s O cur = [cur ++ s].
Proof.
  induction s as [|x s IH]; intros Hn cur.
  - simpl. rewrite app_nil_r. reflexivity.
  - cbn [split_go]. rewrite startsWith_single.
    destruct (N.eqb_spec c x) as [->|_].
    + exfalso. apply Hn. left. reflexivity.
    + rewrite IH by (intros H; apply Hn; right; exact H).
      rewrite <- app_assoc. reflexivity.
Qed.

Lemma split_absent (c : char) (s : jsstring) :
  ~ In c s -> split [c] s = [s].
Proof. intros Hn. apply (split_go_absent c s Hn []). Qed.

(** Splitting a text at its only occurrence of a code unit. *)
Lemma split_go_once (c : char) (a b : jsstring) :
  ~ In c a -> ~ In c b ->
  forall cur, split_go [c] (a ++ c :: b) O cur = [cur ++ a; b].
Proof.
  intros Ha Hb. induction a as [|x a IH]; intros cur.
  - cbn [app split_go]. rewrite startsWith_single, N.eqb_refl.
    rewrite app_nil_r. cbn [length pred].
    rewrite (split_go_absent c b Hb []). reflexivity.
  - cbn [app split_go]. rewrite startsWith_single.
    destruct (N.eqb_spec c x) as [->|_].
    + exfalso. apply Ha. left. reflexivity.
    + rewrite IH by (intros H; apply Ha; right; exact H).
      rewrite <- app_assoc. reflexivity.
Qed.

Lemma split_once (c : char) (a b : jsstring) :
  ~ In c a -> ~ In c b -> split [c] (a ++ c :: b) = [a; b].
Proof. intros Ha Hb. apply (split_go_once c a b Ha Hb []). Qed.

Lemma In_substring (s : jsstring) (a b : Z) (x : char) :
  In x (substring s a b) -> In x s.
Proof.
  unfold substring. intros H.
  set (n := Z.to_nat _) in H. set (lo := Z.to_nat _) in H.
  rewrite <- (firstn_skipn lo s). apply in_or_app. right.
  rewrite <- (firstn_skipn n (skipn lo s)). apply in_or_app. left. exact H.
Qed.

(** Without quote and carriage return the line break is guessed as LF. *)
Lemma guessLineEndings_LF (input : jsstring) :
  ~ In QUOTE input -> ~ In CR input ->
  Papa.guessLineEndings input = [LF].
Proof.
  intros Hq Hr. unfold Papa.guessLineEndings.
  set (head := substring input 0 (1024 * 1024)).
  assert (Hq' : ~ In QUOTE head)
    by (intros H; apply Hq, (In_substring _ _ _ _ H)).
  assert (Hr' : ~ In CR head)
    by (intros H; apply Hr, (In_substring _ _ _ _ H)).
  rewrite (dropQuoted_plain head Hq'), (split_absent CR head Hr').
  reflexivity.
Qed.

Lemma not_blank_truthy (s : jsstring) :
  ~ blank s -> truthy (trim s) = true.
Proof.
  unfold blank. intros H. destruct (trim s); [congruence|reflexivity].
Qed.

Lemma not_blank_cons (c : char) (s : jsstring) :
  ~ blank (c :: s) -> isWhiteSpace c = true -> ~ blank s.
Proof.
  intros H Hc B. apply H. apply blank_iff. constructor; [exact Hc|].
  apply blank_iff, B.
Qed.

(** Dropping a byte-order mark in front keeps a plain text plain. *)
Lemma plain_stripBom (d : char) (s : jsstring) :
  plain d s -> plain d (Papa.stripBom s).
Proof.
  unfold plain, Papa.stripBom. intros (Hd & Hq & Hr & Hn & Hb).
  destruct s as [|c s]; [tauto|].
  destruct (N.eqb_spec c BYTE_ORDER_MARK) as [->|_]; [|tauto].
  pose proof (not_blank_cons _ _ Hb eq_refl) as Hb'.
  repeat split; try exact Hb'; intros H; simpl in *; tauto.
Qed.

Lemma not_blank_nonempty (s : jsstring) : ~ blank s -> s <> [].
Proof. intros H ->. apply H. reflexivity. Qed.

Lemma stripBom_app (a b : jsstring) :
  a <> [] -> Papa.stripBom (a ++ b) = Papa.stripBom a ++ b.
Proof.
  destruct a as [|c a]; [congruence|]. intros _. simpl.
  destruct (N.eqb c BYTE_ORDER_MARK); reflexivity.
Qed.

(** The parser on a plain header line over a plain value line. *)
Lemma parse_two_plain_lines (guess : Papa.Guesser) (d : char)
      (header value : jsstring) (p : Z) :
  ~ In d [CR; LF; QUOTE; BYTE_ORDER_MARK] ->
  plain d header -> plain d value -> p = 0 \/ 2 <= p ->
  Papa.data (Papa.parse guess (header ++ [LF] ++ value)
               {| Papa.delimiter := Some [d]; Papa.skipEmptyLines := true;
                  Papa.preview := p |})
  = [[Papa.stripBom header]; [value]].
Proof.
  intros Hbad Hh Hv Hp.
  pose proof (plain_stripBom d header Hh) as Hh'.
  destruct Hh as (_ & _ & _ & _ & Hhb).
  unfold Papa.parse.
  cbn [Papa.delimiter Papa.skipEmptyLines Papa.preview truthy].
  rewrite stripBom_app by (apply not_blank_nonempty, Hhb).
  set (h := Papa.stripBom header) in *.
  destruct Hh' as (Hhd & Hhq & Hhr & Hhn & Hhb').
  destruct Hv as (Hvd & Hvq & Hvr & Hvn & Hvb).
  assert (Hq : ~ In QUOTE (h ++ [LF] ++ value)).
  { intros H. apply in_app_or in H. destruct H as [H|[H|H]];
      [tauto|discriminate H|tauto]. }
  assert (Hr : ~ In CR (h ++ [LF] ++ value)).
  { intros H. apply in_app_or in H. destruct H as [H|[H|H]];
      [tauto|discriminate H|tauto]. }
  rewrite (guessLineEndings_LF _ Hq Hr).
  assert (Hdelim : existsb (JS.eqb [d]) Papa.BAD_DELIMITERS = false).
  { unfold Papa.BAD_DELIMITERS. cbn [existsb JS.eqb].
    rewrite !andb_true_r.
    repeat match goal with
           | |- context [N.eqb d ?c] =>
               destruct (N.eqb_spec d c) as [->|_];
               [exfalso; apply Hbad; simpl; tauto|]
           end.
    reflexivity. }
  rewrite Hdelim. unfold Papa.parserParse.
  assert (Hne : truthy (h ++ [LF] ++ value) = true).
  { destruct h; [exfalso; apply Hhb'; reflexivity|reflexivity]. }
  rewrite Hne, (indexOf_absent QUOTE _ Hq).
  change (-1 =? -1) with true. cbn [negb Papa.data].
  change (h ++ [LF] ++ value) with (h ++ LF :: value).
  rewrite (split_once LF h value Hhn Hvn).
  cbn [Papa.fastRows app].
  rewrite (split_absent d h Hhd), (split_absent d value Hvd).
  assert (Hcap : negb (p =? 0) && (p <=? 0) = false
                 /\ negb (p =? 0) && (p <=? 0 + 1) = false).
  { destruct Hp as [->|Hp]; [split; reflexivity|].
    destruct (Z.leb_spec p 0); [lia|].
    destruct (Z.leb_spec p (0 + 1)); [lia|].
    rewrite !andb_false_r. split; reflexivity. }
  destruct Hcap as (-> & ->).
  cbn [filter]. unfold Papa.testEmptyLine. cbn [join].
  rewrite (not_blank_truthy h Hhb'), (not_blank_truthy value Hvb).
  reflexivity.
Qed.

(** C9, as the code has it.  For a delimiter other than CR, LF, the quote
    and the byte-order mark (which the parser replaces by the comma), a
    header and a value that contain neither the delimiter nor the quote
    nor a line break and are not blank, and any cap: parsing the header
    line followed by the value line gives exactly one data row whose
    single field is the value. *)
Theorem single_field_round_trip :
  forall (guess : Papa.Guesser) (d : char) (header value : jsstring)
         (cap : Z),
    ~ In d [CR; LF; QUOTE; BYTE_ORDER_MARK] ->
    plain d header -> plain d value ->
    CsvParser.data (parseCSV guess (header ++ [LF] ++ value) (capped [d] cap))
    = [[value]].
Proof.
  intros guess d header value cap Hbad Hh Hv.
  destruct (parseCSV_shape guess (header ++ [LF] ++ value) (capped [d] cap))
    as (_ & -> & _).
  cbn [capped maxRows skipEmptyLines CsvParser.delimiter orDefault].
  rewrite (parse_two_plain_lines guess d header value _ Hbad Hh Hv);
    [reflexivity|].
  destruct (Z.ltb_spec 0 cap); [right; lia|left; reflexivity].
Qed.

Lemma single_field_round_trip_witness :
  CsvParser.data (parseCSV Sample.noGuess (lit "name" ++ [LF] ++ lit "alice")
                           (capped [COMMA] 10))
  = [[lit "alice"]].
Proof.
  apply (single_field_round_trip Sample.noGuess COMMA (lit "name")
           (lit "alice") 10).
  - vm_compute. intuition discriminate.
  - unfold plain, blank. vm_compute. intuition discriminate.
  - unfold plain, blank. vm_compute. intuition discriminate.
Defined.

(** C9 fails as stated: an empty value and a value of one space contain
    neither delimiter nor quote nor line break, and their line is dropped
    as an empty line, so no data row comes back; and under the quote as
    delimiter, which the parser replaces by the comma, the value [a,b]
    comes back as two fields. *)
Lemma single_field_round_trip_refuted :
  CsvParser.data (parseCSV Sample.noGuess (lit "name" ++ [LF] ++ [])
                           (capped [COMMA] 10)) = []
  /\ CsvParser.data (parseCSV Sample.noGuess (lit "name" ++ [LF] ++ lit " ")
                              (capped [COMMA] 10)) = []
  /\ CsvParser.data (parseCSV Sample.noGuess (lit "name" ++ [LF] ++ lit "a,b")
                              (capped [QUOTE] 10))
     = [[lit "a"; lit "b"]].
Proof. vm_compute. repeat split. Qed.

(** ** Numbers: binary64 rounding *)

Lemma digits2_size (p : positive) : digits2_pos p = Pos.size p.
Proof. induction p; simpl; congruence. Qed.

(** The number of binary digits of a positive number. *)
Lemma digits2_bounds (p : positive) :
  2 ^ (Z.pos (digits2_pos p) - 1) <= Z.pos p < 2 ^ Z.pos (digits2_pos p).
Proof.
  rewrite digits2_size. split.
  - pose proof (Pos.size_le p) as H.
    assert (H' : 2 ^ Z.pos (Pos.size p) <= 2 * Z.pos p).
    { change (2 * Z.pos p) with (Z.pos p~0). rewrite <- Pos2Z.inj_pow.
      apply Pos2Z.pos_le_pos. exact H. }
    replace (Z.pos (Pos.size p)) with (Z.pos (Pos.size p) - 1 + 1) in H'
      by lia.
    rewrite Z.pow_add_r in H' by lia. lia.
  - pose proof (Pos.size_gt p) as H.
    rewrite <- Pos2Z.inj_pow. apply Pos2Z.pos_lt_pos. exact H.
Qed.

Lemma digits2_unique (p : positive) (d : Z) :
  2 ^ (d - 1) <= Z.pos p < 2 ^ d -> Z.pos (digits2_pos p) = d.
Proof.
  intros [Hlo Hhi]. pose proof (digits2_bounds p) as [Blo Bhi].
  assert (Hd : 0 < d).
  { destruct (Z.ltb_spec 0 d); [assumption|].
    destruct (Z.eq_dec d 0) as [->|];
      [simpl in Hhi; lia|rewrite Z.pow_neg_r in Hhi by lia; lia]. }
  destruct (Z.lt_trichotomy (Z.pos (digits2_pos p)) d) as [H|[H|H]];
    [exfalso|assumption|exfalso].
  - assert (2 ^ Z.pos (digits2_pos p) <= 2 ^ (d - 1))
      by (apply Z.pow_le_mono_r; lia). lia.
  - assert (2 ^ d <= 2 ^ (Z.pos (digits2_pos p) - 1))
      by (apply Z.pow_le_mono_r; lia). lia.
Qed.

(** Shifting right drops the low bits of the mantissa. *)
Lemma shr_1_m (mrs : shr_record) :
  0 <= shr_m mrs -> shr_m (shr_1 mrs) = shr_m mrs / 2.
Proof.
  destruct mrs as [m r s]. cbn [shr_m]. intros Hm.
  destruct m as [|p|p]; [reflexivity| |lia].
  destruct p as [p|p|]; cbn [shr_1 shr_m].
  - replace (Z.pos p~1) with (1 + Z.pos p * 2) by lia.
    rewrite Z.div_add by lia. reflexivity.
  - replace (Z.pos p~0) with (Z.pos p * 2) by lia.
    rewrite Z.div_mul by lia. reflexivity.
  - reflexivity.
Qed.

Lemma iter_shr_m (n : positive) :
  forall mrs, 0 <= shr_m mrs ->
    shr_m (iter_pos shr_1 n mrs) = shr_m mrs / 2 ^ Z.pos n.
Proof.
  induction n as [n IH|n IH|]; intros mrs Hm; cbn [iter_pos].
  - assert (H1 : 0 <= shr_m (shr_1 mrs))
      by (rewrite shr_1_m by exact Hm; apply Z.div_pos; lia).
    assert (H2 : 0 <= shr_m (iter_pos shr_1 n (shr_1 mrs)))
      by (rewrite IH by exact H1; apply Z.div_pos; lia).
    rewrite IH, IH, shr_1_m by assumption.
    replace (Z.pos n~1) with (1 + Z.pos n + Z.pos n) by lia.
    rewrite (Z.pow_add_r 2 (1 + Z.pos n) (Z.pos n)) by lia.
    rewrite (Z.pow_add_r 2 1 (Z.pos n)) by lia. change (2 ^ 1) with 2.
    pose proof (Z.pow_pos_nonneg 2 (Z.pos n)).
    rewrite <- !Z.div_div by lia. reflexivity.
  - assert (H2 : 0 <= shr_m (iter_pos shr_1 n mrs))
      by (rewrite IH by exact Hm; apply Z.div_pos; lia).
    rewrite IH, IH by assumption.
    replace (Z.pos n~0) with (Z.pos n + Z.pos n) by lia.
    rewrite (Z.pow_add_r 2 (Z.pos n) (Z.pos n)) by lia.
    pose proof (Z.pow_pos_nonneg 2 (Z.pos n)).
    rewrite <- !Z.div_div by lia. reflexivity.
  - rewrite shr_1_m by exact Hm. reflexivity.
Qed.

Lemma shr_m_of_loc (m : Z) (l : location) :
  shr_m (shr_record_of_loc m l) = m.
Proof. destruct l as [|[]]; reflexivity. Qed.

(** [shr] by [n] bits: the mantissa is divided by [2^n], the exponent
    grows by [n]. *)
Lemma shr_spec (m : Z) (l : location) (e n : Z) :
  0 <= m -> 0 <= n ->
  shr_m (fst (shr (shr_record_of_loc m l) e n)) = m / 2 ^ n
  /\ snd (shr (shr_record_of_loc m l) e n) = e + n.
Proof.
  intros Hm Hn. destruct n as [|n|n]; [| |lia]; cbn [shr fst snd].
  - rewrite shr_m_of_loc, Z.div_1_r. split; [reflexivity|lia].
  - rewrite iter_shr_m by (rewrite shr_m_of_loc; exact Hm).
    rewrite shr_m_of_loc. split; reflexivity.
Qed.

Lemma round_nearest_even_cases (m : Z) (l : location) :
  round_nearest_even m l = m \/ round_nearest_even m l = m + 1.
Proof.
  destruct l as [|[]]; cbn [round_nearest_even]; auto.
  destruct (Z.even m); auto.
Qed.

Lemma fexp_normal (e : Z) : -1021 <= e -> fexp prec emax e = e - 53.
Proof. intros H. unfold fexp, emin, prec, emax. lia. Qed.

Lemma pow2_pos (n : Z) : 0 <= n -> 0 < 2 ^ n.
Proof. intros H. apply Z.pow_pos_nonneg; lia. Qed.

(** Dropping [sh] bits of a number of [53 + sh] bits leaves 53 bits. *)
Lemma top_bits (m sh : Z) :
  0 <= sh -> 2 ^ (52 + sh) <= m < 2 ^ (53 + sh) ->
  2 ^ 52 <= m / 2 ^ sh < 2 ^ 53.
Proof.
  intros Hsh [Hlo Hhi]. pose proof (pow2_pos sh Hsh) as Hp.
  rewrite Z.pow_add_r in Hlo, Hhi by lia. split.
  - apply Z.div_le_lower_bound; lia.
  - apply Z.div_lt_upper_bound; lia.
Qed.

(** Rounding a positive mantissa of at least 53 bits in the normal range:
    the result is a normal number whose mantissa is the 53 leading bits,
    possibly plus one. *)
Lemma round_normal (m : positive) (e : Z) (l : location) :
  let dg := Z.pos (digits2_pos m) in
  let sh := dg - 53 in
  let q := Z.pos m / 2 ^ sh in
  53 <= dg -> -1074 <= e + sh -> e + sh < 971 ->
  exists m3 e3,
    binary_round_aux prec emax false (Z.pos m) e l = S754_finite false m3 e3
    /\ Z.pos (digits2_pos m3) = 53
    /\ ((e3 = e + sh /\ (Z.pos m3 = q \/ Z.pos m3 = q + 1))
        \/ (e3 = e + sh + 1 /\ 2 * Z.pos m3 = q + 1))
    /\ (l = loc_Exact -> sh = 0 -> m3 = m /\ e3 = e).
Proof.
  intros dg sh q Hdg Hlo Hhi.
  pose proof (digits2_bounds m) as Hm. fold dg in Hm.
  assert (Hq : 2 ^ 52 <= q < 2 ^ 53).
  { apply top_bits; [lia|].
    replace (52 + sh) with (dg - 1) by lia.
    replace (53 + sh) with dg by lia. exact Hm. }
  unfold binary_round_aux, shr_fexp. cbn [Zdigits2]. fold dg.
  rewrite fexp_normal by lia.
  replace (dg + e - 53 - e) with sh by lia.
  pose proof (shr_spec (Z.pos m) l e sh) as Hs.
  destruct (shr (shr_record_of_loc (Z.pos m) l) e sh) as [mrs1 e1] eqn:E1.
  cbn [fst snd] in Hs. destruct Hs as [Hm1 He1]; [lia|lia|]. fold q in Hm1.
  pose proof (round_nearest_even_cases (shr_m mrs1) (loc_of_shr_record mrs1))
    as Hr.
  set (m2 := round_nearest_even (shr_m mrs1) (loc_of_shr_record mrs1)) in *.
  rewrite Hm1 in Hr.
  assert (Hm2 : 2 ^ 52 <= m2 <= 2 ^ 53) by lia.
  destruct m2 as [|p2|p2] eqn:Ep2; [lia| |lia].
  destruct (Z.eq_dec (Z.pos p2) (2 ^ 53)) as [Hcarry|Hnocarry].
  - (* the mantissa overflowed to 2^53: one more bit is dropped *)
    assert (Hd2 : Z.pos (digits2_pos p2) = 54)
      by (apply digits2_unique; rewrite Hcarry; simpl; lia).
    cbn [Zdigits2]. rewrite Hd2, fexp_normal by lia.
    replace (54 + e1 - 53 - e1) with 1 by lia.
    assert (Hp2 : p2 = (2 ^ 53)%positive) by (apply Pos2Z.inj; exact Hcarry).
    subst p2. cbn -[Z.leb Z.sub].
    destruct (Z.leb_spec (e1 + 1) (emax - prec)) as [_|H];
      [|unfold emax, prec in H; lia].
    do 2 eexists. split; [reflexivity|]. split; [reflexivity|]. split.
    + right. split; [lia|]. destruct Hr as [Hr|Hr]; [lia|].
      rewrite <- Hr. reflexivity.
    + intros -> Hsh0. exfalso.
      rewrite Hsh0 in E1. cbn in E1.
      injection E1 as <- <-. cbn in m2, Ep2. subst m2.
      injection Ep2 as ->. subst q. rewrite Hsh0, Z.div_1_r in Hq.
      simpl in Hq. lia.
  - assert (Hd2 : Z.pos (digits2_pos p2) = 53)
      by (apply digits2_unique; simpl; lia).
    cbn [Zdigits2]. rewrite Hd2, fexp_normal by lia.
    replace (53 + e1 - 53 - e1) with 0 by lia.
    cbn -[Z.leb Z.sub].
    destruct (Z.leb_spec e1 (emax - prec)) as [_|H];
      [|unfold emax, prec in H; lia].
    do 2 eexists. split; [reflexivity|]. split; [exact Hd2|]. split.
    + left. split; [lia|]. lia.
    + intros -> Hsh0.
      rewrite Hsh0 in E1. cbn in E1.
      injection E1 as <- <-. cbn in m2, Ep2. subst m2.
      injection Ep2 as ->. split; [reflexivity|lia].
Qed.

Lemma iter_xO (p d : positive) :
  Z.pos (Pos.iter xO p d) = Z.pos p * 2 ^ Z.pos d.
Proof.
  induction d as [|d IH] using Pos.peano_ind.
  - simpl. lia.
  - rewrite Pos.iter_succ, Pos2Z.inj_succ, Z.pow_succ_r by lia.
    change (Z.pos (Pos.iter xO p d)~0) with (2 * Z.pos (Pos.iter xO p d)).
    rewrite IH. lia.
Qed.

(** The double of a positive integer below 2^53 is that integer, written
    with a mantissa of 53 bits. *)
Lemma ofZ_normal (n : Z) :
  0 < n < 2 ^ 53 ->
  exists m e,
    ofZ n = S754_finite false m e
    /\ Z.pos (digits2_pos m) = 53
    /\ -52 <= e <= 0
    /\ Z.pos m = n * 2 ^ (- e).
Proof.
  intros [Hpos Hlt]. destruct n as [|p|p]; [lia| |lia].
  unfold ofZ, binary_normalize, binary_round.
  pose proof (digits2_bounds p) as Hp.
  set (dg := Z.pos (digits2_pos p)) in *.
  assert (Hdg : 1 <= dg <= 53).
  { split; [unfold dg; lia|].
    destruct (Z.le_gt_cases dg 53) as [H|H]; [exact H|exfalso].
    assert (2 ^ 53 <= 2 ^ (dg - 1)) by (apply Z.pow_le_mono_r; lia). lia. }
  rewrite fexp_normal by lia. unfold shl_align.
  replace (dg + 0 - 53 - 0) with (dg - 53) by lia.
  destruct (dg - 53) as [|d|d] eqn:Ed; [| lia |].
  - (* 53 bits already *)
    assert (H53 : dg = 53) by lia.
    destruct (round_normal p 0 loc_Exact) as (m3 & e3 & E & D & _ & X);
      try (fold dg; lia).
    destruct X as [-> ->]; [reflexivity|fold dg; lia|].
    exists p, 0. rewrite E. repeat split; lia.
  - (* fewer bits: the mantissa is shifted left *)
    pose proof (iter_xO p d) as Hshift.
    set (mz := Pos.iter xO p d) in *.
    assert (Hd : Z.pos d = 53 - dg) by lia.
    assert (Hmz : Z.pos (digits2_pos mz) = 53).
    { apply digits2_unique. rewrite Hshift, Hd.
      pose proof (pow2_pos (53 - dg)).
      assert (E52 : 2 ^ (53 - 1) = 2 ^ (dg - 1) * 2 ^ (53 - dg))
        by (rewrite <- Z.pow_add_r by lia; f_equal; lia).
      assert (E53 : 2 ^ 53 = 2 ^ dg * 2 ^ (53 - dg))
        by (rewrite <- Z.pow_add_r by lia; f_equal; lia).
      rewrite E52, E53. split.
      - apply Z.mul_le_mono_nonneg_r; lia.
      - apply Z.mul_lt_mono_pos_r; lia. }
    destruct (round_normal mz (dg + 0 - 53) loc_Exact)
      as (m3 & e3 & E & D & _ & X); try (rewrite Hmz; lia).
    destruct X as [-> ->]; [reflexivity|rewrite Hmz; lia|].
    exists mz, (dg + 0 - 53). rewrite E. repeat split; try lia.
    rewrite Hshift, Hd. f_equal. f_equal. lia.
Qed.

Lemma scaled_lt (m1 m2 a x : Z) :
  2 ^ 52 <= m1 < 2 ^ 53 -> 2 ^ 52 <= m2 < 2 ^ 53 -> 0 < a -> 0 < x ->
  m1 * a < m2 * (x * 2 * a).
Proof.
  intros B1 B2 Ha Hx.
  assert (H1 : m1 * a < 2 ^ 53 * a)
    by (apply Z.mul_lt_mono_pos_r; lia).
  assert (H2 : 2 ^ 53 * a <= 2 ^ 52 * (x * 2 * a)).
  { replace (2 ^ 53 * a) with (2 ^ 52 * (1 * 2 * a))
      by (change (2 ^ 53) with (2 ^ 52 * 2); ring).
    apply Z.mul_le_mono_nonneg_l; [lia|].
    apply Z.mul_le_mono_nonneg_r; lia. }
  assert (H3 : 2 ^ 52 * (x * 2 * a) <= m2 * (x * 2 * a)).
  { apply Z.mul_le_mono_nonneg_r; [|lia].
    apply Z.mul_nonneg_nonneg; lia. }
  lia.
Qed.

(** Comparing two normal numbers is comparing their values. *)
Lemma compare_normal (m1 m2 : positive) (e1 e2 K : Z) :
  Z.pos (digits2_pos m1) = 53 -> Z.pos (digits2_pos m2) = 53 ->
  - K <= e1 -> - K <= e2 ->
  SFcompare (S754_finite false m1 e1) (S754_finite false m2 e2)
  = Some (Z.pos m1 * 2 ^ (e1 + K) ?= Z.pos m2 * 2 ^ (e2 + K)).
Proof.
  intros D1 D2 H1 H2. cbn [SFcompare]. f_equal.
  pose proof (digits2_bounds m1) as B1. rewrite D1 in B1.
  pose proof (digits2_bounds m2) as B2. rewrite D2 in B2.
  change (2 ^ (53 - 1)) with (2 ^ 52) in *.
  destruct (Z.compare_spec e1 e2) as [->|Hlt|Hgt]; symmetry.
  - rewrite <- Zmult_compare_compat_r
      by (apply Z.lt_gt, pow2_pos; lia).
    change (Z.pos m1 ?= Z.pos m2) with (m1 ?= m2)%positive.
    rewrite Pos.compare_cont_spec.
    destruct (m1 ?= m2)%positive; reflexivity.
  - apply Z.compare_lt_iff.
    replace (e2 + K) with ((e2 - e1 - 1) + 1 + (e1 + K)) by lia.
    rewrite (Z.pow_add_r 2 (e2 - e1 - 1 + 1) (e1 + K)) by lia.
    rewrite (Z.pow_add_r 2 (e2 - e1 - 1) 1) by lia. change (2 ^ 1) with 2.
    apply scaled_lt; try assumption; apply pow2_pos; lia.
  - apply Z.compare_gt_iff.
    replace (e1 + K) with ((e1 - e2 - 1) + 1 + (e2 + K)) by lia.
    rewrite (Z.pow_add_r 2 (e1 - e2 - 1 + 1) (e2 + K)) by lia.
    rewrite (Z.pow_add_r 2 (e1 - e2 - 1) 1) by lia. change (2 ^ 1) with 2.
    apply scaled_lt; try assumption; apply pow2_pos; lia.
Qed.

Lemma pow2_lt_inv (a b : Z) : 0 <= b -> 2 ^ a < 2 ^ b -> a < b.
Proof.
  intros Hb H. destruct (Z.lt_ge_cases a b) as [|Hge]; [assumption|].
  assert (2 ^ b <= 2 ^ a) by (apply Z.pow_le_mono_r; lia). lia.
Qed.

(** The double product [n * 0.1] stays on the same side of every integer
    [k <= n] as the exact tenth of [n]. *)
Lemma gt_tenth (n k : Z) :
  1 <= n < 2 ^ 32 -> 0 <= k <= n ->
  gt (ofZ k) (mul (ofZ n) oneTenth) = (n <? 10 * k).
Proof.
  intros Hn Hk.
  destruct (ofZ_normal n) as (mn & en & En & Dn & Hen & Hmn);
    [change (2 ^ 53) with 9007199254740992;
     change (2 ^ 32) with 4294967296 in Hn; lia|].
  unfold mul, gt. rewrite En. unfold oneTenth. cbn [SFmul xorb].
  set (M := 7205759403792794%positive).
  pose proof (digits2_bounds mn) as Bn. rewrite Dn in Bn.
  change (2 ^ (53 - 1)) with (2 ^ 52) in Bn.
  set (T := 2 ^ (- en)) in *.
  assert (HT : 2 ^ 20 < T).
  { change (2 ^ 32) with (2 ^ 12 * 2 ^ 20) in Hn.
    change (2 ^ 52) with (2 ^ 32 * 2 ^ 20) in Bn.
    change (2 ^ 32) with 4294967296 in *.
    change (2 ^ 12) with 4096 in *. nia. }
  assert (HP : Z.pos (mn * M) = n * T * Z.pos M)
    by (rewrite Pos2Z.inj_mul, Hmn; reflexivity).
  pose proof (digits2_bounds (mn * M)) as BP.
  set (dg := Z.pos (digits2_pos (mn * M))) in *.
  assert (HPlo : 2 ^ 104 <= Z.pos (mn * M)).
  { rewrite Pos2Z.inj_mul. change (2 ^ 104) with (2 ^ 52 * 2 ^ 52).
    apply Z.mul_le_mono_nonneg; try lia; subst M;
      change (2 ^ 52) with 4503599627370496; lia. }
  assert (HPhi : Z.pos (mn * M) < 2 ^ 106).
  { rewrite Pos2Z.inj_mul. change (2 ^ 106) with (2 ^ 53 * 2 ^ 53).
    apply Z.mul_lt_mono_nonneg; try lia; subst M;
      change (2 ^ 53) with 9007199254740992; lia. }
  assert (Hdg : dg = 105 \/ dg = 106).
  { assert (104 < dg) by (apply pow2_lt_inv; [unfold dg|]; lia).
    assert (dg - 1 < 106) by (apply pow2_lt_inv; lia). lia. }
  destruct (round_normal (mn * M) (en + -56) loc_Exact)
    as (m3 & e3 & E & D3 & Hcase & _); fold dg; try lia.
  rewrite E. clear E En.
  destruct (Z.eq_dec k 0) as [->|Hk0].
  { cbn. destruct (Z.ltb_spec n 0); [lia|reflexivity]. }
  destruct (ofZ_normal k) as (mk & ek & Ek & Dk & Hek & Hmk);
    [change (2 ^ 53) with 9007199254740992;
     change (2 ^ 32) with 4294967296 in Hn; lia|].
  rewrite Ek. unfold SFltb.
  rewrite (compare_normal m3 mk e3 ek 200) by lia.
  (* the two sides, scaled by 2^200 *)
  set (B := en + -56 + (dg - 53)) in *.
  assert (Hk200 : Z.pos mk * 2 ^ (ek + 200) = k * 2 ^ (- B) * 2 ^ (B + 200)).
  { rewrite Hmk, <- !Z.mul_assoc. f_equal.
    rewrite <- !Z.pow_add_r by lia. f_equal. lia. }
  assert (Hr : exists r, Z.pos m3 * 2 ^ (e3 + 200) = r * 2 ^ (B + 200)
                /\ (r = Z.pos (mn * M) / 2 ^ (dg - 53)
                    \/ r = Z.pos (mn * M) / 2 ^ (dg - 53) + 1)).
  { destruct Hcase as [[He3 Hm3]|[He3 Hm3]].
    - exists (Z.pos m3). split; [|exact Hm3].
      replace (e3 + 200) with (B + 200) by (unfold B; lia). reflexivity.
    - exists (2 * Z.pos m3). split; [|right; exact Hm3].
      replace (e3 + 200) with (1 + (B + 200)) by (unfold B; lia).
      rewrite (Z.pow_add_r 2 1 (B + 200)) by (unfold B; lia).
      change (2 ^ 1) with 2. ring. }
  destruct Hr as (r & -> & Hr). rewrite Hk200.
  rewrite <- Zmult_compare_compat_r by (apply Z.lt_gt, pow2_pos; lia).
  assert (HJ : 2 ^ (- B) * 2 ^ (dg - 53) = 2 ^ 56 * T).
  { unfold T. rewrite <- !Z.pow_add_r by lia. f_equal. lia. }
  set (J := 2 ^ (- B)) in *. set (U := 2 ^ (dg - 53)) in *.
  assert (HU : 0 < U) by (apply pow2_pos; lia).
  assert (HJ0 : 0 < J) by (apply pow2_pos; lia).
  assert (HU53 : U <= 2 ^ 53) by (apply Z.pow_le_mono_r; lia).
  rewrite HP in Hr.
  assert (HM : 10 * Z.pos M = 2 ^ 56 + 4) by reflexivity.
  change (2 ^ 56) with 72057594037927936 in *.
  change (2 ^ 53) with 9007199254740992 in *.
  change (2 ^ 32) with 4294967296 in *.
  change (2 ^ 20) with 1048576 in *.
  destruct (Z.ltb_spec n (10 * k)) as [Hlt|Hge].
  - (* fewer than ten times k: the product is below k *)
    assert (Hq : n * T * Z.pos M / U < k * J - 1).
    { apply Z.div_lt_upper_bound; [exact HU|].
      replace (U * (k * J - 1)) with (k * (J * U) - U) by ring.
      rewrite HJ. nia. }
    rewrite (proj2 (Z.compare_lt_iff _ _)); [reflexivity|].
    destruct Hr as [->| ->]; lia.
  - (* at least ten times k: the product is at least k *)
    assert (Hq : k * J <= n * T * Z.pos M / U).
    { apply Z.div_le_lower_bound; [exact HU|].
      replace (U * (k * J)) with (k * (J * U)) by ring.
      rewrite HJ. nia. }
    destruct (Z.compare_spec r (k * J)) as [?|?|?]; try reflexivity.
    destruct Hr as [->| ->]; lia.
Qed.

(** The product of two normal numbers of moderate exponent is normal. *)
Lemma mul_normal (m1 m2 : positive) (e1 e2 : Z) :
  Z.pos (digits2_pos m1) = 53 -> Z.pos (digits2_pos m2) = 53 ->
  -400 <= e1 <= 400 -> -400 <= e2 <= 400 ->
  exists m3 e3,
    mul (S754_finite false m1 e1) (S754_finite false m2 e2)
    = S754_finite false m3 e3
    /\ Z.pos (digits2_pos m3) = 53
    /\ e1 + e2 + 52 <= e3 <= e1 + e2 + 54.
Proof.
  intros D1 D2 H1 H2. unfold mul. cbn [SFmul xorb].
  pose proof (digits2_bounds m1) as B1. rewrite D1 in B1.
  pose proof (digits2_bounds m2) as B2. rewrite D2 in B2.
  change (2 ^ (53 - 1)) with (2 ^ 52) in *.
  pose proof (digits2_bounds (m1 * m2)) as BP.
  set (dg := Z.pos (digits2_pos (m1 * m2))) in *.
  assert (HPlo : 2 ^ 104 <= Z.pos (m1 * m2)).
  { rewrite Pos2Z.inj_mul. change (2 ^ 104) with (2 ^ 52 * 2 ^ 52).
    apply Z.mul_le_mono_nonneg; lia. }
  assert (HPhi : Z.pos (m1 * m2) < 2 ^ 106).
  { rewrite Pos2Z.inj_mul. change (2 ^ 106) with (2 ^ 53 * 2 ^ 53).
    apply Z.mul_lt_mono_nonneg; lia. }
  assert (Hdg : dg = 105 \/ dg = 106).
  { assert (104 < dg) by (apply pow2_lt_inv; [unfold dg|]; lia).
    assert (dg - 1 < 106) by (apply pow2_lt_inv; lia). lia. }
  destruct (round_normal (m1 * m2) (e1 + e2) loc_Exact)
    as (m3 & e3 & E & D3 & Hcase & _); fold dg; try lia.
  exists m3, e3. split; [exact E|]. split; [exact D3|]. lia.
Qed.

(** So is their quotient. *)
Lemma div_normal (m1 m2 : positive) (e1 e2 : Z) :
  Z.pos (digits2_pos m1) = 53 -> Z.pos (digits2_pos m2) = 53 ->
  -400 <= e1 <= 400 -> -400 <= e2 <= 400 ->
  exists m3 e3,
    div (S754_finite false m1 e1) (S754_finite false m2 e2)
    = S754_finite false m3 e3
    /\ Z.pos (digits2_pos m3) = 53
    /\ e1 - e2 - 53 <= e3 <= e1 - e2 - 51.
Proof.
  intros D1 D2 H1 H2. unfold div. cbn [SFdiv xorb].
  unfold SFdiv_core_binary. cbn [Zdigits2]. rewrite D1, D2.
  rewrite fexp_normal by lia.
  replace (Z.min (53 + e1 - (53 + e2) - 53) (e1 - e2))
    with (e1 - e2 - 53) by lia.
  replace (e1 - e2 - (e1 - e2 - 53)) with 53 by lia.
  cbv iota. rewrite Z.shiftl_mul_pow2 by lia.
  pose proof (digits2_bounds m1) as B1. rewrite D1 in B1.
  pose proof (digits2_bounds m2) as B2. rewrite D2 in B2.
  change (2 ^ (53 - 1)) with (2 ^ 52) in *.
  pose proof (Z.div_eucl_eq (Z.pos m1 * 2 ^ 53) (Z.pos m2)) as Hq.
  pose proof (Z.mod_pos_bound (Z.pos m1 * 2 ^ 53) (Z.pos m2)) as Hr.
  unfold Z.modulo in Hr.
  destruct (Z.div_eucl (Z.pos m1 * 2 ^ 53) (Z.pos m2)) as [q r].
  specialize (Hq ltac:(lia)). specialize (Hr ltac:(lia)).
  change (2 ^ 52) with 4503599627370496 in *.
  change (2 ^ 53) with 9007199254740992 in *.
  assert (Hqb : 4503599627370496 <= q < 2 * 9007199254740992) by nia.
  destruct q as [|qp|qp]; [lia| |lia].
  pose proof (digits2_bounds qp) as BQ.
  set (dg := Z.pos (digits2_pos qp)) in *.
  assert (Hdg : dg = 53 \/ dg = 54).
  { assert (52 < dg)
      by (apply pow2_lt_inv; [unfold dg; lia|];
          change (2 ^ 52) with 4503599627370496; lia).
    assert (dg - 1 < 54)
      by (apply pow2_lt_inv; [lia|];
          change (2 ^ 54) with (2 * 9007199254740992); lia).
    lia. }
  destruct (round_normal qp (e1 - e2 - 53) (new_location (Z.pos m2) r))
    as (m3 & e3 & E & D3 & Hcase & _); fold dg; try lia.
  exists m3, e3. split; [exact E|]. split; [exact D3|]. lia.
Qed.

(** ** The validator *)

Lemma inconsistent_eq (table : ParseResult) :
  filter (fun row =>
            negb (Z.of_nat (length row)
                  =? Z.of_nat (length (CsvParser.headers table))))
         (CsvParser.data table)
  = filter (fun row =>
              negb (length row =? length (CsvParser.headers table))%nat)
           (CsvParser.data table).
Proof.
  apply filter_ext. intros row. f_equal.
  destruct (Nat.eqb_spec (length row) (length (CsvParser.headers table)))
    as [->|Hne].
  - apply Z.eqb_refl.
  - apply Z.eqb_neq. lia.
Qed.

(** The validator with the threshold in exact arithmetic. *)
Lemma validateCSV_exact (table : ParseResult) :
  Z.of_nat (length (CsvParser.data table)) < 2 ^ 32 ->
  validateCSV table
  = if (length (CsvParser.headers table) =? 0)%nat then
      {| valid := false; reason := Some noHeaders |}
    else if (length (CsvParser.data table) =? 0)%nat then
      {| valid := false; reason := Some noDataRows |}
    else if (length (CsvParser.data table) <? 10 * inconsistent table)%nat
    then {| valid := false;
            reason := Some (inconsistentColumns
                              (Z.of_nat (length (CsvParser.headers table)))) |}
    else {| valid := true; reason := None |}.
Proof.
  intros Hn. unfold validateCSV, inconsistent.
  destruct (Nat.eqb_spec (length (CsvParser.headers table)) 0) as [->|Hh];
    [reflexivity|].
  destruct (Z.eqb_spec (Z.of_nat (length (CsvParser.headers table))) 0)
    as [?|_]; [lia|].
  destruct (Nat.eqb_spec (length (CsvParser.data table)) 0) as [->|Hd];
    [reflexivity|].
  destruct (Z.eqb_spec (Z.of_nat (length (CsvParser.data table))) 0)
    as [?|_]; [lia|].
  rewrite inconsistent_eq.
  set (bad := filter _ (CsvParser.data table)).
  pose proof (filter_length_le
    (fun row => negb (length row =? length (CsvParser.headers table))%nat)
    (CsvParser.data table)) as Hle.
  fold bad in Hle.
  rewrite gt_tenth by lia.
  destruct (Z.ltb_spec (Z.of_nat (length (CsvParser.data table)))
                       (10 * Z.of_nat (length bad)));
    destruct (Nat.ltb_spec (length (CsvParser.data table))
                           (10 * length bad)); try lia; reflexivity.
Qed.



(** ** The row-count estimate *)

Lemma ofZ_one : ofZ 1 = S754_finite false 4503599627370496 (-52).
Proof. reflexivity. Qed.

(** [Math.max(1, z)] on the doubles of integers. *)
Lemma Math_max_one (z : Z) :
  0 <= z < 2 ^ 53 -> Math_max (ofZ 1) (ofZ z) = ofZ (Z.max 1 z).
Proof.
  intros Hz. destruct (Z.eq_dec z 0) as [->|Hz0]; [reflexivity|].
  destruct (ofZ_normal z) as (m & e & E & D & He & Hm); [lia|].
  unfold Math_max. rewrite E, ofZ_one.
  rewrite (compare_normal _ m (-52) e 200) by (try reflexivity; lia).
  assert (Hv : Z.pos m * 2 ^ (e + 200) = z * 2 ^ 200).
  { rewrite Hm, <- Z.mul_assoc, <- Z.pow_add_r by lia.
    f_equal. f_equal. lia. }
  rewrite Hv.
  change (4503599627370496 * 2 ^ (-52 + 200)) with (1 * 2 ^ 200).
  rewrite <- Zmult_compare_compat_r by (apply Z.lt_gt, pow2_pos; lia).
  destruct (Z.compare_spec 1 z) as [<-|H|H].
  - reflexivity.
  - rewrite Z.max_r by lia. symmetry. exact E.
  - lia.
Qed.

(** A positive integer below [2^b] occupies a mantissa exponent of at most
    [b - 53]. *)
Lemma ofZ_exponent (n b : Z) (m : positive) (e : Z) :
  0 <= b <= 52 -> 0 < n < 2 ^ b ->
  Z.pos (digits2_pos m) = 53 -> -52 <= e <= 0 -> Z.pos m = n * 2 ^ (- e) ->
  e <= b - 53.
Proof.
  intros Hb Hn D He Hm.
  pose proof (digits2_bounds m) as B. rewrite D in B.
  change (2 ^ (53 - 1)) with (2 ^ 52) in B.
  assert (H : 2 ^ (52 - b) < 2 ^ (- e)).
  { pose proof (pow2_pos (- e)). pose proof (pow2_pos (52 - b)).
    assert (E52 : 2 ^ 52 = 2 ^ b * 2 ^ (52 - b))
      by (rewrite <- Z.pow_add_r by lia; f_equal; lia).
    rewrite E52, Hm in B.
    destruct (Z.lt_ge_cases (2 ^ (52 - b)) (2 ^ (- e))) as [|Hge];
      [assumption|exfalso].
    assert (n * 2 ^ (- e) <= n * 2 ^ (52 - b))
      by (apply Z.mul_le_mono_nonneg_l; lia).
    assert (n * 2 ^ (52 - b) < 2 ^ b * 2 ^ (52 - b))
      by (apply Z.mul_lt_mono_pos_r; lia).
    lia. }
  apply pow2_lt_inv in H; lia.
Qed.

(** The extrapolation [floor((L / S) * n)] in doubles is the double of an
    integer. *)
Lemma estimate_floor (L S n : Z) :
  1 <= n <= S -> S <= L -> S <= 10000 -> L < 2 ^ 32 ->
  exists z,
    0 <= z < 2 ^ 53
    /\ JS.floor (mul (div (ofZ L) (ofZ S)) (ofZ n)) = Some z
    /\ Math_floor (mul (div (ofZ L) (ofZ S)) (ofZ n)) = ofZ z.
Proof.
  intros Hn HS HS' HL.
  assert (H32 : 2 ^ 32 < 2 ^ 53) by reflexivity.
  assert (H14 : 10000 < 2 ^ 14) by reflexivity.
  destruct (ofZ_normal L) as (mL & eL & EL & DL & HeL & HmL); [lia|].
  destruct (ofZ_normal S) as (mS & eS & ES & DS & HeS & HmS); [lia|].
  destruct (ofZ_normal n) as (mn & en & En & Dn & Hen & Hmn); [lia|].
  pose proof (ofZ_exponent L 32 mL eL ltac:(lia) ltac:(lia) DL HeL HmL).
  pose proof (ofZ_exponent n 14 mn en ltac:(lia) ltac:(lia) Dn Hen Hmn).
  rewrite EL, ES, En.
  destruct (div_normal mL mS eL eS DL DS) as (mq & eq & Eq & Dq & Heq);
    try lia.
  rewrite Eq.
  destruct (mul_normal mq mn eq en Dq Dn) as (mp & ep & Ep & Dp & Hep);
    try lia.
  rewrite Ep. unfold Math_floor. cbn [JS.floor].
  destruct (Z.leb_spec 0 ep) as [?|Hneg]; [lia|].
  pose proof (digits2_bounds mp) as B. rewrite Dp in B.
  pose proof (pow2_pos (- ep)).
  exists (Z.pos mp / 2 ^ (- ep)). repeat split.
  - apply Z.div_pos; lia.
  - apply Z.div_lt_upper_bound; [lia|]. nia.
Qed.

Lemma length_substring_le (s : jsstring) (k : Z) :
  0 <= k -> Z.of_nat (length (substring s 0 k)) <= k.
Proof.
  intros Hk. unfold substring. rewrite length_firstn. lia.
Qed.

(** C8, as the code has it.  For a text of fewer than 2^32 code units,
    with [n] the line feeds among its first [min(|text|, 10000)] code
    units: the estimate is 1 when [n = 0], and otherwise
    [max(1, floor((|text| / |sample|) * n))] with quotient and product
    rounded to binary64 as JavaScript computes them; it is always the
    double of an integer that is at least 1.  Nine line feeds in the first
    10000 of 100000 code units give 90; 100 line feeds in the first 10000
    of 11500 code units give 114. *)
Theorem estimateRowCount_double :
  (forall content : jsstring,
      let L := len content in
      let S := Z.min L 10000 in
      let n := Z.of_nat (length (filter (N.eqb LF) (substring content 0 S))) in
      L < 2 ^ 32 ->
      (n = 0 -> estimateRowCount content = ofZ 1)
      /\ (n <> 0 ->
          exists z,
            JS.floor (mul (div (ofZ L) (ofZ S)) (ofZ n)) = Some z
            /\ estimateRowCount content = ofZ (Z.max 1 z))
      /\ (exists z, 1 <= z < 2 ^ 53 /\ estimateRowCount content = ofZ z))
  /\ estimateRowCount Sample.hundredThousand = ofZ 90
  /\ estimateRowCount Sample.longText = ofZ 114.
Proof.
  split; [|split; vm_compute; reflexivity].
  intros content L S n HL.
  assert (Hn : 0 <= n <= S).
  { split; [apply Nat2Z.is_nonneg|].
    etransitivity; [|apply (length_substring_le content S)].
    - apply Nat2Z.inj_le, filter_length_le.
    - unfold S, L, len. lia. }
  assert (Hcore : n <> 0 ->
            exists z, 0 <= z < 2 ^ 53
              /\ JS.floor (mul (div (ofZ L) (ofZ S)) (ofZ n)) = Some z
              /\ estimateRowCount content = ofZ (Z.max 1 z)).
  { intros Hn0.
    destruct (estimate_floor L S n) as (z & Hz & Hf & HF);
      try (unfold S; lia).
    exists z. split; [exact Hz|]. split; [exact Hf|].
    unfold estimateRowCount. fold L. fold S. fold n.
    destruct (Z.eqb_spec n 0) as [?|_]; [contradiction|].
    rewrite HF. apply Math_max_one, Hz. }
  split; [|split].
  - intros Hn0. unfold estimateRowCount. fold L. fold S. fold n.
    rewrite Hn0. reflexivity.
  - intros Hn0. destruct (Hcore Hn0) as (z & _ & Hf & E). eauto.
  - destruct (Z.eq_dec n 0) as [Hn0|Hn0].
    + exists 1. split; [split; [lia|reflexivity]|].
      unfold estimateRowCount. fold L. fold S. fold n.
      rewrite Hn0. reflexivity.
    + destruct (Hcore Hn0) as (z & Hz & _ & E).
      exists (Z.max 1 z). split; [|exact E].
      assert (1 < 2 ^ 53) by reflexivity. lia.
Qed.

Lemma estimateRowCount_double_witness :
  exists z, 1 <= z < 2 ^ 53 /\ estimateRowCount Sample.fiveRows = ofZ z.
Proof.
  apply (proj1 estimateRowCount_double Sample.fiveRows).
  vm_compute. reflexivity.
Defined.

(** C8 fails as stated: on 11500 code units with 100 line feeds among the
    first 10000 the exact value of [floor((11500 / 10000) * 100)] is 115,
    and the estimate is 114. *)
Lemma estimateRowCount_below_exact :
  len Sample.longText = 11500
  /\ Z.of_nat (length (filter (N.eqb LF)
                              (substring Sample.longText 0 10000))) = 100
  /\ estimateExact Sample.longText = 115
  /\ estimateRowCount Sample.longText = ofZ 114
  /\ estimateRowCount Sample.longText <> ofZ 115.
Proof. vm_compute. repeat split. discriminate. Qed.

(** * Further properties of the code *)

(** ** Lines: [split], [join] and [getSample] *)

Lemma split_go_nonempty (sep s : jsstring) :
  forall skip cur, split_go sep s skip cur <> [].
Proof.
  induction s as [|x s IH]; intros skip cur; cbn [split_go];
    [discriminate|].
  destruct skip; [|apply IH].
  destruct (startsWith sep (x :: s)); [discriminate|apply IH].
Qed.

Lemma join_cons (sep p : jsstring) (rest : list jsstring) :
  rest <> [] -> join sep (p :: rest) = p ++ sep ++ join sep rest.
Proof. destruct rest; [congruence|reflexivity]. Qed.

Lemma join_split_go (c : char) (s : jsstring) :
  forall cur, join [c] (split_go [c] s O cur) = cur ++ s.
Proof.
  induction s as [|x s IH]; intros cur.
  - simpl. rewrite app_nil_r. reflexivity.
  - cbn [split_go]. rewrite startsWith_single.
    destruct (N.eqb_spec c x) as [->|_].
    + cbn [length pred]. rewrite join_cons by apply split_go_nonempty.
      rewrite IH. reflexivity.
    + rewrite IH, <- app_assoc. reflexivity.
Qed.

(** Joining the lines of a text gives the text back. *)
Lemma join_split (c : char) (s : jsstring) : join [c] (split [c] s) = s.
Proof. apply (join_split_go c s []). Qed.

Lemma join_firstn_prefix (sep : jsstring) (l : list jsstring) :
  forall k, exists rest, join sep l = join sep (firstn k l) ++ rest.
Proof.
  induction l as [|a l IH]; intros [|k]; cbn [firstn];
    try (eexists; reflexivity).
  destruct l as [|b l]; [exists []; destruct k; simpl; symmetry; apply app_nil_r|].
  destruct (IH k) as (rest & E).
  rewrite join_cons by discriminate.
  destruct k as [|k].
  - exists (sep ++ join sep (b :: l)). reflexivity.
  - rewrite (join_cons sep a (firstn (S k) (b :: l))) by discriminate.
    exists rest. rewrite E, <- !app_assoc. reflexivity.
Qed.

Lemma slice_0_firstn (A : Type) (l : list A) (n : Z) :
  exists k, slice l 0 (Some n) = firstn k l.
Proof.
  unfold slice. eexists.
  replace (clampFromEnd (Z.of_nat (length l)) 0) with 0.
  - reflexivity.
  - unfold clampFromEnd. destruct (Z.ltb_spec 0 0); lia.
Qed.

(** The pieces of a split do not hold the separator. *)
Lemma split_go_pieces (c : char) (s : jsstring) :
  forall cur piece,
    ~ In c cur -> In piece (split_go [c] s O cur) -> ~ In c piece.
Proof.
  induction s as [|x s IH]; intros cur piece Hc.
  - simpl. intros [<-|[]]. exact Hc.
  - cbn [split_go]. rewrite startsWith_single.
    destruct (N.eqb_spec c x) as [->|Hx].
    + cbn [length pred]. intros [<-|H]; [exact Hc|].
      apply (IH [] piece); [intros []|exact H].
    + apply IH. intros H. apply in_app_or in H.
      destruct H as [H|[H|[]]]; [exact (Hc H)|congruence].
Qed.

Lemma split_pieces (c : char) (s piece : jsstring) :
  In piece (split [c] s) -> ~ In c piece.
Proof. apply split_go_pieces. intros []. Qed.

Lemma split_go_app (c : char) (p s : jsstring) :
  ~ In c p ->
  forall cur, split_go [c] (p ++ s) O cur = split_go [c] s O (cur ++ p).
Proof.
  intros Hp. induction p as [|x p IH]; intros cur.
  - rewrite app_nil_r. reflexivity.
  - cbn [app split_go]. rewrite startsWith_single.
    destruct (N.eqb_spec c x) as [->|_].
    + exfalso. apply Hp. left. reflexivity.
    + rewrite IH by (intros H; apply Hp; right; exact H).
      rewrite <- app_assoc. reflexivity.
Qed.

(** Splitting a joined list of separator-free pieces gives the pieces. *)
Lemma split_join (c : char) (l : list jsstring) :
  l <> [] -> (forall p, In p l -> ~ In c p) ->
  split [c] (join [c] l) = l.
Proof.
  unfold split. induction l as [|p l IH]; intros Hne Hl; [congruence|].
  destruct l as [|q l].
  - cbn [join]. rewrite split_go_absent by (apply Hl; left; reflexivity).
    reflexivity.
  - rewrite join_cons by discriminate.
    rewrite split_go_app by (apply Hl; left; reflexivity).
    cbn [app split_go]. rewrite startsWith_single, N.eqb_refl.
    cbn [length pred]. rewrite IH; [reflexivity|discriminate|].
    intros r Hr. apply Hl. right. exact Hr.
Qed.

Lemma split_nonempty (c : char) (s : jsstring) : split [c] s <> [].
Proof. apply split_go_nonempty. Qed.

Lemma split_getSample (content : jsstring) (lines : Z) :
  0 < lines ->
  split [LF] (getSample content lines)
  = firstn (Z.to_nat lines) (split [LF] content).
Proof.
  intros Hl. unfold getSample. rewrite slice_prefix by lia.
  apply split_join.
  - pose proof (split_nonempty LF content) as Hne.
    destruct (split [LF] content); [congruence|].
    destruct (Z.to_nat lines) eqn:E; [lia|discriminate].
  - intros p Hp. apply (split_pieces LF content).
    rewrite <- (firstn_skipn (Z.to_nat lines)). apply in_or_app.
    left. exact Hp.
Qed.

(** X1.  [getSample] returns a prefix of the content, whatever the line
    count asked for; for a positive count its lines are the first that
    many lines of the content; and content that has no more lines than
    asked for is returned whole. *)
Theorem getSample_first_lines (content : jsstring) (lines : Z) :
  (exists rest, content = getSample content lines ++ rest)
  /\ (0 < lines ->
      split [LF] (getSample content lines)
      = firstn (Z.to_nat lines) (split [LF] content))
  /\ (Z.of_nat (length (split [LF] content)) <= lines ->
      getSample content lines = content).
Proof.
  repeat split.
  - unfold getSample.
    destruct (slice_0_firstn _ (split [LF] content) lines) as (k & ->).
    destruct (join_firstn_prefix [LF] (split [LF] content) k) as (rest & E).
    exists rest. rewrite <- E. symmetry. apply join_split.
  - apply split_getSample.
  - intros Hl. unfold getSample. rewrite slice_prefix by lia.
    rewrite firstn_all2 by lia. apply join_split.
Qed.

Lemma getSample_first_lines_witness :
  (exists rest, Sample.fiveRows = getSample Sample.fiveRows 2 ++ rest)
  /\ (0 < 2 ->
      split [LF] (getSample Sample.fiveRows 2)
      = firstn (Z.to_nat 2) (split [LF] Sample.fiveRows))
  /\ (Z.of_nat (length (split [LF] Sample.fiveRows)) <= 2 ->
      getSample Sample.fiveRows 2 = Sample.fiveRows).
Proof. apply (getSample_first_lines Sample.fiveRows 2). Defined.

Lemma sampleLines_getSample (text : jsstring) (lines : Z) :
  5 <= lines -> sampleLines (getSample text lines) = sampleLines text.
Proof.
  intros Hl. unfold sampleLines.
  rewrite split_getSample by lia. rewrite !slice_prefix by lia.
  change (Z.to_nat 5) with 5%nat.
  rewrite firstn_firstn. replace (Nat.min 5 (Z.to_nat lines)) with 5%nat by lia.
  reflexivity.
Qed.

(** X2.  The detector reads the first five lines only, so the sample of
    the first [lines >= 5] lines is given the same delimiter as the whole
    text: sampling before detecting, as the provider does with ten lines,
    changes nothing. *)
Theorem detectDelimiter_of_sample (text configured : jsstring) (lines : Z) :
  5 <= lines ->
  detectDelimiter (getSample text lines) configured
  = detectDelimiter text configured.
Proof.
  intros Hl. unfold detectDelimiter.
  rewrite sampleLines_getSample by exact Hl. reflexivity.
Qed.

Lemma detectDelimiter_of_sample_witness :
  detectDelimiter (getSample Sample.fiveRows 10) (lit "auto")
  = detectDelimiter Sample.fiveRows (lit "auto").
Proof.
  apply (detectDelimiter_of_sample Sample.fiveRows (lit "auto") 10). lia.
Defined.

(** ** The delimiter detector *)

Lemma pickStep_fst (best entry : jsstring * Z) :
  fst (pickStep best entry) = fst best
  \/ fst (pickStep best entry) = fst entry.
Proof.
  destruct best as [b bs], entry as [d s]. unfold pickStep.
  destruct (bs <? s); [right|left]; reflexivity.
Qed.

Lemma pick_among (entries : list (jsstring * Z)) :
  forall best,
    fst (fold_left pickStep entries best) = fst best
    \/ In (fst (fold_left pickStep entries best)) (map fst entries).
Proof.
  induction entries as [|e entries IH]; intros best; cbn [fold_left map];
    [left; reflexivity|].
  destruct (IH (pickStep best e)) as [H|H].
  - rewrite H. destruct (pickStep_fst best e) as [E|E]; rewrite E;
      [left; reflexivity|right; left; reflexivity].
  - right. right. exact H.
Qed.

(** X3.  The detector returns one of the four candidates or the configured
    string itself; on [auto] it is always one of the four candidates, so
    the name shown for a detected delimiter is never Custom. *)
Theorem detectDelimiter_candidate (sample configured : jsstring) :
  (In (detectDelimiter sample configured) delimiters
   \/ detectDelimiter sample configured = configured)
  /\ In (detectDelimiter sample (lit "auto")) delimiters
  /\ In (getDelimiterName (detectDelimiter sample (lit "auto")))
        [lit "Comma"; lit "Semicolon"; lit "Tab"; lit "Pipe"].
Proof.
  assert (Hauto : In (detectDelimiter sample (lit "auto")) delimiters).
  { rewrite detectDelimiter_auto. cbv zeta.
    match goal with
    | |- In (fst (fold_left pickStep ?es ?b)) _ =>
        destruct (pick_among es b) as [H|H]
    end.
    - rewrite H. left. reflexivity.
    - exact H. }
  split; [|split; [exact Hauto|]].
  - unfold detectDelimiter at 1 2.
    destruct (negb (JS.eqb configured (lit "auto"))) eqn:E.
    + destruct (JS.eqb configured (lit "\t")); [|right; reflexivity].
      left. right. right. left. reflexivity.
    + left. unfold detectDelimiter in Hauto.
      change (negb (JS.eqb (lit "auto") (lit "auto"))) with false in Hauto.
      exact Hauto.
  - destruct Hauto as [<-|[<-|[<-|[<-|[]]]]]; vm_compute; tauto.
Qed.

(** The scan leaves the count alone where no code unit of the line other
    than a quote is the delimiter. *)
Lemma countFrom_none (delimiter : jsstring) :
  forall line,
    (forall c, In c line -> c <> QUOTE -> JS.eqb [c] delimiter = false) ->
    forall inQuotes count, countFrom line delimiter inQuotes count = count.
Proof.
  assert (H : forall n line, (length line <= n)%nat ->
            (forall c, In c line -> c <> QUOTE ->
                       JS.eqb [c] delimiter = false) ->
            forall inQuotes count,
              countFrom line delimiter inQuotes count = count).
  { induction n as [|n IH]; intros [|c rest] Hlen Hd inQuotes count;
      cbn [countFrom length] in *; try lia; try reflexivity.
    destruct (N.eqb_spec c QUOTE) as [->|Hc].
    - destruct rest as [|d rest'].
      + reflexivity.
      + destruct (N.eqb d QUOTE); apply IH; cbn [length] in *; try lia;
          intros x Hx; apply Hd; simpl; tauto.
    - rewrite (Hd c (or_introl eq_refl) Hc). cbn [andb].
      apply IH; [lia|]. intros x Hx. apply Hd. right. exact Hx. }
  intros line. apply (H (length line)). apply Nat.le_refl.
Qed.

Lemma countFrom_le (line delimiter : jsstring) :
  forall inQuotes count,
    countFrom line delimiter inQuotes count <= count + len line.
Proof.
  unfold len.
  assert (H : forall n line, (length line <= n)%nat ->
            forall inQuotes count,
              countFrom line delimiter inQuotes count
              <= count + Z.of_nat (length line)).
  { induction n as [|n IH]; intros [|c rest] Hlen inQuotes count;
      cbn [countFrom length] in *; try lia.
    destruct (N.eqb c QUOTE).
    - destruct rest as [|d rest'].
      + cbn [countFrom]. lia.
      + destruct (N.eqb d QUOTE);
          (etransitivity; [apply IH; cbn [length] in *; lia|]);
          cbn [length]; lia.
    - destruct (JS.eqb [c] delimiter && negb inQuotes);
        (etransitivity; [apply IH; lia|]); lia. }
  intros. apply (H (length line)). apply Nat.le_refl.
Qed.

Lemma eqb_single (c d : char) : JS.eqb [c] [d] = N.eqb c d.
Proof. simpl. apply andb_true_r. Qed.

Lemma eqb_length (s t : jsstring) :
  JS.eqb s t = true -> length s = length t.
Proof.
  revert t. induction s as [|c s IH]; intros [|d t]; simpl;
    try discriminate; [reflexivity|].
  intros H. apply andb_prop in H. destruct H as (_ & H).
  f_equal. apply IH, H.
Qed.

(** X4.  The count of a delimiter in a line lies between 0 and the length
    of the line, and it is 0 for a delimiter that is not a single code
    unit, for the quote itself, and for a code unit the line does not
    hold. *)
Theorem countDelimiterOccurrences_bounds (line delimiter : jsstring) :
  0 <= countDelimiterOccurrences line delimiter <= len line
  /\ (length delimiter <> 1%nat ->
      countDelimiterOccurrences line delimiter = 0)
  /\ countDelimiterOccurrences line [QUOTE] = 0
  /\ (forall c, ~ In c line -> countDelimiterOccurrences line [c] = 0).
Proof.
  unfold countDelimiterOccurrences. repeat split.
  - apply countFrom_ge.
  - apply (countFrom_le line delimiter false 0).
  - intros Hd. apply countFrom_none. intros c _ _.
    destruct (JS.eqb [c] delimiter) eqn:E; [|reflexivity].
    apply eqb_length in E. simpl in E. congruence.
  - apply countFrom_none. intros c _ Hc. rewrite eqb_single.
    apply N.eqb_neq, Hc.
  - intros c Hc. apply countFrom_none. intros x Hx _. rewrite eqb_single.
    apply N.eqb_neq. intros ->. exact (Hc Hx).
Qed.

(** Over a stretch without quotes the scan counts every occurrence when
    outside quotes and none when inside. *)
Lemma countFrom_plain (c : char) (a rest : jsstring) :
  ~ In QUOTE a ->
  forall inQuotes count,
    countFrom (a ++ rest) [c] inQuotes count
    = countFrom rest [c] inQuotes
        (count + if inQuotes then 0
                 else Z.of_nat (length (filter (N.eqb c) a))).
Proof.
  induction a as [|x a IH]; intros Hq inQuotes count.
  - cbn [app filter length]. destruct inQuotes; f_equal; lia.
  - cbn [app countFrom]. destruct (N.eqb_spec x QUOTE) as [->|_].
    + exfalso. apply Hq. left. reflexivity.
    + rewrite eqb_single, (N.eqb_sym x c). cbn [filter].
      assert (Hq' : ~ In QUOTE a) by (intros H; apply Hq; right; exact H).
      destruct inQuotes, (N.eqb c x); cbn [andb negb length];
        rewrite (IH Hq'); f_equal; lia.
Qed.

Lemma split_go_length (c : char) (s : jsstring) :
  forall cur,
    length (split_go [c] s O cur) = S (length (filter (N.eqb c) s)).
Proof.
  induction s as [|x s IH]; intros cur; [reflexivity|].
  cbn [split_go filter]. rewrite startsWith_single.
  destruct (N.eqb c x); cbn [length pred]; rewrite IH; reflexivity.
Qed.

(** X5.  In a line without quotes every occurrence of the delimiter is
    counted, and the count is one less than the number of pieces the line
    splits into at the delimiter. *)
Theorem countDelimiterOccurrences_plain (line : jsstring) (c : char) :
  ~ In QUOTE line ->
  countDelimiterOccurrences line [c]
  = Z.of_nat (length (filter (N.eqb c) line))
  /\ Z.of_nat (length (split [c] line))
     = countDelimiterOccurrences line [c] + 1.
Proof.
  intros Hq.
  assert (E : countDelimiterOccurrences line [c]
              = Z.of_nat (length (filter (N.eqb c) line))).
  { unfold countDelimiterOccurrences.
    rewrite <- (app_nil_r line) at 1. rewrite countFrom_plain by exact Hq.
    reflexivity. }
  split; [exact E|]. rewrite E. unfold split.
  rewrite split_go_length. lia.
Qed.

Lemma countDelimiterOccurrences_plain_witness :
  countDelimiterOccurrences (lit "a,b,c") [COMMA]
  = Z.of_nat (length (filter (N.eqb COMMA) (lit "a,b,c")))
  /\ Z.of_nat (length (split [COMMA] (lit "a,b,c")))
     = countDelimiterOccurrences (lit "a,b,c") [COMMA] + 1.
Proof.
  apply (countDelimiterOccurrences_plain (lit "a,b,c") COMMA).
  vm_compute. intros H. repeat (destruct H as [H|H]; [discriminate H|]).
  exact H.
Defined.

Lemma countFrom_quote (next : char) (rest delimiter : jsstring)
      (inQuotes : bool) (count : Z) :
  countFrom (QUOTE :: next :: rest) delimiter inQuotes count
  = if N.eqb next QUOTE then countFrom rest delimiter inQuotes count
    else countFrom (next :: rest) delimiter (negb inQuotes) count.
Proof. reflexivity. Qed.

Lemma countFrom_plain_all (c : char) (a : jsstring) (inQuotes : bool)
      (count : Z) :
  ~ In QUOTE a ->
  countFrom a [c] inQuotes count
  = count + if inQuotes then 0
            else Z.of_nat (length (filter (N.eqb c) a)).
Proof.
  intros Ha. rewrite <- (app_nil_r a) at 1.
  rewrite countFrom_plain by exact Ha. reflexivity.
Qed.

(** X6.  Delimiters between a pair of quotes are not counted: for
    quote-free stretches [a], [b] and [c], the count of the line [a],
    quote, [b], quote, [c] is the number of occurrences in [a] and in
    [c]. *)
Theorem countDelimiterOccurrences_quoted (a b c : jsstring) (d : char) :
  ~ In QUOTE a -> ~ In QUOTE b -> ~ In QUOTE c ->
  countDelimiterOccurrences (a ++ QUOTE :: b ++ QUOTE :: c) [d]
  = countDelimiterOccurrences a [d] + countDelimiterOccurrences c [d].
Proof.
  intros Ha Hb Hc. unfold countDelimiterOccurrences.
  rewrite countFrom_plain by exact Ha.
  rewrite (countFrom_plain_all d a false 0 Ha).
  rewrite (countFrom_plain_all d c false 0 Hc). rewrite !Z.add_0_l.
  set (na := Z.of_nat (length (filter (N.eqb d) a))).
  assert (Hclose : forall n,
            countFrom (QUOTE :: c) [d] true n
            = n + Z.of_nat (length (filter (N.eqb d) c))).
  { intros n. destruct c as [|y c]; [simpl; lia|].
    rewrite countFrom_quote. destruct (N.eqb_spec y QUOTE) as [->|_].
    - exfalso. apply Hc. left. reflexivity.
    - apply (countFrom_plain_all d (y :: c) false n Hc). }
  destruct b as [|x b].
  - cbn [app]. rewrite countFrom_quote, N.eqb_refl.
    apply (countFrom_plain_all d c false na Hc).
  - cbn [app]. rewrite countFrom_quote.
    destruct (N.eqb_spec x QUOTE) as [->|_].
    + exfalso. apply Hb. left. reflexivity.
    + change (x :: b ++ QUOTE :: c) with ((x :: b) ++ QUOTE :: c).
      rewrite countFrom_plain by exact Hb. cbn [negb].
      rewrite Hclose. lia.
Qed.

Lemma countDelimiterOccurrences_quoted_witness :
  countDelimiterOccurrences
    (lit "x,y," ++ QUOTE :: lit "a,b" ++ QUOTE :: lit ",z") [COMMA]
  = countDelimiterOccurrences (lit "x,y,") [COMMA]
    + countDelimiterOccurrences (lit ",z") [COMMA].
Proof.
  apply (countDelimiterOccurrences_quoted (lit "x,y,") (lit "a,b")
           (lit ",z") COMMA);
    vm_compute; intros H;
    repeat (destruct H as [H|H]; [discriminate H|]); exact H.
Defined.

(** ** Tables of plain fields: the round trip through [parseCSV] *)

Import Tables.

Lemma In_join (sep : jsstring) (l : list jsstring) (x : char) :
  In x (join sep l) -> In x sep \/ exists p, In p l /\ In x p.
Proof.
  induction l as [|p l IH]; [intros []|].
  destruct l as [|q l].
  - cbn [join]. intros H. right. exists p. split; [left; reflexivity|exact H].
  - rewrite join_cons by discriminate. intros H.
    apply in_app_or in H. destruct H as [H|H].
    + right. exists p. split; [left; reflexivity|exact H].
    + apply in_app_or in H. destruct H as [H|H]; [left; exact H|].
      destruct (IH H) as [H'|(r & Hr & Hx)]; [left; exact H'|].
      right. exists r. split; [right; exact Hr|exact Hx].
Qed.

(** A code unit of the text of a table is the delimiter, the line feed,
    or a code unit of a field. *)
Lemma In_render (d : char) (grid : list (list jsstring)) (x : char) :
  In x (render d grid) ->
  x = LF \/ x = d
  \/ exists row field, In row grid /\ In field row /\ In x field.
Proof.
  unfold render. intros H. apply In_join in H.
  destruct H as [[<-|[]]|(line & Hl & Hx)]; [left; reflexivity|].
  apply in_map_iff in Hl. destruct Hl as (row & <- & Hrow).
  apply In_join in Hx. destruct Hx as [[<-|[]]|(field & Hf & Hx)];
    [right; left; reflexivity|].
  right. right. exists row, field. tauto.
Qed.

Lemma plainRow_line (d : char) (row : list jsstring) :
  d <> LF -> plainRow d row ->
  ~ In LF (join [d] row) /\ split [d] (join [d] row) = row.
Proof.
  intros Hd (Hne & Hf & _). rewrite Forall_forall in Hf. split.
  - intros H. apply In_join in H.
    destruct H as [[E|[]]|(field & Hfield & Hx)]; [congruence|].
    destruct (Hf field Hfield) as (_ & _ & _ & Hl). exact (Hl Hx).
  - apply split_join; [exact Hne|].
    intros p Hp. apply (Hf p Hp).
Qed.

Lemma filter_all (A : Type) (f : A -> bool) (l : list A) :
  (forall x, In x l -> f x = true) -> filter f l = l.
Proof.
  induction l as [|a l IH]; intros H; [reflexivity|]. cbn [filter].
  rewrite (H a (or_introl eq_refl)). f_equal. apply IH.
  intros x Hx. apply H. right. exact Hx.
Qed.

Lemma In_firstn (A : Type) (l : list A) (n : nat) (x : A) :
  In x (firstn n l) -> In x l.
Proof.
  intros H. rewrite <- (firstn_skipn n l). apply in_or_app. left. exact H.
Qed.

Lemma not_bad_delimiter (d : char) :
  ~ In d [CR; LF; QUOTE; BYTE_ORDER_MARK] ->
  existsb (JS.eqb [d]) Papa.BAD_DELIMITERS = false.
Proof.
  intros Hbad. unfold Papa.BAD_DELIMITERS. cbn [existsb JS.eqb].
  rewrite !andb_true_r.
  repeat match goal with
         | |- context [N.eqb d ?c] =>
             destruct (N.eqb_spec d c) as [->|_];
             [exfalso; apply Hbad; simpl; tauto|]
         end.
  reflexivity.
Qed.

(** The records [Papa.parse] gives for the text of a table of plain rows:
    the rows, the first [p] of them under a cap [p > 0]. *)
Lemma parse_plain_table (guess : Papa.Guesser) (d : char)
      (grid : list (list jsstring)) (p : Z) :
  ~ In d [CR; LF; QUOTE; BYTE_ORDER_MARK] ->
  grid <> [] -> Forall (plainRow d) grid ->
  Papa.stripBom (render d grid) = render d grid ->
  0 <= p ->
  Papa.parse guess (render d grid)
    {| Papa.delimiter := Some [d]; Papa.skipEmptyLines := true;
       Papa.preview := p |}
  = {| Papa.data := if p =? 0 then grid else firstn (Z.to_nat p) grid;
       Papa.errors := [] |}.
Proof.
  intros Hbad Hne Hrows Hbom Hp.
  assert (HdLF : d <> LF) by (intros ->; apply Hbad; simpl; tauto).
  rewrite Forall_forall in Hrows.
  unfold Papa.parse.
  cbn [Papa.delimiter Papa.skipEmptyLines Papa.preview truthy].
  rewrite Hbom. set (text := render d grid).
  assert (Hin : forall x, In x text -> x = LF \/ x = d
            \/ exists row field, In row grid /\ In field row /\ In x field)
    by apply In_render.
  assert (Hq : ~ In QUOTE text).
  { intros H. destruct (Hin _ H) as [E|[E|(row & f & Hr & Hf & Hx)]].
    - discriminate E.
    - apply Hbad. rewrite <- E. simpl. tauto.
    - destruct (Hrows row Hr) as (_ & Hfs & _).
      rewrite Forall_forall in Hfs.
      destruct (Hfs f Hf) as (_ & Hfq & _). exact (Hfq Hx). }
  assert (Hr : ~ In CR text).
  { intros H. destruct (Hin _ H) as [E|[E|(row & f & Hrow & Hf & Hx)]].
    - discriminate E.
    - apply Hbad. rewrite <- E. simpl. tauto.
    - destruct (Hrows row Hrow) as (_ & Hfs & _).
      rewrite Forall_forall in Hfs.
      destruct (Hfs f Hf) as (_ & _ & Hfr & _). exact (Hfr Hx). }
  rewrite (guessLineEndings_LF _ Hq Hr), (not_bad_delimiter d Hbad).
  assert (Hlines : split [LF] text = map (join [d]) grid).
  { apply split_join.
    - destruct grid; [congruence|discriminate].
    - intros line Hl. apply in_map_iff in Hl.
      destruct Hl as (row & <- & Hrow).
      apply (plainRow_line d row HdLF (Hrows row Hrow)). }
  assert (Hgrid : map (split [d]) (split [LF] text) = grid).
  { rewrite Hlines, map_map. rewrite <- (map_id grid) at 2.
    apply map_ext_in. intros row Hrow.
    apply (plainRow_line d row HdLF (Hrows row Hrow)). }
  assert (Htext : truthy text = true).
  { destruct text eqn:E; [exfalso|reflexivity].
    destruct grid as [|row grid]; [congruence|].
    cbn [map split] in Hlines. destruct grid as [|row' grid];
      [|discriminate Hlines].
    injection Hlines as Hl.
    destruct (Hrows row (or_introl eq_refl)) as (Hrne & Hfs & Hb).
    pose proof (proj2 (plainRow_line d row HdLF
                         (Hrows row (or_introl eq_refl)))) as Hs.
    rewrite <- Hl in Hs. cbn in Hs. subst row. apply Hb. reflexivity. }
  assert (Hkeep : forall n,
            filter (fun r => negb (Papa.testEmptyLine r)) (firstn n grid)
            = firstn n grid).
  { intros n. apply filter_all. intros row Hrow.
    apply In_firstn in Hrow. destruct (Hrows row Hrow) as (_ & _ & Hb).
    unfold Papa.testEmptyLine. rewrite (not_blank_truthy _ Hb).
    reflexivity. }
  unfold Papa.parserParse. rewrite Htext, (indexOf_absent QUOTE _ Hq).
  change (-1 =? -1) with true. cbn [negb Papa.data Papa.errors].
  f_equal. destruct (Z.eqb_spec p 0) as [->|Hp0].
  - rewrite fastRows_uncapped. cbn [app]. rewrite Hgrid.
    rewrite <- (firstn_all grid). apply Hkeep.
  - rewrite (fastRows_prefix [d] p) by (simpl; lia). cbn [app].
    rewrite Hgrid. apply Hkeep.
Qed.

Lemma hd_firstn (A : Type) (a : A) (l : list A) (k : nat) :
  hd a (firstn (S k) l) = hd a l.
Proof. destruct l; reflexivity. Qed.

Lemma parseCSV_plain (guess : Papa.Guesser) (d : char)
      (grid : list (list jsstring)) (cap : Z) :
  ~ In d [CR; LF; QUOTE; BYTE_ORDER_MARK] ->
  grid <> [] -> Forall (plainRow d) grid ->
  Papa.stripBom (render d grid) = render d grid ->
  let shown := if 0 <? cap then firstn (Z.to_nat cap) (tl grid)
               else tl grid in
  parseCSV guess (render d grid) (capped [d] cap)
  = {| CsvParser.data := shown; CsvParser.headers := hd [] grid;
       CsvParser.totalRows := Z.of_nat (length shown);
       CsvParser.errors := [] |}.
Proof.
  intros Hbad Hne Hrows Hbom. cbv zeta. unfold parseCSV, capped.
  cbn [CsvParser.delimiter maxRows skipEmptyLines orDefault].
  rewrite parse_plain_table
    by first [assumption | destruct (Z.ltb_spec 0 cap); lia].
  cbn [Papa.data Papa.errors map]. rewrite slice_tail.
  destruct (Z.ltb_spec 0 cap) as [Hc|Hc].
  - destruct (Z.eqb_spec (cap + 1) 0) as [?|_]; [lia|].
    replace (Z.to_nat (cap + 1)) with (S (Z.to_nat cap)) by lia.
    rewrite tl_firstn. cbn [pred].
    destruct grid as [|row grid]; [congruence|]. reflexivity.
  - cbn [Z.eqb]. destruct grid as [|row grid]; [congruence|]. reflexivity.
Qed.

(** Discharges [plainRow] and the like on a concrete table. *)
Ltac concrete_table :=
  repeat first [ progress intros | apply Forall_cons | apply Forall_nil
               | split ];
  vm_compute; try discriminate; try reflexivity; try lia;
  try (intros H; repeat (destruct H as [H|H]; [discriminate H|]);
       exact H).

(** X7.  The round trip of a table.  Take rows of fields that hold neither
    the delimiter nor a quote nor a line break, each row with at least one
    field and not blank as a whole, a delimiter other than CR, LF, the
    quote and the byte-order mark, and write the table as text, fields
    joined by the delimiter and rows by line feeds, not starting with a
    byte-order mark.  Then [parseCSV] gives the first row as headers and
    the following rows as data, all of them without a cap and the first
    [maxRows] of them under a cap [maxRows > 0], and no error. *)
Theorem parseCSV_plain_table :
  forall (guess : Papa.Guesser) (d : char) (grid : list (list jsstring))
         (cap : Z),
    ~ In d [CR; LF; QUOTE; BYTE_ORDER_MARK] ->
    grid <> [] -> Forall (plainRow d) grid ->
    Papa.stripBom (render d grid) = render d grid ->
    let table := parseCSV guess (render d grid) (capped [d] cap) in
    CsvParser.headers table = hd [] grid
    /\ CsvParser.data table
       = (if 0 <? cap then firstn (Z.to_nat cap) (tl grid) else tl grid)
    /\ CsvParser.totalRows table
       = Z.of_nat (length (CsvParser.data table))
    /\ CsvParser.errors table = [].
Proof.
  intros guess d grid cap Hbad Hne Hrows Hbom. cbv zeta.
  rewrite (parseCSV_plain guess d grid cap Hbad Hne Hrows Hbom).
  repeat split.
Qed.

Lemma parseCSV_plain_table_witness :
  let grid := [[lit "id"; lit "name"]; [lit "1"; []]; [lit "2"; lit "b c"];
               [lit "3"; lit "d"]] in
  let table := parseCSV Sample.noGuess (render COMMA grid)
                        (capped [COMMA] 2) in
  CsvParser.headers table = [lit "id"; lit "name"]
  /\ CsvParser.data table = [[lit "1"; []]; [lit "2"; lit "b c"]]
  /\ CsvParser.totalRows table = 2
  /\ CsvParser.errors table = [].
Proof.
  cbv zeta.
  pose proof (parseCSV_plain_table Sample.noGuess COMMA
                [[lit "id"; lit "name"]; [lit "1"; []];
                 [lit "2"; lit "b c"]; [lit "3"; lit "d"]] 2) as H.
  cbv zeta in H.
  destruct H as (H1 & H2 & H3 & H4); [concrete_table ..|].
  rewrite H1, H3, H2, H4. repeat split.
Defined.

(** ** The provider *)

(** What [loadCsvFile] posts for a file within the size limit. *)
Lemma loadCsvFile_eq (guess : Papa.Guesser) (webview : Webview)
      (fileName : jsstring) (size : Z) (text configDelimiter : jsstring)
      (cap : Z) :
  size <= maxFileSize ->
  let table := tableOf guess text configDelimiter cap in
  loadCsvFile guess webview fileName size text configDelimiter cap
  = webview ++
    [if negb (truthy text) || (len (trim text) =? 0)
     then error (lit "File is empty")
     else if negb (valid (validateCSV table))
     then error (match reason (validateCSV table) with
                 | Some m => if truthy m then m
                             else lit "Invalid CSV format"
                 | None => lit "Invalid CSV format"
                 end)
     else csvData
            {| headers := CsvParser.headers table;
               rows := CsvParser.data table;
               totalRows := Z.of_nat (length (CsvParser.data table));
               estimatedTotal := estimateRowCount text;
               delimiter :=
                 getDelimiterName
                   (detectDelimiter (getSample text 10) configDelimiter);
               fileName := fileName;
               fileSize := size;
               hasMore :=
                 cap <=? Z.of_nat (length (CsvParser.data table)) |}].
Proof.
  intros Hsize. cbv zeta. unfold loadCsvFile, showError, postMessage.
  destruct (Z.ltb_spec maxFileSize size) as [?|_]; [lia|].
  fold (capped (detectDelimiter (getSample text 10) configDelimiter) cap).
  fold (tableOf guess text configDelimiter cap).
  destruct (negb (truthy text) || (len (trim text) =? 0)); [reflexivity|].
  destruct (negb (valid (validateCSV (tableOf guess text configDelimiter cap))));
    [reflexivity|].
  destruct (parseCSV_shape guess text
              (capped (detectDelimiter (getSample text 10) configDelimiter)
                      cap)) as (_ & _ & E).
  unfold tableOf. rewrite E. reflexivity.
Qed.

Lemma In_join_intro (sep p : jsstring) (l : list jsstring) (x : char) :
  In p l -> In x p -> In x (join sep l).
Proof.
  induction l as [|q l IH]; [intros []|]. intros Hp Hx.
  destruct l as [|r l].
  - destruct Hp as [->|[]]. exact Hx.
  - rewrite join_cons by discriminate. destruct Hp as [->|Hp].
    + apply in_or_app. left. exact Hx.
    + apply in_or_app. right. apply in_or_app. right. apply IH; assumption.
Qed.

Lemma render_not_blank (d : char) (grid : list (list jsstring))
      (row : list jsstring) :
  In row grid -> ~ blank (join [] row) -> ~ blank (render d grid).
Proof.
  intros Hrow Hb B. apply Hb. rewrite blank_iff in *.
  rewrite Forall_forall in *. intros x Hx. apply B.
  apply In_join in Hx. destruct Hx as [[]|(field & Hf & Hx)].
  unfold render. apply (In_join_intro _ (join [d] row)).
  - apply in_map. exact Hrow.
  - apply (In_join_intro _ field); assumption.
Qed.

Lemma detectDelimiter_single (sample : jsstring) (d : char) :
  detectDelimiter sample [d] = [d].
Proof.
  unfold detectDelimiter. cbn [lit list_ascii_of_string map JS.eqb].
  rewrite !andb_false_r. reflexivity.
Qed.

Lemma filter_none (A : Type) (f : A -> bool) (l : list A) :
  (forall x, In x l -> f x = false) -> filter f l = [].
Proof.
  induction l as [|a l IH]; intros H; [reflexivity|]. cbn [filter].
  rewrite (H a (or_introl eq_refl)). apply IH.
  intros x Hx. apply H. right. exact Hx.
Qed.

Lemma rectangular_consistent (grid : list (list jsstring))
      (table : ParseResult) :
  rectangular grid ->
  CsvParser.headers table = hd [] grid ->
  (forall row, In row (CsvParser.data table) -> In row grid) ->
  inconsistent table = 0%nat.
Proof.
  intros Hrect Hh Hd. unfold inconsistent, rectangular in *.
  rewrite Forall_forall in Hrect. rewrite filter_none; [reflexivity|].
  intros row Hrow. rewrite Hh, (Hrect row (Hd row Hrow)).
  rewrite Nat.eqb_refl. reflexivity.
Qed.

(** X8.  A rectangular table of plain rows with a header row and at least
    one more row, written as text and loaded with its delimiter
    configured, is posted as it is: the first row as headers, the
    following rows (the first [maxRows] of them under a cap) as rows,
    [totalRows] their number, and [hasMore] set when that number reaches
    the cap. *)
Theorem loadCsvFile_plain_table :
  forall (guess : Papa.Guesser) (webview : Webview) (fileName : jsstring)
         (size : Z) (d : char) (grid : list (list jsstring)) (cap : Z),
    size <= maxFileSize ->
    ~ In d [CR; LF; QUOTE; BYTE_ORDER_MARK] ->
    Forall (plainRow d) grid -> rectangular grid ->
    (2 <= length grid)%nat -> Z.of_nat (length grid) <= 2 ^ 32 ->
    Papa.stripBom (render d grid) = render d grid ->
    let shown := if 0 <? cap then firstn (Z.to_nat cap) (tl grid)
                 else tl grid in
    loadCsvFile guess webview fileName size (render d grid) [d] cap
    = webview ++
      [csvData
         {| headers := hd [] grid;
            rows := shown;
            totalRows := Z.of_nat (length shown);
            estimatedTotal := estimateRowCount (render d grid);
            delimiter := getDelimiterName [d];
            fileName := fileName;
            fileSize := size;
            hasMore := cap <=? Z.of_nat (length shown) |}].
Proof.
  intros guess webview fileName size d grid cap Hsize Hbad Hrows Hrect
         Hlen Hmax Hbom. cbv zeta.
  destruct grid as [|header [|row1 rest]]; cbn [length] in Hlen; try lia.
  set (grid := header :: row1 :: rest) in *.
  assert (Hne : grid <> []) by discriminate.
  rewrite (loadCsvFile_eq guess webview fileName size _ _ cap Hsize).
  unfold tableOf. rewrite detectDelimiter_single.
  rewrite (parseCSV_plain guess d grid cap Hbad Hne Hrows Hbom).
  set (shown := if 0 <? cap then firstn (Z.to_nat cap) (tl grid)
                else tl grid).
  set (table := {| CsvParser.data := shown |}).
  assert (Hheader : plainRow d header)
    by (apply (proj1 (Forall_forall _ _) Hrows); left; reflexivity).
  assert (Hnb : ~ blank (render d grid)).
  { apply (render_not_blank d grid header); [left; reflexivity|].
    apply Hheader. }
  pose proof (blank_dec (render d grid)) as Hdec.
  destruct (negb (truthy (render d grid)) || (len (trim (render d grid)) =? 0));
    [exfalso; apply Hnb, Hdec; reflexivity|].
  assert (Hin : forall row, In row shown -> In row grid).
  { intros row Hrow. right. unfold shown in Hrow.
    destruct (0 <? cap); [apply In_firstn in Hrow|]; exact Hrow. }
  assert (Hshown : shown <> []).
  { unfold shown. destruct (Z.ltb_spec 0 cap); [|discriminate].
    cbn [tl]. destruct (Z.to_nat cap) eqn:E; [lia|discriminate]. }
  assert (Hshort : Z.of_nat (length shown) < 2 ^ 32).
  { assert (length shown <= length (tl grid))%nat.
    { unfold shown. destruct (0 <? cap); [rewrite length_firstn|]; lia. }
    unfold grid in *. cbn [tl length] in *. lia. }
  rewrite (validateCSV_exact table Hshort).
  cbn [CsvParser.headers CsvParser.data table hd grid].
  rewrite (rectangular_consistent grid table Hrect eq_refl Hin).
  destruct Hheader as (Hh & _).
  destruct header as [|h0 header]; [congruence|].
  destruct shown as [|s0 shown']; [congruence|].
  reflexivity.
Qed.

Lemma loadCsvFile_plain_table_witness :
  let grid := [[lit "id"; lit "name"]; [lit "1"; []]; [lit "2"; lit "b c"];
               [lit "3"; lit "d"]] in
  loadCsvFile Sample.noGuess [] (lit "t.csv") 29 (render COMMA grid)
              [COMMA] 2
  = [] ++
    [csvData
       {| headers := [lit "id"; lit "name"];
          rows := [[lit "1"; []]; [lit "2"; lit "b c"]];
          totalRows := 2;
          estimatedTotal := estimateRowCount (render COMMA grid);
          delimiter := lit "Comma";
          fileName := lit "t.csv";
          fileSize := 29;
          hasMore := true |}].
Proof.
  cbv zeta.
  apply (loadCsvFile_plain_table Sample.noGuess [] (lit "t.csv") 29 COMMA
           [[lit "id"; lit "name"]; [lit "1"; []]; [lit "2"; lit "b c"];
            [lit "3"; lit "d"]] 2);
    concrete_table.
Defined.

(** X9.  On such a table [loadMoreRows] posts exactly the next rows: the
    data rows from index [currentRows] on, up to 5000 of them, and
    [hasMore] tells whether the table has at least [currentRows + 5000]
    data rows. *)
Theorem loadMoreRows_plain_table :
  forall (guess : Papa.Guesser) (webview : Webview) (d : char)
         (grid : list (list jsstring)) (currentRows : Z),
    0 <= currentRows ->
    ~ In d [CR; LF; QUOTE; BYTE_ORDER_MARK] ->
    grid <> [] -> Forall (plainRow d) grid ->
    Papa.stripBom (render d grid) = render d grid ->
    loadMoreRows guess webview (render d grid) [d] currentRows
    = webview ++
      [moreRows (firstn 5000 (skipn (Z.to_nat currentRows) (tl grid)))
                (currentRows + 5000 <=? Z.of_nat (length (tl grid)))].
Proof.
  intros guess webview d grid c Hc Hbad Hne Hrows Hbom.
  rewrite loadMoreRows_eq by exact Hc. cbv zeta. unfold tableOf.
  rewrite detectDelimiter_single.
  rewrite (parseCSV_plain guess d grid (c + 5000) Hbad Hne Hrows Hbom).
  cbn [CsvParser.data].
  destruct (Z.ltb_spec 0 (c + 5000)) as [_|?]; [|lia].
  rewrite skipn_firstn_comm, length_firstn.
  replace (Z.to_nat (c + 5000) - Z.to_nat c)%nat with 5000%nat by lia.
  do 3 f_equal.
  destruct (Z.leb_spec (c + 5000) (Z.of_nat (length (tl grid))));
    destruct (Z.leb_spec (c + 5000)
                (Z.of_nat (Nat.min (Z.to_nat (c + 5000))
                                   (length (tl grid)))));
    try reflexivity; lia.
Qed.

Lemma loadMoreRows_plain_table_witness :
  let grid := [[lit "id"]; [lit "r0"]; [lit "r1"]; [lit "r2"]] in
  loadMoreRows Sample.noGuess [] (render COMMA grid) [COMMA] 1
  = [] ++ [moreRows [[lit "r1"]; [lit "r2"]] false].
Proof.
  cbv zeta.
  apply (loadMoreRows_plain_table Sample.noGuess [] COMMA
           [[lit "id"]; [lit "r0"]; [lit "r1"]; [lit "r2"]] 1);
    concrete_table.
Defined.

(** ** Caps *)

(** The records under a cap are a prefix of the records under any larger
    cap. *)
Lemma parse_cap_mono (guess : Papa.Guesser) (input : jsstring)
      (del : option jsstring) (sk : bool) (p q : Z) :
  0 < p <= q ->
  exists k,
    Papa.data (Papa.parse guess input
                 {| Papa.delimiter := del; Papa.skipEmptyLines := sk;
                    Papa.preview := p |})
    = firstn k
        (Papa.data (Papa.parse guess input
                      {| Papa.delimiter := del; Papa.skipEmptyLines := sk;
                         Papa.preview := q |})).
Proof.
  intros Hpq. destruct (parse_factor guess input del sk)
    as (d & nl & inp & derr & E).
  rewrite !E. cbn [Papa.data].
  rewrite (parserParse_prefix d nl inp p), (parserParse_prefix d nl inp q)
    by lia.
  set (raw := Papa.data (Papa.parserParse d nl 0 inp)).
  replace (firstn (Z.to_nat p) raw)
    with (firstn (Z.to_nat p) (firstn (Z.to_nat q) raw)).
  - apply kept_firstn_prefix.
  - rewrite firstn_firstn. f_equal. lia.
Qed.

Lemma firstn_own_length (A : Type) (l : list A) (k : nat) :
  firstn k l = firstn (length (firstn k l)) l.
Proof.
  rewrite length_firstn. destruct (Nat.le_gt_cases k (length l)).
  - rewrite Nat.min_l by lia. reflexivity.
  - rewrite Nat.min_r by lia. rewrite firstn_all. apply firstn_all2. lia.
Qed.

(** The data rows under any cap are a prefix of all the data rows. *)
Lemma parseCSV_prefix (guess : Papa.Guesser) (text delim : jsstring)
      (cap : Z) :
  exists k,
    CsvParser.data (parseCSV guess text (capped delim cap))
    = firstn k (CsvParser.data (parseCSV guess text (capped delim 0))).
Proof.
  destruct (parseCSV_shape guess text (capped delim cap)) as (_ & -> & _).
  destruct (parseCSV_shape guess text (capped delim 0)) as (_ & -> & _).
  cbn [capped maxRows skipEmptyLines CsvParser.delimiter orDefault].
  change (0 <? 0) with false. cbv iota.
  destruct (Z.ltb_spec 0 cap) as [Hc|Hc].
  - destruct (parse_capped guess text (Some delim) true (cap + 1))
      as (_ & k & E); [lia|].
    cbv zeta in E. rewrite E, tl_firstn. eexists. reflexivity.
  - eexists. symmetry. apply firstn_all.
Qed.

Lemma parseCSV_cap_mono (guess : Papa.Guesser) (text delim : jsstring)
      (m n : Z) :
  0 < m <= n ->
  exists k,
    CsvParser.data (parseCSV guess text (capped delim m))
    = firstn k (CsvParser.data (parseCSV guess text (capped delim n))).
Proof.
  intros Hmn.
  destruct (parseCSV_shape guess text (capped delim m)) as (_ & -> & _).
  destruct (parseCSV_shape guess text (capped delim n)) as (_ & -> & _).
  cbn [capped maxRows skipEmptyLines CsvParser.delimiter orDefault].
  destruct (Z.ltb_spec 0 m) as [_|?]; [|lia].
  destruct (Z.ltb_spec 0 n) as [_|?]; [|lia].
  destruct (parse_cap_mono guess text (Some delim) true (m + 1) (n + 1))
    as (k & E); [lia|].
  rewrite E, tl_firstn. eexists. reflexivity.
Qed.

(** X10.  Raising the cap only appends rows: for caps [0 < m <= n] the
    data rows under [m] are the first rows of the data rows under [n],
    and the headers under [m] are those under [n] unless the parse under
    [m] kept no record at all. *)
Theorem parseCSV_cap_monotone :
  forall (guess : Papa.Guesser) (text delim : jsstring) (m n : Z),
    0 < m <= n ->
    let small := parseCSV guess text (capped delim m) in
    let large := parseCSV guess text (capped delim n) in
    CsvParser.data small
    = firstn (length (CsvParser.data small)) (CsvParser.data large)
    /\ (CsvParser.headers small = CsvParser.headers large
        \/ (CsvParser.headers small = [] /\ CsvParser.data small = [])).
Proof.
  intros guess text delim m n Hmn. cbv zeta. split.
  - destruct (parseCSV_cap_mono guess text delim m n Hmn) as (k & E).
    rewrite E. apply firstn_own_length.
  - destruct (parseCSV_shape guess text (capped delim m)) as (-> & -> & _).
    destruct (parseCSV_shape guess text (capped delim n)) as (-> & _ & _).
    cbn [capped maxRows skipEmptyLines CsvParser.delimiter orDefault].
    destruct (Z.ltb_spec 0 m) as [_|?]; [|lia].
    destruct (Z.ltb_spec 0 n) as [_|?]; [|lia].
    destruct (parse_cap_mono guess text (Some delim) true (m + 1) (n + 1))
      as (k & E); [lia|].
    rewrite E. destruct k as [|k]; [right; split; reflexivity|].
    left. apply hd_firstn.
Qed.

Lemma parseCSV_cap_monotone_witness :
  let small := parseCSV Sample.noGuess Sample.fiveRows (capped [COMMA] 2) in
  let large := parseCSV Sample.noGuess Sample.fiveRows (capped [COMMA] 4) in
  CsvParser.data small
  = firstn (length (CsvParser.data small)) (CsvParser.data large)
  /\ (CsvParser.headers small = CsvParser.headers large
      \/ (CsvParser.headers small = [] /\ CsvParser.data small = [])).
Proof.
  apply (parseCSV_cap_monotone Sample.noGuess Sample.fiveRows [COMMA] 2 4).
  lia.
Defined.

(** ** What the provider posts *)

(** A table is posted only for a file within the size limit whose text is
    not blank and passes the validator; the message is then made of the
    parsed table. *)
Lemma loadCsvFile_posted (guess : Papa.Guesser) (webview : Webview)
      (fileName : jsstring) (size : Z) (text configDelimiter : jsstring)
      (cap : Z) (d : CsvData) :
  loadCsvFile guess webview fileName size text configDelimiter cap
  = webview ++ [csvData d] ->
  let table := tableOf guess text configDelimiter cap in
  size <= maxFileSize /\ ~ blank text
  /\ valid (validateCSV table) = true
  /\ d = {| headers := CsvParser.headers table;
            rows := CsvParser.data table;
            totalRows := Z.of_nat (length (CsvParser.data table));
            estimatedTotal := estimateRowCount text;
            delimiter :=
              getDelimiterName
                (detectDelimiter (getSample text 10) configDelimiter);
            fileName := fileName;
            fileSize := size;
            hasMore := cap <=? Z.of_nat (length (CsvParser.data table)) |}.
Proof.
  cbv zeta. intros H.
  assert (Hsize : size <= maxFileSize).
  { destruct (Z.le_gt_cases size maxFileSize) as [Hle|Hgt]; [exact Hle|].
    exfalso. unfold loadCsvFile, showError, postMessage in H.
    destruct (Z.ltb_spec maxFileSize size) as [_|?]; [|lia].
    apply app_inv_head in H. discriminate H. }
  rewrite (loadCsvFile_eq guess webview fileName size text configDelimiter
             cap Hsize) in H.
  cbv zeta in H. apply app_inv_head in H.
  pose proof (blank_dec text) as Hb.
  destruct (negb (truthy text) || (len (trim text) =? 0));
    [discriminate H|].
  destruct (valid (validateCSV (tableOf guess text configDelimiter cap)));
    cbn [negb] in H; [|discriminate H].
  injection H as <-. repeat split; try assumption.
  intros B. apply Hb in B. discriminate B.
Qed.

Lemma validateCSV_valid (table : ParseResult) :
  valid (validateCSV table) = true ->
  CsvParser.headers table <> [] /\ CsvParser.data table <> [].
Proof.
  unfold validateCSV.
  destruct (CsvParser.headers table) as [|h hs];
    [intros H; discriminate H|].
  destruct (CsvParser.data table) as [|r rs]; [intros H; discriminate H|].
  intros _. split; discriminate.
Qed.

(** X11.  Whenever [loadCsvFile] posts a table, the table has at least one
    header and one row, [totalRows] is the number of rows, and the file is
    within the size limit.  Under a cap [maxRows > 0] there are at most
    [maxRows] rows and [hasMore] is set exactly when there are [maxRows]
    of them; without a cap ([maxRows <= 0]) [hasMore] is always set.  And
    if there are fewer than 2^32 rows, at most a tenth of them differ from
    the headers in their number of fields. *)
Theorem loadCsvFile_posts_sound_table :
  forall (guess : Papa.Guesser) (webview : Webview) (fileName : jsstring)
         (size : Z) (text configDelimiter : jsstring) (cap : Z)
         (d : CsvData),
    loadCsvFile guess webview fileName size text configDelimiter cap
    = webview ++ [csvData d] ->
    let n := Z.of_nat (length (rows d)) in
    headers d <> [] /\ rows d <> [] /\ totalRows d = n
    /\ fileSize d = size /\ size <= maxFileSize
    /\ (0 < cap -> n <= cap /\ (hasMore d = true <-> n = cap))
    /\ (cap <= 0 -> hasMore d = true)
    /\ (n < 2 ^ 32 ->
        10 * Z.of_nat
               (length
                  (filter (fun row =>
                             negb (length row =? length (headers d))%nat)
                          (rows d)))
        <= n).
Proof.
  intros guess webview fileName size text configDelimiter cap d H.
  apply loadCsvFile_posted in H. cbv zeta in H.
  destruct H as (Hsize & _ & Hvalid & ->).
  set (table := tableOf guess text configDelimiter cap) in *.
  cbn [headers rows totalRows fileSize hasMore].
  destruct (validateCSV_valid table Hvalid) as (Hh & Hd).
  repeat split; try assumption.
  - apply (parseCSV_cap guess text _ cap H).
  - intros E. apply Z.leb_le in E.
    pose proof (parseCSV_cap guess text
                  (detectDelimiter (getSample text 10) configDelimiter)
                  cap H) as Hle.
    fold (tableOf guess text configDelimiter cap) in Hle. fold table in Hle.
    lia.
  - intros E. apply Z.leb_le. lia.
  - intros Hc. apply Z.leb_le. lia.
  - intros Hn. rewrite (validateCSV_exact table Hn) in Hvalid.
    destruct (length (CsvParser.headers table) =? 0)%nat;
      [discriminate Hvalid|].
    destruct (length (CsvParser.data table) =? 0)%nat;
      [discriminate Hvalid|].
    fold (inconsistent table).
    destruct (Nat.ltb_spec (length (CsvParser.data table))
                           (10 * inconsistent table));
      [discriminate Hvalid|lia].
Qed.

Lemma loadCsvFile_posts_sound_table_witness :
  let d := {| headers := [lit "id"];
              rows := [[lit "r0"]; [lit "r1"]; [lit "r2"]];
              totalRows := 3;
              estimatedTotal := estimateRowCount Sample.fiveRows;
              delimiter := lit "Comma";
              fileName := lit "t.csv";
              fileSize := 17;
              hasMore := true |} in
  let n := Z.of_nat (length (rows d)) in
  headers d <> [] /\ rows d <> [] /\ totalRows d = n
  /\ fileSize d = 17 /\ 17 <= maxFileSize
  /\ (0 < 3 -> n <= 3 /\ (hasMore d = true <-> n = 3))
  /\ (3 <= 0 -> hasMore d = true)
  /\ (n < 2 ^ 32 ->
      10 * Z.of_nat
             (length
                (filter (fun row =>
                           negb (length row =? length (headers d))%nat)
                        (rows d)))
      <= n).
Proof.
  cbv zeta.
  apply (loadCsvFile_posts_sound_table Sample.noGuess [] (lit "t.csv") 17
           Sample.fiveRows (lit "auto") 3).
  vm_compute. reflexivity.
Defined.

(** ** The provider and the view together *)

Import ViewSpec.

Lemma prefixes_join (A : Type) (l : list A) (j k : nat) :
  exists n,
    firstn j l ++ skipn (length (firstn j l)) (firstn k l) = firstn n l.
Proof.
  rewrite (firstn_own_length A l j).
  set (c := length (firstn j l)).
  assert (Hc : (c <= length l)%nat)
    by (unfold c; rewrite length_firstn; lia).
  rewrite length_firstn, Nat.min_l by exact Hc.
  destruct (Nat.le_gt_cases c k) as [H|H].
  - exists k. replace (firstn c l) with (firstn c (firstn k l)).
    + apply firstn_skipn.
    + rewrite firstn_firstn, Nat.min_l by exact H. reflexivity.
  - exists c. rewrite skipn_all2; [apply app_nil_r|].
    rewrite length_firstn. lia.
Qed.

Lemma tableOf_uncapped (guess : Papa.Guesser) (text configured : jsstring)
      (cap : Z) :
  cap <= 0 ->
  tableOf guess text configured cap = tableOf guess text configured 0.
Proof.
  intros Hc. unfold tableOf, parseCSV, capped.
  cbn [CsvParser.delimiter maxRows skipEmptyLines orDefault].
  destruct (Z.ltb_spec 0 cap) as [?|_]; [lia|]. reflexivity.
Qed.

(** X12.  One round of Load More.  The view has received the table that
    [loadCsvFile] posted and asks for more with the number of rows it
    holds; [loadMoreRows] answers on the same text and settings, and the
    view appends the answer.  Then the rows of the view are the first rows
    of the whole table in their order, none missing and none twice; if
    the first cap is at most the rows held plus 5000 they are the data
    rows of a parse under the cap of the second request; without a first
    cap nothing is added; and the view shows all its rows and counts
    them in [totalRows]. *)
Theorem load_more_round :
  forall (toLowerCase : jsstring -> jsstring) (guess : Papa.Guesser)
         (webview : Webview) (fileName : jsstring) (size : Z)
         (text configDelimiter : jsstring) (cap : Z) (d : CsvData)
         (st0 : View.State),
    loadCsvFile guess webview fileName size text configDelimiter cap
    = webview ++ [csvData d] ->
    let st1 := View.receive toLowerCase (csvData d) st0 in
    let held := View.loadMoreRequest st1 in
    exists newRows more,
      loadMoreRows guess (webview ++ [csvData d]) text configDelimiter held
      = webview ++ [csvData d; moreRows newRows more]
      /\ let st2 := View.receive toLowerCase (moreRows newRows more) st1 in
         let all := rows (View.csvData st2) in
         (exists k,
             all = firstn k (CsvParser.data
                               (tableOf guess text configDelimiter 0)))
         /\ (0 < cap <= held + 5000 ->
             all = CsvParser.data
                     (tableOf guess text configDelimiter (held + 5000)))
         /\ (cap <= 0 -> all = rows d)
         /\ View.filteredRows st2 = all
         /\ totalRows (View.csvData st2) = Z.of_nat (length all).
Proof.
  intros lower guess webview fileName size text configDelimiter cap d st0 H.
  apply loadCsvFile_posted in H. cbv zeta in H.
  destruct H as (_ & _ & _ & ->). cbv zeta.
  unfold View.loadMoreRequest.
  cbn [View.receive View.handleCsvData View.csvData rows].
  set (D1 := CsvParser.data (tableOf guess text configDelimiter cap)).
  set (c := Z.of_nat (length D1)).
  rewrite loadMoreRows_eq by lia. cbv zeta.
  set (D2 := CsvParser.data (tableOf guess text configDelimiter (c + 5000))).
  do 2 eexists. split; [rewrite <- app_assoc; reflexivity|].
  unfold View.handleMoreRows, View.handleCsvData.
  cbn [View.csvData View.searchTerm truthy rows totalRows View.filteredRows].
  replace (Z.to_nat c) with (length D1) by (unfold c; lia).
  set (W := CsvParser.data (tableOf guess text configDelimiter 0)).
  destruct (parseCSV_prefix guess text
              (detectDelimiter (getSample text 10) configDelimiter) cap)
    as (k1 & E1).
  destruct (parseCSV_prefix guess text
              (detectDelimiter (getSample text 10) configDelimiter)
              (c + 5000)) as (k2 & E2).
  fold (tableOf guess text configDelimiter cap) in E1.
  fold (tableOf guess text configDelimiter (c + 5000)) in E2.
  fold (tableOf guess text configDelimiter 0) in E1, E2.
  fold D1 in E1. fold D2 in E2. fold W in E1, E2.
  repeat split.
  - rewrite E1, E2. apply prefixes_join.
  - intros Hcap.
    destruct (parseCSV_cap_mono guess text
                (detectDelimiter (getSample text 10) configDelimiter)
                cap (c + 5000) Hcap) as (k & E).
    fold (tableOf guess text configDelimiter cap) in E.
    fold (tableOf guess text configDelimiter (c + 5000)) in E.
    fold D1 D2 in E. rewrite E at 1.
    rewrite (firstn_own_length _ D2 k), <- E.
    apply firstn_skipn.
  - intros Hcap. rewrite skipn_all2; [apply app_nil_r|].
    unfold D1 at 1. rewrite (tableOf_uncapped guess text _ cap Hcap).
    fold W. rewrite E2, length_firstn. lia.
Qed.

Lemma load_more_round_witness :
  let d := {| headers := [lit "id"];
              rows := [[lit "r0"]; [lit "r1"]; [lit "r2"]];
              totalRows := 3;
              estimatedTotal := estimateRowCount Sample.fiveRows;
              delimiter := lit "Comma";
              fileName := lit "t.csv";
              fileSize := 17;
              hasMore := true |} in
  let st1 := View.receive (fun s => s) (csvData d) View.initial in
  let held := View.loadMoreRequest st1 in
  exists newRows more,
    loadMoreRows Sample.noGuess ([] ++ [csvData d]) Sample.fiveRows
                 (lit "auto") held
    = [] ++ [csvData d; moreRows newRows more]
    /\ let st2 := View.receive (fun s => s) (moreRows newRows more) st1 in
       let all := rows (View.csvData st2) in
       (exists k,
           all = firstn k (CsvParser.data
                             (tableOf Sample.noGuess Sample.fiveRows
                                      (lit "auto") 0)))
       /\ (0 < 3 <= held + 5000 ->
           all = CsvParser.data
                   (tableOf Sample.noGuess Sample.fiveRows (lit "auto")
                            (held + 5000)))
       /\ (3 <= 0 -> all = rows d)
       /\ View.filteredRows st2 = all
       /\ totalRows (View.csvData st2) = Z.of_nat (length all).
Proof.
  cbv zeta.
  apply (load_more_round (fun s => s) Sample.noGuess [] (lit "t.csv") 17
           Sample.fiveRows (lit "auto") 3).
  vm_compute. reflexivity.
Defined.

(** ** The view *)

Section ViewProperties.

Variable toLowerCase : jsstring -> jsstring.

Local Abbreviation consistent := (ViewSpec.consistent toLowerCase).
Local Abbreviation shown := (ViewSpec.shown toLowerCase).

Lemma applySearch_shown (term : jsstring) (st : View.State) :
  View.filteredRows (View.applySearch toLowerCase term st)
  = shown term (rows (View.csvData st)).
Proof.
  unfold View.applySearch, ViewSpec.shown. cbn [View.filteredRows].
  destruct (truthy term); reflexivity.
Qed.

Lemma handle_consistent (st : View.State) (ev : View.Event) :
  (forall d, ev = View.message (csvData d) ->
             totalRows d = Z.of_nat (length (rows d))) ->
  consistent st -> consistent (View.handle toLowerCase st ev).
Proof.
  intros Hev (Htotal & Hshown). destruct ev as [[d|newRows more|m]|value].
  - split; [apply (Hev d eq_refl)|reflexivity].
  - cbn [View.handle View.receive]. unfold View.handleMoreRows.
    cbn [View.searchTerm].
    destruct (truthy (View.searchTerm st)) eqn:E.
    + split; [reflexivity|]. rewrite applySearch_shown. reflexivity.
    + split; [reflexivity|]. unfold ViewSpec.shown.
      cbn [View.filteredRows View.searchTerm View.csvData rows].
      rewrite E. reflexivity.
  - split; assumption.
  - cbn [View.handle]. unfold View.handleSearch. split.
    + exact Htotal.
    + rewrite applySearch_shown. reflexivity.
Qed.

Lemma initial_consistent : consistent View.initial.
Proof. split; reflexivity. Qed.

Lemma run_consistent (events : list View.Event) :
  forall st,
    (forall d, In (View.message (csvData d)) events ->
               totalRows d = Z.of_nat (length (rows d))) ->
    consistent st -> consistent (View.run toLowerCase events st).
Proof.
  induction events as [|ev events IH]; intros st Hev Hst; [exact Hst|].
  cbn [View.run fold_left]. apply IH.
  - intros d Hd. apply Hev. right. exact Hd.
  - apply handle_consistent; [|exact Hst].
    intros d ->. apply Hev. left. reflexivity.
Qed.

(** X13.  The view stays consistent.  Start the script and let it handle
    any sequence of provider messages and search inputs in which every
    table message is one that [loadCsvFile] posted.  Then [totalRows] is
    the number of rows the view holds, and the rows it shows are the rows
    its search term selects: all rows when the term is empty, else the
    rows with a cell holding the term. *)
Theorem view_stays_consistent :
  forall events : list View.Event,
    (forall d, In (View.message (csvData d)) events ->
       exists guess webview fileName size text configDelimiter cap,
         loadCsvFile guess webview fileName size text configDelimiter cap
         = webview ++ [csvData d]) ->
    let st := View.run toLowerCase events View.initial in
    totalRows (View.csvData st)
    = Z.of_nat (length (rows (View.csvData st)))
    /\ View.filteredRows st
       = shown (View.searchTerm st) (rows (View.csvData st)).
Proof.
  intros events Hev. apply run_consistent; [|apply initial_consistent].
  intros d Hd.
  destruct (Hev d Hd)
    as (guess & webview & fileName & size & text & cfg & cap & H).
  apply loadCsvFile_posted in H. cbv zeta in H.
  destruct H as (_ & _ & _ & ->). reflexivity.
Qed.

End ViewProperties.

(** ** The table body *)

Section ScreenProperties.

Variable toLowerCase : jsstring -> jsstring.

Local Abbreviation render := (Screen.renderVirtualRows toLowerCase).











End ScreenProperties.

Lemma view_stays_consistent_witness :
  let d := {| headers := [lit "id"];
              rows := [[lit "r0"]; [lit "r1"]; [lit "r2"]];
              totalRows := 3;
              estimatedTotal := estimateRowCount Sample.fiveRows;
              delimiter := lit "Comma";
              fileName := lit "t.csv";
              fileSize := 17;
              hasMore := true |} in
  let events := [View.message (csvData d); View.input (lit " r1 ");
                 View.message (moreRows [[lit "r3"]; [lit "r11"]] false)] in
  let st := View.run (fun s => s) events View.initial in
  totalRows (View.csvData st)
  = Z.of_nat (length (rows (View.csvData st)))
  /\ View.filteredRows st
     = ViewSpec.shown (fun s => s) (View.searchTerm st)
         (rows (View.csvData st)).
Proof.
  cbv zeta. apply (view_stays_consistent (fun s => s)).
  intros d [E|[E|[E|[]]]]; try discriminate E.
  injection E as <-.
  exists Sample.noGuess, [], (lit "t.csv"), 17, Sample.fiveRows,
    (lit "auto"), 3.
  vm_compute. reflexivity.
Defined.

(** ** Blank text *)

Lemma split_go_chars (sep s : jsstring) :
  forall skip cur piece x,
    In piece (split_go sep s skip cur) -> In x piece ->
    In x cur \/ In x s.
Proof.
  induction s as [|c s IH]; intros skip cur piece x Hp Hx.
  - destruct Hp as [<-|[]]. left. exact Hx.
  - cbn [split_go] in Hp. destruct skip as [|k].
    + destruct (startsWith sep (c :: s)).
      * destruct Hp as [<-|Hp]; [left; exact Hx|].
        destruct (IH _ _ _ _ Hp Hx) as [[]|H]. right. right. exact H.
      * destruct (IH _ _ _ _ Hp Hx) as [H|H].
        -- apply in_app_or in H. destruct H as [H|[<-|[]]];
             [left; exact H|right; left; reflexivity].
        -- right. right. exact H.
    + destruct (IH _ _ _ _ Hp Hx) as [H|H]; [left; exact H|].
      right. right. exact H.
Qed.

(** The pieces of a split hold code units of the text only. *)
Lemma split_chars (sep s piece : jsstring) (x : char) :
  In piece (split sep s) -> In x piece -> In x s.
Proof.
  unfold split. destruct sep as [|c sep].
  - intros Hp Hx. apply in_map_iff in Hp. destruct Hp as (y & <- & Hy).
    destruct Hx as [<-|[]]. exact Hy.
  - intros Hp Hx. destruct (split_go_chars _ _ _ _ _ _ Hp Hx) as [[]|H].
    exact H.
Qed.

Lemma parserParse_blank (d nl inp : jsstring) (p : Z) :
  0 <= p -> blank inp ->
  forall row,
    In row (Papa.data (Papa.parserParse d nl p inp)) ->
    Papa.testEmptyLine row = true.
Proof.
  intros Hp Hb row Hrow.
  assert (H0 : In row (Papa.data (Papa.parserParse d nl 0 inp))).
  { destruct (Z.eq_dec p 0) as [->|Hne]; [exact Hrow|].
    rewrite parserParse_prefix in Hrow by lia.
    apply In_firstn in Hrow. exact Hrow. }
  clear Hrow. rewrite blank_iff, Forall_forall in Hb.
  unfold Papa.parserParse in H0.
  destruct (truthy inp); cbn [negb Papa.data] in H0; [|destruct H0].
  assert (Hq : ~ In QUOTE inp).
  { intros H. apply Hb in H. discriminate H. }
  rewrite (indexOf_absent QUOTE inp Hq) in H0.
  change (-1 =? -1) with true in H0. cbn [Papa.data] in H0.
  rewrite fastRows_uncapped in H0. cbn [app] in H0.
  apply in_map_iff in H0. destruct H0 as (line & <- & Hline).
  unfold Papa.testEmptyLine.
  assert (B : blank (join [] (split d line))).
  { apply blank_iff, Forall_forall. intros x Hx. apply Hb.
    apply In_join in Hx. destruct Hx as [[]|(piece & Hpiece & Hx)].
    apply (split_chars nl inp line x Hline).
    apply (split_chars d line piece x Hpiece Hx). }
  unfold blank in B. rewrite B. reflexivity.
Qed.

Lemma stripBom_blank (s : jsstring) : blank s -> blank (Papa.stripBom s).
Proof.
  rewrite !blank_iff. unfold Papa.stripBom. destruct s as [|c s]; [auto|].
  intros H. destruct (N.eqb c BYTE_ORDER_MARK); [|exact H].
  inversion H. assumption.
Qed.

Lemma parse_blank (guess : Papa.Guesser) (text : jsstring)
      (del : option jsstring) (p : Z) :
  0 <= p -> blank text ->
  Papa.data (Papa.parse guess text
               {| Papa.delimiter := del; Papa.skipEmptyLines := true;
                  Papa.preview := p |}) = [].
Proof.
  intros Hp Hb. unfold Papa.parse.
  cbn [Papa.delimiter Papa.skipEmptyLines Papa.preview].
  match goal with
  | |- context [let '(a, b) := ?x in _] => destruct x as [d derr]
  end.
  cbn [Papa.data]. apply filter_none. intros row Hrow.
  rewrite (parserParse_blank _ _ _ p Hp (stripBom_blank text Hb) row Hrow).
  reflexivity.
Qed.

(** X15.  Blank text has no table: when empty lines are skipped, which is
    the default, [parseCSV] gives a text of white space only no headers
    and no rows, whatever the delimiter and the cap, and the validator
    rejects the result for having no headers. *)
Theorem parseCSV_blank_text :
  forall (guess : Papa.Guesser) (text : jsstring) (options : ParseOptions),
    blank text ->
    orDefault (skipEmptyLines options) true = true ->
    let table := parseCSV guess text options in
    CsvParser.headers table = [] /\ CsvParser.data table = []
    /\ CsvParser.totalRows table = 0
    /\ validateCSV table = {| valid := false; reason := Some noHeaders |}.
Proof.
  intros guess text options Hb Hskip. cbv zeta.
  assert (E : CsvParser.headers (parseCSV guess text options) = []
              /\ CsvParser.data (parseCSV guess text options) = []).
  { destruct (parseCSV_shape guess text options) as (-> & -> & _).
    rewrite Hskip, parse_blank; [split; reflexivity| |exact Hb].
    destruct (Z.ltb_spec 0 (orDefault (maxRows options) 10000)); lia. }
  destruct E as (Eh & Ed).
  destruct (parseCSV_shape guess text options) as (_ & _ & Et).
  cbv zeta in Et. rewrite Et, Ed. repeat split; try assumption.
  unfold validateCSV. rewrite Eh. reflexivity.
Qed.

Lemma parseCSV_blank_text_witness :
  let table := parseCSV Sample.noGuess [32%N; LF; TAB; 32%N; LF]
                        (capped [COMMA] 10) in
  CsvParser.headers table = [] /\ CsvParser.data table = []
  /\ CsvParser.totalRows table = 0
  /\ validateCSV table = {| valid := false; reason := Some noHeaders |}.
Proof.
  apply (parseCSV_blank_text Sample.noGuess [32%N; LF; TAB; 32%N; LF]
           (capped [COMMA] 10)); reflexivity.
Defined.

(** ** The estimate on short texts *)

(** Shifting out zero bits is exact. *)
Lemma iter_shr_exact (n : positive) :
  forall m,
    iter_pos shr_1 n
      {| shr_m := Z.pos (Pos.iter xO m n); shr_r := false; shr_s := false |}
    = {| shr_m := Z.pos m; shr_r := false; shr_s := false |}.
Proof.
  induction n as [n IH|n IH|]; intros m; cbn [iter_pos Pos.iter].
  - cbn [shr_1 orb]. rewrite IH, IH. reflexivity.
  - rewrite IH, IH. reflexivity.
  - reflexivity.
Qed.

(** The product of 1 and a double is that double. *)
Lemma mul_one (m : positive) (e : Z) :
  Z.pos (digits2_pos m) = 53 -> -400 <= e <= 400 ->
  mul (ofZ 1) (S754_finite false m e) = S754_finite false m e.
Proof.
  intros D He. rewrite ofZ_one. unfold mul. cbn [SFmul xorb].
  change (4503599627370496 * m)%positive with (Pos.iter xO m 52).
  pose proof (digits2_bounds m) as B. rewrite D in B.
  assert (Dp : Z.pos (digits2_pos (Pos.iter xO m 52)) = 105).
  { apply digits2_unique. rewrite iter_xO.
    change (2 ^ (105 - 1)) with (2 ^ (53 - 1) * 2 ^ 52).
    change (2 ^ 105) with (2 ^ 53 * 2 ^ 52). lia. }
  unfold binary_round_aux, shr_fexp. cbn [Zdigits2]. rewrite Dp.
  rewrite fexp_normal by lia.
  replace (105 + (-52 + e) - 53 - (-52 + e)) with 52 by lia.
  cbn [shr shr_record_of_loc]. rewrite iter_shr_exact.
  cbn [shr_m loc_of_shr_record round_nearest_even Zdigits2].
  rewrite D, fexp_normal by lia.
  replace (53 + (-52 + e + 52) - 53 - (-52 + e + 52)) with 0 by lia.
  cbn [shr shr_m].
  destruct (Z.leb_spec (-52 + e + 52) (emax - prec)) as [_|H];
    [|unfold emax, prec in H; lia].
  f_equal. lia.
Qed.

(** The quotient of a double by itself is 1. *)
Lemma div_self (m : positive) (e : Z) :
  Z.pos (digits2_pos m) = 53 -> -400 <= e <= 400 ->
  div (S754_finite false m e) (S754_finite false m e) = ofZ 1.
Proof.
  intros D He. rewrite ofZ_one. unfold div. cbn [SFdiv xorb].
  unfold SFdiv_core_binary. cbn [Zdigits2]. rewrite D.
  rewrite fexp_normal by lia.
  replace (Z.min (53 + e - (53 + e) - 53) (e - e)) with (-53) by lia.
  replace (e - e - -53) with 53 by lia.
  cbv iota. rewrite Z.shiftl_mul_pow2 by lia.
  pose proof (Z.div_eucl_eq (Z.pos m * 2 ^ 53) (Z.pos m)) as Hq.
  pose proof (Z.mod_pos_bound (Z.pos m * 2 ^ 53) (Z.pos m)) as Hr.
  unfold Z.modulo in Hr.
  destruct (Z.div_eucl (Z.pos m * 2 ^ 53) (Z.pos m)) as [q r].
  specialize (Hq ltac:(lia)). specialize (Hr ltac:(lia)).
  assert (Eq : q = 2 ^ 53 /\ r = 0).
  { assert (Z.pos m * (2 ^ 53 - q) = r) by lia.
    destruct (Z.lt_trichotomy q (2 ^ 53)) as [H1|[H1|H1]]; [|lia|]; nia. }
  destruct Eq as (-> & ->).
  replace (new_location (Z.pos m) 0) with loc_Exact
    by (unfold new_location; destruct (Z.even (Z.pos m)); reflexivity).
  reflexivity.
Qed.

Lemma Math_floor_ofZ (n : Z) :
  0 < n < 2 ^ 53 -> Math_floor (ofZ n) = ofZ n.
Proof.
  intros Hn. destruct (ofZ_normal n Hn) as (m & e & E & D & He & Hm).
  unfold Math_floor. rewrite E. cbn [JS.floor]. rewrite <- E.
  destruct (Z.leb_spec 0 e).
  - replace e with 0 in * by lia. f_equal. simpl in Hm. lia.
  - f_equal. rewrite Hm. apply Z.div_mul.
    pose proof (pow2_pos (- e)). lia.
Qed.

Lemma substring_whole (s : jsstring) : substring s 0 (len s) = s.
Proof.
  unfold substring, len. set (n := Z.of_nat (length s)).
  replace (Z.max 0 (Z.min 0 n)) with 0 by lia.
  replace (Z.max 0 (Z.min n n)) with n by lia.
  replace (Z.min 0 n) with 0 by lia. replace (Z.max 0 n) with n by lia.
  simpl skipn. unfold n. rewrite Z.sub_0_r, Nat2Z.id. apply firstn_all.
Qed.

(** X16.  For a text of at most 10000 code units the estimate is exact:
    the number of line feeds of the text, and 1 if there is none. *)
Theorem estimateRowCount_short_text :
  forall content : jsstring,
    len content <= 10000 ->
    estimateRowCount content
    = ofZ (Z.max 1 (Z.of_nat (length (filter (N.eqb LF) content)))).
Proof.
  intros content HL. unfold estimateRowCount.
  rewrite Z.min_l by exact HL. rewrite substring_whole.
  set (n := Z.of_nat (length (filter (N.eqb LF) content))).
  assert (Hn : 0 <= n <= len content).
  { unfold n, len. split; [lia|]. apply Nat2Z.inj_le, filter_length_le. }
  destruct (Z.eqb_spec n 0) as [->|Hn0]; [reflexivity|].
  assert (H53 : 10000 < 2 ^ 53) by reflexivity.
  destruct (ofZ_normal (len content)) as (mL & eL & EL & DL & HeL & _);
    [lia|].
  destruct (ofZ_normal n) as (mn & en & En & Dn & Hen & _); [lia|].
  rewrite EL, div_self by (assumption || lia).
  rewrite En, mul_one by (assumption || lia).
  rewrite <- En, Math_floor_ofZ by lia.
  apply Math_max_one. lia.
Qed.

Lemma estimateRowCount_short_text_witness :
  estimateRowCount Sample.fiveRows
  = ofZ (Z.max 1 (Z.of_nat (length (filter (N.eqb LF) Sample.fiveRows)))).
Proof.
  apply (estimateRowCount_short_text Sample.fiveRows).
  vm_compute. discriminate.
Defined.

(** ** How far the estimate is from the exact value *)

(** Rounding to 53 bits moves a mantissa by less than one part in 2^52. *)
Lemma round_near (m : positive) (e : Z) (l : location) :
  let dg := Z.pos (digits2_pos m) in
  let sh := dg - 53 in
  53 <= dg -> -1074 <= e + sh -> e + sh < 971 ->
  exists m3 e3,
    binary_round_aux prec emax false (Z.pos m) e l = S754_finite false m3 e3
    /\ Z.pos (digits2_pos m3) = 53
    /\ e + sh <= e3 <= e + sh + 1
    /\ (2 ^ 52 - 1) * Z.pos m < 2 ^ 52 * (Z.pos m3 * 2 ^ (e3 - e))
    /\ 2 ^ 52 * (Z.pos m3 * 2 ^ (e3 - e)) <= (2 ^ 52 + 1) * Z.pos m.
Proof.
  intros dg sh Hdg Hlo Hhi.
  destruct (round_normal m e l Hdg Hlo Hhi)
    as (m3 & e3 & E & D & Hcase & _).
  fold dg in Hcase. fold sh in Hcase.
  exists m3, e3. split; [exact E|]. split; [exact D|].
  pose proof (digits2_bounds m) as B. fold dg in B.
  set (P := 2 ^ sh).
  assert (HP : 0 < P) by (apply pow2_pos; lia).
  assert (HB : 2 ^ 52 * P <= Z.pos m).
  { unfold P. rewrite <- Z.pow_add_r by lia.
    replace (52 + sh) with (dg - 1) by lia. apply B. }
  pose proof (Z.div_mod (Z.pos m) P ltac:(lia)) as Hdm.
  pose proof (Z.mod_pos_bound (Z.pos m) P HP) as Hmod.
  fold P in Hcase. set (q := Z.pos m / P) in *.
  set (QP := P * q) in *.
  change (2 ^ 52) with 4503599627370496 in *.
  destruct Hcase as [(He3 & Hm3)|(He3 & Hm3)].
  - replace (e3 - e) with sh by lia. fold P.
    split; [lia|].
    destruct Hm3 as [Hm3|Hm3]; rewrite Hm3;
      [replace (q * P) with QP by (unfold QP; lia)
      |replace ((q + 1) * P) with (QP + P) by (unfold QP; lia)];
      lia.
  - replace (e3 - e) with (sh + 1) by lia.
    rewrite Z.pow_add_r by lia. fold P. change (2 ^ 1) with 2.
    split; [lia|].
    replace (Z.pos m3 * (P * 2)) with ((2 * Z.pos m3) * P) by lia.
    rewrite Hm3.
    replace ((q + 1) * P) with (QP + P) by (unfold QP; lia). lia.
Qed.

(** The product of two doubles, within one part in 2^52. *)
Lemma mul_near (m1 m2 : positive) (e1 e2 : Z) :
  Z.pos (digits2_pos m1) = 53 -> Z.pos (digits2_pos m2) = 53 ->
  -400 <= e1 <= 400 -> -400 <= e2 <= 400 ->
  exists m3 e3,
    mul (S754_finite false m1 e1) (S754_finite false m2 e2)
    = S754_finite false m3 e3
    /\ Z.pos (digits2_pos m3) = 53
    /\ e1 + e2 + 52 <= e3 <= e1 + e2 + 54
    /\ (2 ^ 52 - 1) * (Z.pos m1 * Z.pos m2)
       < 2 ^ 52 * (Z.pos m3 * 2 ^ (e3 - (e1 + e2)))
    /\ 2 ^ 52 * (Z.pos m3 * 2 ^ (e3 - (e1 + e2)))
       <= (2 ^ 52 + 1) * (Z.pos m1 * Z.pos m2).
Proof.
  intros D1 D2 H1 H2. unfold mul. cbn [SFmul xorb].
  pose proof (digits2_bounds m1) as B1. rewrite D1 in B1.
  pose proof (digits2_bounds m2) as B2. rewrite D2 in B2.
  change (2 ^ (53 - 1)) with (2 ^ 52) in *.
  pose proof (digits2_bounds (m1 * m2)) as BP.
  set (dg := Z.pos (digits2_pos (m1 * m2))) in *.
  assert (HPlo : 2 ^ 104 <= Z.pos (m1 * m2)).
  { rewrite Pos2Z.inj_mul. change (2 ^ 104) with (2 ^ 52 * 2 ^ 52).
    apply Z.mul_le_mono_nonneg; lia. }
  assert (HPhi : Z.pos (m1 * m2) < 2 ^ 106).
  { rewrite Pos2Z.inj_mul. change (2 ^ 106) with (2 ^ 53 * 2 ^ 53).
    apply Z.mul_lt_mono_nonneg; lia. }
  assert (Hdg : dg = 105 \/ dg = 106).
  { assert (104 < dg) by (apply pow2_lt_inv; [unfold dg|]; lia).
    assert (dg - 1 < 106) by (apply pow2_lt_inv; lia). lia. }
  destruct (round_near (m1 * m2) (e1 + e2) loc_Exact)
    as (m3 & e3 & E & D3 & He3 & Hlo & Hhi); fold dg; try lia.
  fold dg in He3. rewrite Pos2Z.inj_mul in Hlo, Hhi.
  exists m3, e3. repeat split; try assumption; lia.
Qed.

(** The quotient of two doubles, within two parts in 2^52 of the exact
    quotient: with [t] the mantissa of the result on the scale of
    [2^(e1 - e2 - 53)], [t * m2] is that close to [m1 * 2^53]. *)
Lemma div_near (m1 m2 : positive) (e1 e2 : Z) :
  Z.pos (digits2_pos m1) = 53 -> Z.pos (digits2_pos m2) = 53 ->
  -400 <= e1 <= 400 -> -400 <= e2 <= 400 ->
  exists m3 e3,
    div (S754_finite false m1 e1) (S754_finite false m2 e2)
    = S754_finite false m3 e3
    /\ Z.pos (digits2_pos m3) = 53
    /\ e1 - e2 - 53 <= e3 <= e1 - e2 - 51
    /\ (2 ^ 52 - 1) * (2 ^ 52 - 1) * (Z.pos m1 * 2 ^ 53)
       < 2 ^ 104 * (Z.pos m3 * 2 ^ (e3 - (e1 - e2 - 53)) * Z.pos m2)
    /\ 2 ^ 52 * (Z.pos m3 * 2 ^ (e3 - (e1 - e2 - 53)) * Z.pos m2)
       <= (2 ^ 52 + 1) * (Z.pos m1 * 2 ^ 53).
Proof.
  intros D1 D2 H1 H2. unfold div. cbn [SFdiv xorb].
  unfold SFdiv_core_binary. cbn [Zdigits2]. rewrite D1, D2.
  rewrite fexp_normal by lia.
  replace (Z.min (53 + e1 - (53 + e2) - 53) (e1 - e2))
    with (e1 - e2 - 53) by lia.
  replace (e1 - e2 - (e1 - e2 - 53)) with 53 by lia.
  cbv iota. rewrite Z.shiftl_mul_pow2 by lia.
  pose proof (digits2_bounds m1) as B1. rewrite D1 in B1.
  pose proof (digits2_bounds m2) as B2. rewrite D2 in B2.
  change (2 ^ (53 - 1)) with (2 ^ 52) in *.
  set (A := Z.pos m1 * 2 ^ 53).
  pose proof (Z.div_eucl_eq A (Z.pos m2)) as Hq.
  pose proof (Z.mod_pos_bound A (Z.pos m2)) as Hr.
  unfold Z.modulo in Hr.
  destruct (Z.div_eucl A (Z.pos m2)) as [q r].
  specialize (Hq ltac:(lia)). specialize (Hr ltac:(lia)).
  assert (HA : A = Z.pos m1 * 9007199254740992) by reflexivity.
  change (2 ^ 52) with 4503599627370496 in *.
  change (2 ^ 53) with 9007199254740992 in *.
  change (2 ^ 104) with (4503599627370496 * 4503599627370496).
  assert (Hqb : 4503599627370496 <= q < 2 * 9007199254740992) by nia.
  destruct q as [|qp|qp]; [lia| |lia].
  pose proof (digits2_bounds qp) as BQ.
  set (dg := Z.pos (digits2_pos qp)) in *.
  assert (Hdg : dg = 53 \/ dg = 54).
  { assert (52 < dg)
      by (apply pow2_lt_inv; [unfold dg; lia|];
          change (2 ^ 52) with 4503599627370496; lia).
    assert (dg - 1 < 54)
      by (apply pow2_lt_inv; [lia|];
          change (2 ^ 54) with (2 * 9007199254740992); lia).
    lia. }
  destruct (round_near qp (e1 - e2 - 53) (new_location (Z.pos m2) r))
    as (m3 & e3 & E & D3 & He3 & Hlo & Hhi); fold dg; try lia.
  fold dg in He3.
  change (2 ^ 52) with 4503599627370496 in *.
  exists m3, e3. split; [exact E|]. split; [exact D3|].
  split; [lia|].
  set (T := Z.pos m3 * 2 ^ (e3 - (e1 - e2 - 53))) in *.
  set (b := Z.pos m2) in *. set (Q := Z.pos qp) in *.
  assert (Hb : 0 < b) by (unfold b; lia).
  assert (HT : 0 <= T).
  { unfold T. apply Z.mul_nonneg_nonneg; [lia|].
    apply Z.pow_nonneg. lia. }
  (* q * b <= A < (q + 1) * b *)
  assert (Hqlo : b * Q <= A) by lia.
  assert (Hqhi : A < b * Q + b) by lia.
  split.
  - (* lower bound *)
    assert (H1' : (4503599627370496 - 1) * (Q + 1)
                  <= 4503599627370496 * Q) by lia.
    assert (H2' : (4503599627370496 - 1) * ((4503599627370496 - 1) * (Q + 1))
                  < 4503599627370496 * (4503599627370496 * T)) by lia.
    assert (H3' : (4503599627370496 - 1) * (4503599627370496 - 1) * A
                  < (4503599627370496 - 1) * (4503599627370496 - 1)
                    * ((Q + 1) * b)).
    { apply Z.mul_lt_mono_pos_l; lia. }
    assert (H4' : (4503599627370496 - 1) * (4503599627370496 - 1)
                    * ((Q + 1) * b)
                  <= 4503599627370496 * 4503599627370496 * (T * b)).
    { replace ((4503599627370496 - 1) * (4503599627370496 - 1)
               * ((Q + 1) * b))
        with (((4503599627370496 - 1)
               * ((4503599627370496 - 1) * (Q + 1))) * b) by lia.
      replace (4503599627370496 * 4503599627370496 * (T * b))
        with ((4503599627370496 * (4503599627370496 * T)) * b) by lia.
      apply Z.mul_le_mono_nonneg_r; lia. }
    lia.
  - (* upper bound *)
    assert (H1' : 4503599627370496 * T * b
                  <= (4503599627370496 + 1) * Q * b).
    { apply Z.mul_le_mono_nonneg_r; lia. }
    assert (H2' : (4503599627370496 + 1) * (Q * b)
                  <= (4503599627370496 + 1) * A).
    { apply Z.mul_le_mono_nonneg_l; lia. }
    lia.
Qed.

(** The arithmetic of the estimate: a quotient [T / G] whose numerator is
    within three parts in 2^52 of [L * n * G / S] has the floor of
    [L * n / S] or one less. *)
Lemma estimate_core (L S n T G : Z) :
  1 <= n <= S -> S <= L -> S <= 10000 -> L < 2 ^ 32 -> 0 < G -> 0 <= T ->
  2 ^ 104 * (T * S) <= (2 ^ 52 + 1) * (2 ^ 52 + 1) * (L * n * G) ->
  (2 ^ 52 - 1) * (2 ^ 52 - 1) * (2 ^ 52 - 1) * (L * n * G)
  < 2 ^ 156 * (T * S) ->
  (L * n) / S - 1 <= T / G <= (L * n) / S
  /\ ((L * n) mod S <> 0 -> T / G = (L * n) / S).
Proof.
  intros Hn HS HS' HL HG HT Hup Hlo.
  set (P := L * n) in *.
  assert (HP : 0 <= P <= 4294967296 * 10000).
  { unfold P. change (2 ^ 32) with 4294967296 in HL. split; [nia|].
    assert (L * n <= 4294967296 * n)
      by (apply Z.mul_le_mono_nonneg_r; lia).
    lia. }
  set (k := P / S).
  pose proof (Z.mul_div_le P S ltac:(lia)) as Hk1. fold k in Hk1.
  pose proof (Z.mul_succ_div_gt P S ltac:(lia)) as Hk2. fold k in Hk2.
  rewrite Z.mul_succ_r in Hk2.
  assert (Hk0 : 0 <= k) by (apply Z.div_pos; lia).
  set (Y := S * k) in *.
  change (2 ^ 104) with 20282409603651670423947251286016 in *.
  change (2 ^ 156)
    with 91343852333181432387730302044767688728495783936 in *.
  change (2 ^ 52) with 4503599627370496 in *.
  replace (P * G) with (G * P) in Hlo, Hup by lia.
  assert (Hupper : T / G <= k).
  { apply Z.lt_succ_r, Z.div_lt_upper_bound; [exact HG|].
    destruct (Z.lt_ge_cases T (G * Z.succ k)) as [H|H]; [exact H|exfalso].
    assert (H1 : G * Z.succ k * S <= T * S)
      by (apply Z.mul_le_mono_nonneg_r; lia).
    replace (G * Z.succ k * S) with (G * (Y + S)) in H1
      by (unfold Y; lia).
    assert (H2 : G * (20282409603651670423947251286016 * (Y + S))
                 <= G * ((4503599627370496 + 1) * (4503599627370496 + 1)
                         * P)) by lia.
    apply Z.mul_le_mono_pos_l in H2; [|exact HG]. lia. }
  split; [split; [|exact Hupper]|].
  - (* k - 1 <= T / G *)
    apply Z.div_le_lower_bound; [exact HG|].
    destruct (Z.le_gt_cases (G * (k - 1)) T) as [H|H]; [exact H|exfalso].
    assert (H1 : T * S <= G * (k - 1) * S)
      by (apply Z.mul_le_mono_nonneg_r; lia).
    replace (G * (k - 1) * S) with (G * (Y - S)) in H1
      by (unfold Y; lia).
    assert (H2 : G * ((4503599627370496 - 1) * (4503599627370496 - 1)
                      * (4503599627370496 - 1) * P)
                 < G * (91343852333181432387730302044767688728495783936
                        * (Y - S))) by lia.
    apply Z.mul_lt_mono_pos_l in H2; [|exact HG]. lia.
  - (* a remainder keeps the quotient in place *)
    intros Hrem. apply Z.le_antisymm; [exact Hupper|].
    pose proof (Z.div_mod P S ltac:(lia)) as Hdm. fold k in Hdm.
    fold Y in Hdm.
    pose proof (Z.mod_pos_bound P S ltac:(lia)) as Hmod.
    apply Z.div_le_lower_bound; [exact HG|].
    destruct (Z.le_gt_cases (G * k) T) as [H|H]; [exact H|exfalso].
    assert (H1 : T * S <= G * k * S)
      by (apply Z.mul_le_mono_nonneg_r; lia).
    replace (G * k * S) with (G * Y) in H1 by (unfold Y; lia).
    assert (H2 : G * ((4503599627370496 - 1) * (4503599627370496 - 1)
                      * (4503599627370496 - 1) * P)
                 < G * (91343852333181432387730302044767688728495783936
                        * Y)) by lia.
    apply Z.mul_lt_mono_pos_l in H2; [|exact HG]. lia.
Qed.

(** The extrapolation in doubles is the exact one or one less. *)
Lemma estimate_near (L S n : Z) :
  1 <= n <= S -> S <= L -> S <= 10000 -> L < 2 ^ 32 ->
  exists z,
    JS.floor (mul (div (ofZ L) (ofZ S)) (ofZ n)) = Some z
    /\ (L * n) / S - 1 <= z <= (L * n) / S
    /\ ((L * n) mod S <> 0 -> z = (L * n) / S).
Proof.
  intros Hn HS HS' HL.
  assert (H32 : 2 ^ 32 < 2 ^ 53) by reflexivity.
  assert (H14 : 10000 < 2 ^ 14) by reflexivity.
  destruct (ofZ_normal L) as (mL & eL & EL & DL & HeL & HmL); [lia|].
  destruct (ofZ_normal S) as (mS & eS & ES & DS & HeS & HmS); [lia|].
  destruct (ofZ_normal n) as (mn & en & En & Dn & Hen & Hmn); [lia|].
  pose proof (ofZ_exponent L 32 mL eL ltac:(lia) ltac:(lia) DL HeL HmL).
  pose proof (ofZ_exponent n 14 mn en ltac:(lia) ltac:(lia) Dn Hen Hmn).
  rewrite EL, ES, En.
  destruct (div_near mL mS eL eS DL DS)
    as (m1 & e1 & E1 & D1 & He1 & Hd1 & Hd2); try lia.
  rewrite E1.
  destruct (mul_near m1 mn e1 en D1 Dn)
    as (m2 & e2 & E2 & D2 & He2 & Hm1 & Hm2); try lia.
  rewrite E2. cbn [JS.floor].
  destruct (Z.leb_spec 0 e2) as [?|Hneg]; [lia|].
  eexists. split; [reflexivity|].
  set (e0 := eL - eS - 53) in *.
  set (g := e0 + en).
  set (G := 2 ^ (- g)).
  set (s1 := 2 ^ (e1 - e0)) in *.
  set (T2 := Z.pos m2 * 2 ^ (e2 - (e1 + en))) in *.
  set (T1 := Z.pos m1 * s1) in *.
  set (T := T2 * s1).
  set (a := Z.pos mL) in *. set (b := Z.pos mS) in *.
  set (c := Z.pos mn) in *. set (x1 := Z.pos m1) in *.
  assert (HG : 0 < G) by (apply pow2_pos; unfold g, e0; lia).
  assert (Hs1 : 0 < s1) by (apply pow2_pos; lia).
  assert (HT2 : 0 <= T2).
  { unfold T2. apply Z.mul_nonneg_nonneg; [lia|].
    apply Z.pow_nonneg. lia. }
  assert (HT : 0 <= T) by (unfold T; apply Z.mul_nonneg_nonneg; lia).
  assert (HT1 : 0 <= T1) by (unfold T1, x1; apply Z.mul_nonneg_nonneg; lia).
  assert (Hb : 0 < b) by (unfold b; lia).
  assert (Hc : 0 < c) by (unfold c; lia).
  (* the floor is T / G *)
  assert (Ez : Z.pos m2 / 2 ^ (- e2) = T / G).
  { unfold T, T2, s1, G.
    rewrite <- Z.mul_assoc, <- Z.pow_add_r by lia.
    replace (e2 - (e1 + en) + (e1 - e0)) with (e2 - g) by (unfold g; lia).
    replace (- g) with (- e2 + (e2 - g)) by lia.
    rewrite (Z.pow_add_r 2 (- e2) (e2 - g)) by (unfold g, e0; lia).
    symmetry. apply Z.div_mul_cancel_r.
    - pose proof (pow2_pos (- e2)). lia.
    - pose proof (pow2_pos (e2 - g)). unfold g, e0 in *. lia. }
  rewrite Ez.
  (* the scales of the three integers *)
  set (Es := 2 ^ (- eS)) in *.
  assert (HEs : 0 < Es) by (apply pow2_pos; lia).
  assert (HW : 2 ^ (- eL) * 2 ^ 53 * 2 ^ (- en) = G * Es).
  { unfold G, Es. rewrite <- !Z.pow_add_r by (unfold g, e0; lia).
    f_equal. unfold g, e0. lia. }
  set (A := a * 2 ^ 53) in *.
  assert (HAc : A * c = L * n * G * Es).
  { unfold A. rewrite HmL, Hmn.
    replace (L * 2 ^ (- eL) * 2 ^ 53 * (n * 2 ^ (- en)))
      with (L * n * (2 ^ (- eL) * 2 ^ 53 * 2 ^ (- en))) by lia.
    rewrite HW. lia. }
  assert (HTb : T * b = T * S * Es) by (rewrite HmS; fold Es; lia).
  change (2 ^ 104) with (4503599627370496 * 4503599627370496) in Hd1.
  change (2 ^ 52) with 4503599627370496 in Hd1, Hd2, Hm1, Hm2.
  fold s1 in Hd1, Hd2. fold T1 in Hd1, Hd2.
  apply (estimate_core L S n T G Hn HS HS' HL HG HT).
  - (* upper *)
    change (2 ^ 104) with (4503599627370496 * 4503599627370496).
    change (2 ^ 52) with 4503599627370496.
    assert (U1 : 4503599627370496 * T2 * s1
                 <= (4503599627370496 + 1) * (x1 * c) * s1)
      by (apply Z.mul_le_mono_nonneg_r; lia).
    assert (U2 : 4503599627370496 * T <= (4503599627370496 + 1) * (T1 * c))
      by (unfold T, T1; lia).
    assert (U3 : 4503599627370496 * T * (4503599627370496 * b)
                 <= (4503599627370496 + 1) * (T1 * c)
                    * (4503599627370496 * b))
      by (apply Z.mul_le_mono_nonneg_r; lia).
    assert (U4 : (4503599627370496 + 1) * c * (4503599627370496 * (T1 * b))
                 <= (4503599627370496 + 1) * c
                    * ((4503599627370496 + 1) * A))
      by (apply Z.mul_le_mono_nonneg_l; lia).
    assert (U5 : 4503599627370496 * 4503599627370496 * (T * b)
                 <= (4503599627370496 + 1) * (4503599627370496 + 1)
                    * (A * c)) by lia.
    rewrite HAc, HTb in U5.
    assert (U6 : Es * (4503599627370496 * 4503599627370496 * (T * S))
                 <= Es * ((4503599627370496 + 1) * (4503599627370496 + 1)
                          * (L * n * G))) by lia.
    apply Z.mul_le_mono_pos_l in U6; [exact U6|exact HEs].
  - (* lower *)
    change (2 ^ 156)
      with (4503599627370496 * 4503599627370496 * 4503599627370496).
    change (2 ^ 52) with 4503599627370496.
    assert (L1 : (4503599627370496 - 1) * (x1 * c) * s1
                 < 4503599627370496 * T2 * s1)
      by (apply Z.mul_lt_mono_pos_r; lia).
    assert (L2 : (4503599627370496 - 1) * (T1 * c) < 4503599627370496 * T)
      by (unfold T, T1; lia).
    assert (L3 : (4503599627370496 - 1) * (4503599627370496 - 1) * A
                 * ((4503599627370496 - 1) * c)
                 < 4503599627370496 * 4503599627370496 * (T1 * b)
                   * ((4503599627370496 - 1) * c))
      by (apply Z.mul_lt_mono_pos_r; lia).
    assert (L4 : 4503599627370496 * 4503599627370496 * b
                 * ((4503599627370496 - 1) * (T1 * c))
                 < 4503599627370496 * 4503599627370496 * b
                   * (4503599627370496 * T))
      by (apply Z.mul_lt_mono_pos_l; lia).
    assert (L5 : (4503599627370496 - 1) * (4503599627370496 - 1)
                 * (4503599627370496 - 1) * (A * c)
                 < 4503599627370496 * 4503599627370496 * 4503599627370496
                   * (T * b)) by lia.
    rewrite HAc, HTb in L5.
    assert (L6 : Es * ((4503599627370496 - 1) * (4503599627370496 - 1)
                       * (4503599627370496 - 1) * (L * n * G))
                 < Es * (4503599627370496 * 4503599627370496
                         * 4503599627370496 * (T * S))) by lia.
    apply Z.mul_lt_mono_pos_l in L6; [exact L6|exact HEs].
Qed.

(** X17.  The estimate against the exact extrapolation
    [max(1, floor(|text| * lineBreaks / |sample|))], for a text of fewer
    than 2^32 code units: the estimate is the exact value or one less, and
    it is the exact value whenever the exact quotient is not a whole
    number. *)
Theorem estimateRowCount_near_exact :
  forall content : jsstring,
    let L := len content in
    let S := Z.min L 10000 in
    let n := Z.of_nat (length (filter (N.eqb LF) (substring content 0 S))) in
    L < 2 ^ 32 ->
    exists z,
      estimateRowCount content = ofZ z
      /\ estimateExact content - 1 <= z <= estimateExact content
      /\ ((L * n) mod S <> 0 -> z = estimateExact content).
Proof.
  intros content L S n HL.
  assert (Hn : 0 <= n <= S).
  { split; [apply Nat2Z.is_nonneg|].
    etransitivity; [|apply (length_substring_le content S)].
    - apply Nat2Z.inj_le, filter_length_le.
    - unfold S, L, len. lia. }
  unfold estimateRowCount, estimateExact. fold L. fold S. fold n.
  destruct (Z.eqb_spec n 0) as [Hn0|Hn0].
  - exists 1. repeat split; try lia.
  - destruct (estimate_floor L S n) as (z & Hz & Hf & HF);
      try (unfold S; lia).
    destruct (estimate_near L S n) as (z' & Hf' & Hb & Hx);
      try (unfold S; lia).
    rewrite Hf in Hf'. injection Hf' as <-.
    exists (Z.max 1 z). rewrite HF. split; [apply Math_max_one, Hz|].
    split; [lia|]. intros Hrem. rewrite (Hx Hrem). reflexivity.
Qed.

Lemma estimateRowCount_near_exact_witness :
  exists z,
    estimateRowCount Sample.longText = ofZ z
    /\ estimateExact Sample.longText - 1 <= z
        <= estimateExact Sample.longText
    /\ ((len Sample.longText
         * Z.of_nat
             (length
                (filter (N.eqb LF)
                   (substring Sample.longText 0
                      (Z.min (len Sample.longText) 10000)))))
        mod Z.min (len Sample.longText) 10000 <> 0 ->
        z = estimateExact Sample.longText).
Proof.
  apply (estimateRowCount_near_exact Sample.longText).
  vm_compute. reflexivity.
Defined.

(** ** Detection on a table of plain fields *)

Lemma split_render (d : char) (grid : list (list jsstring)) :
  d <> LF -> grid <> [] -> Forall (plainRow d) grid ->
  split [LF] (render d grid) = map (join [d]) grid.
Proof.
  intros Hd Hne Hrows. rewrite Forall_forall in Hrows. apply split_join.
  - destruct grid; [congruence|discriminate].
  - intros line Hl. apply in_map_iff in Hl.
    destruct Hl as (row & <- & Hrow).
    apply (plainRow_line d row Hd (Hrows row Hrow)).
Qed.

Lemma plainRow_line_not_blank (d : char) (row : list jsstring) :
  plainRow d row -> truthy (trim (join [d] row)) = true.
Proof.
  intros (_ & _ & Hb). apply not_blank_truthy. intros B. apply Hb.
  rewrite blank_iff, Forall_forall in *. intros x Hx. apply B.
  apply In_join in Hx. destruct Hx as [[]|(field & Hf & Hx)].
  apply (In_join_intro _ field); assumption.
Qed.

(** The occurrences of a code unit in a joined row whose fields do not
    hold it: the separators, if it is the separator. *)
Lemma occurrences_join (c d : char) (row : list jsstring) :
  (forall field, In field row -> ~ In c field) ->
  length (filter (N.eqb c) (join [d] row))
  = if N.eqb c d then pred (length row) else 0%nat.
Proof.
  assert (Hfree : forall f, ~ In c f -> filter (N.eqb c) f = []).
  { intros f Hf. apply filter_none. intros x Hx. apply N.eqb_neq.
    intros ->. exact (Hf Hx). }
  induction row as [|f row IH]; intros Hrow.
  - destruct (N.eqb c d); reflexivity.
  - destruct row as [|g row].
    + cbn [join]. rewrite Hfree by (apply Hrow; left; reflexivity).
      destruct (N.eqb c d); reflexivity.
    + rewrite join_cons by discriminate. rewrite !filter_app, !length_app.
      rewrite Hfree by (apply Hrow; left; reflexivity).
      pose proof (IH (fun x Hx => Hrow x (or_intror Hx))) as E.
      cbn [filter length Nat.add].
      destruct (N.eqb c d); cbn [length Nat.add pred] in *;
        [f_equal|]; exact E.
Qed.

(** The score of a candidate is positive exactly when the first analysed
    line holds it outside quotes. *)
Lemma scoreOf_first (line : jsstring) (lines : list jsstring)
      (delimiter : jsstring) :
  (countDelimiterOccurrences line delimiter = 0 ->
   scoreOf (line :: lines) delimiter = 0)
  /\ (0 < countDelimiterOccurrences line delimiter ->
      0 < scoreOf (line :: lines) delimiter).
Proof.
  unfold scoreOf. cbn [map].
  set (first := countDelimiterOccurrences line delimiter).
  destruct lines as [|l2 rest]; cbn [map]; [split; intros; lia|].
  split; intros H.
  - rewrite H. rewrite andb_false_r. reflexivity.
  - destruct (Z.ltb_spec 0 first) as [_|?]; [|lia].
    destruct (forallb _ _ && true); lia.
Qed.

(** X18.  Detection finds the delimiter of a clean table.  For a table of
    plain rows written with one of the four candidates as delimiter, whose
    header has at least two fields that hold none of the four candidates,
    the detector on [auto] returns that delimiter, on the whole text and
    on the sample of its first ten lines; so the provider parses the text
    with it. *)
Theorem detectDelimiter_plain_table :
  forall (guess : Papa.Guesser) (d : char) (header : list jsstring)
         (rest : list (list jsstring)) (cap : Z),
    In [d] delimiters ->
    Forall (plainRow d) (header :: rest) ->
    (2 <= length header)%nat ->
    (forall field c, In field header -> In [c] delimiters ->
                     ~ In c field) ->
    let text := render d (header :: rest) in
    detectDelimiter text (lit "auto") = [d]
    /\ detectDelimiter (getSample text 10) (lit "auto") = [d]
    /\ tableOf guess text (lit "auto") cap
       = parseCSV guess text (capped [d] cap).
Proof.
  intros guess d header rest cap Hd Hrows Hw Hfree. cbv zeta.
  set (grid := header :: rest) in *.
  assert (HdLF : d <> LF).
  { destruct Hd as [E|[E|[E|[E|[]]]]]; injection E as <-; discriminate. }
  assert (Hlines : sampleLines (render d grid)
                   = map (join [d]) (firstn 5 grid)).
  { unfold sampleLines.
    rewrite split_render by (try assumption; discriminate).
    rewrite slice_prefix by lia. change (Z.to_nat 5) with 5%nat.
    rewrite firstn_map. apply filter_all.
    intros line Hl. apply in_map_iff in Hl.
    destruct Hl as (row & <- & Hrow). apply In_firstn in Hrow.
    apply plainRow_line_not_blank.
    apply (proj1 (Forall_forall _ _) Hrows row Hrow). }
  assert (Hheader : plainRow d header)
    by (apply (proj1 (Forall_forall _ _) Hrows); left; reflexivity).
  assert (Hq : ~ In QUOTE (join [d] header)).
  { destruct Hheader as (_ & Hf & _). rewrite Forall_forall in Hf.
    intros H. apply In_join in H.
    destruct H as [[E|[]]|(field & Hfield & Hx)].
    - subst d. destruct Hd as [E|[E|[E|[E|[]]]]]; discriminate E.
    - destruct (Hf field Hfield) as (_ & Hfq & _). exact (Hfq Hx). }
  assert (Hcount : forall c, In [c] delimiters ->
            countDelimiterOccurrences (join [d] header) [c]
            = if N.eqb c d then Z.of_nat (pred (length header)) else 0).
  { intros c Hc. unfold countDelimiterOccurrences.
    rewrite countFrom_plain_all by exact Hq. rewrite Z.add_0_l.
    rewrite occurrences_join
      by (intros field Hfield; apply (Hfree field c Hfield Hc)).
    destruct (N.eqb c d); reflexivity. }
  assert (Hscore : forall c, In [c] delimiters ->
            (c = d -> 0 < scoreOf (sampleLines (render d grid)) [c])
            /\ (c <> d -> scoreOf (sampleLines (render d grid)) [c] = 0)).
  { intros c Hc. rewrite Hlines. unfold grid. cbn [firstn map].
    destruct (scoreOf_first (join [d] header)
                (map (join [d]) (firstn 4 rest)) [c]) as (H0 & H1).
    rewrite (Hcount c Hc) in H0, H1. split.
    - intros ->. rewrite N.eqb_refl in H1. apply H1. lia.
    - intros Hne. apply N.eqb_neq in Hne. rewrite Hne in H0.
      apply H0. reflexivity. }
  assert (Hdetect : detectDelimiter (render d grid) (lit "auto") = [d]).
  { rewrite detectDelimiter_auto. cbv zeta.
    pose proof (Hscore COMMA ltac:(simpl; tauto)) as (Pc & Zc).
    pose proof (Hscore SEMICOLON ltac:(simpl; tauto)) as (Ps & Zs).
    pose proof (Hscore TAB ltac:(simpl; tauto)) as (Pt & Zt).
    pose proof (Hscore PIPE ltac:(simpl; tauto)) as (Pp & Zp).
    cbn [fold_left]. unfold pickStep.
    destruct Hd as [E|[E|[E|[E|[]]]]]; injection E as <-;
      repeat match goal with
             | H : ?c <> ?c' -> _ = 0 |- _ =>
                 first [ rewrite (H ltac:(discriminate)); clear H
                       | clear H ]
             end;
      repeat match goal with
             | H : ?c = ?c -> 0 < _ |- _ => specialize (H eq_refl)
             | H : ?c = ?c' -> 0 < _ |- _ => clear H
             end;
      repeat match goal with
             | |- context [?a <? ?b] =>
                 destruct (Z.ltb_spec a b); cbv beta iota; try lia
             end;
      reflexivity. }
  assert (Hsample : detectDelimiter (getSample (render d grid) 10)
                                    (lit "auto") = [d]).
  { unfold detectDelimiter in *.
    rewrite sampleLines_getSample by lia. exact Hdetect. }
  repeat split; try assumption.
  unfold tableOf. rewrite Hsample. reflexivity.
Qed.

Lemma detectDelimiter_plain_table_witness :
  let header := [lit "id"; lit "name"] in
  let rest := [[lit "1"; lit "a|b"]; [lit "2"; lit "c"]] in
  let text := render SEMICOLON (header :: rest) in
  detectDelimiter text (lit "auto") = [SEMICOLON]
  /\ detectDelimiter (getSample text 10) (lit "auto") = [SEMICOLON]
  /\ tableOf Sample.noGuess text (lit "auto") 10
     = parseCSV Sample.noGuess text (capped [SEMICOLON] 10).
Proof.
  cbv zeta.
  apply (detectDelimiter_plain_table Sample.noGuess SEMICOLON
           [lit "id"; lit "name"]
           [[lit "1"; lit "a|b"]; [lit "2"; lit "c"]] 10).
  - simpl. tauto.
  - concrete_table.
  - simpl. lia.
  - intros field c [<-|[<-|[]]] [E|[E|[E|[E|[]]]]]; injection E as <-;
      vm_compute; intros H;
      repeat (destruct H as [H|H]; [discriminate H|]); exact H.
Defined.

(** ** The row cap of [parseCSV] and the rows of the text *)






